(** * The Library workbench: a shallow embedding of [src/app/page.tsx]

    The page renders a fixed set of fragment cards that can be dragged,
    focused and whose arrangement is kept in [localStorage].  This file
    embeds the parts of the page that carry behaviour:

    - [getYouTubeId] and the two regular expressions it tries;
    - the [layoutStore] closure (load at module initialisation, [save],
      [subscribe]) together with the [JSON.stringify] / [JSON.parse] pair
      it relies on;
    - the [Library] component: its React state and refs as a record, its
      event handlers as state transformers, timers and animation frames as
      explicit queues;
    - the style resolver [getStyle];
    - the store once more with numbers as doubles ([Number], [JSON64],
      [JS]), for what is written to storage and read back;
    - the [window] listeners of a drag as closures of the render that
      attached them ([Listener], [Page]).

    Numbers.  In the component, pixel coordinates and z-indexes are [Z];
    the rotation angles of the dataset and the scale factors are the
    decimals of the source ([Q]).  Where the page computes with a number
    that is not an integer (the rotation of a dragged card) or writes
    numbers to storage and reads them back, numbers are IEEE 754 binary64
    values ([Double.t]).  Strings are [string] (bytes). *)

From Stdlib Require Import ZArith QArith List String Ascii Lia.
From Stdlib Require Import DecimalString DecimalZ SpecFloat.
From stdpp Require Import base option list gmap strings sorting.

Open Scope Z_scope.
Open Scope string_scope.

(** ** Numbers

    A JavaScript number is an IEEE 754 binary64 value.  [SpecFloat] gives
    them as sign, mantissa and exponent, with correctly rounded
    arithmetic. *)

Module Double.
Definition prec : Z := 53.
Definition emax : Z := 1024.

Definition t : Type := spec_float.

(** The double nearest to an integer. *)
Definition of_Z (n : Z) : t := binary_normalize prec emax n 0 false.

Definition mul (x y : t) : t := SFmul prec emax x y.
Definition div (x y : t) : t := SFdiv prec emax x y.

(** The double a decimal literal of the source denotes: the one nearest
    to its value. *)
Definition of_Q (q : Q) : t :=
  match Qnum q with
  | Z0 => S754_zero false
  | Zpos n => SFdiv prec emax (S754_finite false n 0) (S754_finite false (Qden q) 0)
  | Zneg n => SFdiv prec emax (S754_finite true n 0) (S754_finite false (Qden q) 0)
  end.
End Double.

(** ** Regular expressions (the fragment used by [getYouTubeId]) *)

Module Regex.

(** Abstract syntax of the patterns of the page.  [PlusNoneOf cs] is the
    greedy [[^cs]+]; [Capture] is a capturing group (each pattern of the
    page has exactly one, group 1); [NonCapture] is [(?: ... )]. *)
Inductive regex : Type :=
| Lit (s : string)
| Alt (r1 r2 : regex)
| Seq (r1 r2 : regex)
| NonCapture (r : regex)
| Capture (r : regex)
| PlusNoneOf (cs : list ascii).

Fixpoint strip_prefix (p s : string) : option string :=
  match p, s with
  | EmptyString, _ => Some s
  | String a p', String b s' =>
      if Ascii.eqb a b then strip_prefix p' s' else None
  | String _ _, EmptyString => None
  end.

Definition none_of (cs : list ascii) (c : ascii) : bool :=
  negb (existsb (Ascii.eqb c) cs).

(** Greedy iteration of a character class: the longest run is tried
    first, shorter ones on backtracking. *)
Fixpoint greedy_star {A} (cs : list ascii) (s : string)
    (k : string -> option A) : option A :=
  match s with
  | String c s' =>
      if none_of cs c then
        match greedy_star cs s' k with
        | Some r => Some r
        | None => k s
        end
      else k s
  | EmptyString => k s
  end.

(** The text consumed between the suffix [s] and its suffix [rest]. *)
Definition consumed (s rest : string) : string :=
  substring 0 (String.length s - String.length rest) s.

(** Backtracking matcher in continuation-passing style: [re_match r s cap k]
    matches [r] at the start of [s] and hands the remaining input and the
    capture of group 1 to [k]; alternatives are tried left to right. *)
Fixpoint re_match {A} (r : regex) (s : string) (cap : option string)
    (k : string -> option string -> option A) : option A :=
  match r with
  | Lit l =>
      match strip_prefix l s with
      | Some s' => k s' cap
      | None => None
      end
  | Alt r1 r2 =>
      match re_match r1 s cap k with
      | Some x => Some x
      | None => re_match r2 s cap k
      end
  | Seq r1 r2 => re_match r1 s cap (fun s' cap' => re_match r2 s' cap' k)
  | NonCapture r' => re_match r' s cap k
  | Capture r' => re_match r' s cap (fun s' _ => k s' (Some (consumed s s')))
  | PlusNoneOf cs =>
      match s with
      | String c s' =>
          if none_of cs c then greedy_star cs s' (fun s'' => k s'' cap)
          else None
      | EmptyString => None
      end
  end.

(** [String.prototype.match] with a non-global pattern: the leftmost
    start position at which the pattern matches.  The result is the
    capture of group 1 ([match[1]]). *)
Fixpoint re_exec (r : regex) (s : string) : option (option string) :=
  match re_match r s None (fun _ cap => Some cap) with
  | Some cap => Some cap
  | None =>
      match s with
      | String _ s' => re_exec r s'
      | EmptyString => None
      end
  end.

(** [String.prototype.includes]. *)
Fixpoint includes (s needle : string) : bool :=
  match strip_prefix needle s with
  | Some _ => true
  | None =>
      match s with
      | String _ s' => includes s' needle
      | EmptyString => false
      end
  end.

End Regex.

Import Regex.

(** ** [getYouTubeId] *)

Definition LF : ascii := "010"%char.

(** [[^&\n?#]+] *)
Definition id_chars : regex := PlusNoneOf ["&"%char; LF; "?"%char; "#"%char].

Definition patterns : list regex :=
  [ Seq (NonCapture (Alt (Lit "youtube.com/watch?v=")
                    (Alt (Lit "youtu.be/") (Lit "youtube.com/embed/"))))
        (Capture id_chars);
    Seq (Lit "youtube.com/shorts/") (Capture id_chars) ].

(** [for (const pattern of patterns) { const match = url.match(pattern);
    if (match) return match[1]; } return null;] *)
Fixpoint first_match (ps : list regex) (url : string) : option string :=
  match ps with
  | [] => None
  | pattern :: ps' =>
      match re_exec pattern url with
      | Some m => m
      | None => first_match ps' url
      end
  end.

Definition getYouTubeId (url : string) : option string :=
  first_match patterns url.

(** The URL shapes the patterns know. *)
Definition known_shapes : list string :=
  [ "youtube.com/watch?v="; "youtu.be/"; "youtube.com/embed/";
    "youtube.com/shorts/" ].

Definition matches_no_known_shape (url : string) : Prop :=
  forall shape, In shape known_shapes -> includes url shape = false.

(** ** JSON: the fragment of [JSON.stringify] / [JSON.parse] the store uses

    Values are null, booleans, integers, strings, arrays and objects.
    Numbers with a fraction or an exponent and [\uXXXX] escapes are outside
    the fragment: [parse] rejects them. *)

Module JSON.

#[warnings="-register-all"]
Inductive value : Type :=
| JNull
| JBool (b : bool)
| JNum (n : Z)
| JStr (s : string)
| JArr (l : list value)
| JObj (l : list (string * value)).

Definition DQ : ascii := "034"%char.
Definition BACKSLASH : ascii := "092"%char.

(** *** Printing *)

Definition string_of_Z (n : Z) : string :=
  NilZero.string_of_int (Z.to_int n).

Fixpoint escape (s : string) : string :=
  match s with
  | EmptyString => EmptyString
  | String c s' =>
      if (Ascii.eqb c DQ || Ascii.eqb c BACKSLASH)%bool
      then String BACKSLASH (String c (escape s'))
      else String c (escape s')
  end.

Definition quote (s : string) : string :=
  String DQ (escape s ++ String DQ EmptyString).

(** Comma-separated items. *)
Fixpoint join (items : list string) : string :=
  match items with
  | [] => EmptyString
  | [i] => i
  | i :: items' => i ++ "," ++ join items'
  end.

Fixpoint stringify (v : value) : string :=
  match v with
  | JNull => "null"
  | JBool true => "true"
  | JBool false => "false"
  | JNum n => string_of_Z n
  | JStr s => quote s
  | JArr l => "[" ++ join (List.map stringify l) ++ "]"
  | JObj l =>
      "{" ++ join (List.map (fun kv => quote (fst kv) ++ ":" ++ stringify (snd kv)) l)
          ++ "}"
  end.

(** *** Parsing *)

Definition is_ws (c : ascii) : bool :=
  existsb (Ascii.eqb c) [" "%char; "009"%char; "010"%char; "013"%char].

Fixpoint skip_ws (s : string) : string :=
  match s with
  | String c s' => if is_ws c then skip_ws s' else s
  | EmptyString => s
  end.

Definition is_digit (c : ascii) : bool :=
  existsb (Ascii.eqb c)
    ["0"; "1"; "2"; "3"; "4"; "5"; "6"; "7"; "8"; "9"]%char.

Fixpoint span_digits (s : string) : string * string :=
  match s with
  | String c s' =>
      if is_digit c
      then let (ds, r) := span_digits s' in (String c ds, r)
      else (EmptyString, s)
  | EmptyString => (EmptyString, EmptyString)
  end.

(** A zero followed by further digits. *)
Definition leading_zero (ds : string) : bool :=
  match ds with
  | String c (String _ _) => Ascii.eqb c "0"
  | _ => false
  end.

(** The input goes on with a fraction or an exponent. *)
Definition starts_fraction (s : string) : bool :=
  match s with
  | String c _ => existsb (Ascii.eqb c) ["."; "e"; "E"]%char
  | EmptyString => false
  end.

(** Digits without a sign. *)
Definition parse_unsigned (s : string) : option (Z * string) :=
  let '(ds, rest) := span_digits s in
  match ds with
  | EmptyString => None
  | String _ _ =>
      if (leading_zero ds || starts_fraction rest)%bool then None
      else
        match NilEmpty.uint_of_string ds with
        | Some u => Some (Z.of_uint u, rest)
        | None => None
        end
  end.

Definition parse_number (s : string) : option (Z * string) :=
  match s with
  | String c r =>
      if Ascii.eqb c "-" then
        match parse_unsigned r with
        | Some (n, rest) => Some (- n, rest)
        | None => None
        end
      else parse_unsigned s
  | EmptyString => None
  end.

Definition unescape (c : ascii) : option ascii :=
  if Ascii.eqb c DQ then Some DQ
  else if Ascii.eqb c BACKSLASH then Some BACKSLASH
  else if Ascii.eqb c "/" then Some "/"%char
  else if Ascii.eqb c "b" then Some "008"%char
  else if Ascii.eqb c "f" then Some "012"%char
  else if Ascii.eqb c "n" then Some "010"%char
  else if Ascii.eqb c "r" then Some "013"%char
  else if Ascii.eqb c "t" then Some "009"%char
  else None.

Definition is_control (c : ascii) : bool := (nat_of_ascii c <? 32)%nat.

(** The characters of a string after its opening quote, up to and
    including the closing one. *)
Fixpoint parse_string_body (s : string) : option (string * string) :=
  match s with
  | EmptyString => None
  | String c s' =>
      if Ascii.eqb c DQ then Some (EmptyString, s')
      else if Ascii.eqb c BACKSLASH then
        match s' with
        | String e s'' =>
            match unescape e, parse_string_body s'' with
            | Some c', Some (t, r) => Some (String c' t, r)
            | _, _ => None
            end
        | EmptyString => None
        end
      else if is_control c then None
      else
        match parse_string_body s' with
        | Some (t, r) => Some (String c t, r)
        | None => None
        end
  end.

Section Loops.
(** The two loops of the grammar, over the parser [pv] of one value.
    [n] bounds the number of items still to read. *)
Variable pv : string -> option (value * string).

(** After [{] and a first non-[}] token: [string : value] members
    separated by commas, closed by [}]. *)
Fixpoint parse_members (n : nat) (s : string)
    : option (list (string * value) * string) :=
  match n with
  | O => None
  | S n' =>
      match skip_ws s with
      | String c r =>
          if Ascii.eqb c DQ then
            match parse_string_body r with
            | Some (k, r1) =>
                match skip_ws r1 with
                | String c1 r2 =>
                    if Ascii.eqb c1 ":" then
                      match pv (skip_ws r2) with
                      | Some (v, r3) =>
                          match skip_ws r3 with
                          | String c3 r4 =>
                              if Ascii.eqb c3 "}" then Some ([(k, v)], r4)
                              else if Ascii.eqb c3 "," then
                                match parse_members n' r4 with
                                | Some (l, r5) => Some ((k, v) :: l, r5)
                                | None => None
                                end
                              else None
                          | EmptyString => None
                          end
                      | None => None
                      end
                    else None
                | EmptyString => None
                end
            | None => None
            end
          else None
      | EmptyString => None
      end
  end.

(** After [[] and a first non-[]] token. *)
Fixpoint parse_elements (n : nat) (s : string)
    : option (list value * string) :=
  match n with
  | O => None
  | S n' =>
      match pv (skip_ws s) with
      | Some (v, r1) =>
          match skip_ws r1 with
          | String c r2 =>
              if Ascii.eqb c "]" then Some ([v], r2)
              else if Ascii.eqb c "," then
                match parse_elements n' r2 with
                | Some (l, r3) => Some (v :: l, r3)
                | None => None
                end
              else None
          | EmptyString => None
          end
      | None => None
      end
  end.
End Loops.

(** One value at the start of [s] (no leading white space); [fuel] bounds
    the nesting depth. *)
Fixpoint parse_value (fuel : nat) (s : string) : option (value * string) :=
  match fuel with
  | O => None
  | S fuel' =>
      match s with
      | EmptyString => None
      | String c r =>
          if Ascii.eqb c "{" then
            match skip_ws r with
            | String c' r' =>
                if Ascii.eqb c' "}" then Some (JObj [], r')
                else
                  match parse_members (parse_value fuel') (String.length r) r with
                  | Some (l, r'') => Some (JObj l, r'')
                  | None => None
                  end
            | EmptyString => None
            end
          else if Ascii.eqb c "[" then
            match skip_ws r with
            | String c' r' =>
                if Ascii.eqb c' "]" then Some (JArr [], r')
                else
                  match parse_elements (parse_value fuel') (String.length r) r with
                  | Some (l, r'') => Some (JArr l, r'')
                  | None => None
                  end
            | EmptyString => None
            end
          else if Ascii.eqb c DQ then
            match parse_string_body r with
            | Some (t, r') => Some (JStr t, r')
            | None => None
            end
          else
            match strip_prefix "null" s, strip_prefix "true" s,
                  strip_prefix "false" s with
            | Some r', _, _ => Some (JNull, r')
            | _, Some r', _ => Some (JBool true, r')
            | _, _, Some r' => Some (JBool false, r')
            | None, None, None =>
                match parse_number s with
                | Some (n, r') => Some (JNum n, r')
                | None => None
                end
            end
      end
  end.

(** [JSON.parse]: one value surrounded by optional white space; [None]
    stands for the [SyntaxError] it throws. *)
Definition parse (s : string) : option value :=
  match parse_value (String.length s) (skip_ws s) with
  | Some (v, rest) =>
      match skip_ws rest with
      | EmptyString => Some v
      | String _ _ => None
      end
  | None => None
  end.

End JSON.

Open Scope list_scope.
Open Scope Z_scope.


(** ** The dataset and the layout record *)

Inductive FragmentType : Type :=
| manila | aged_paper | typewriter | media | notebook | legal_pad | torn_scrap.

Module Fragment.
Record t : Type := mk {
  id : Z;
  type : FragmentType;
  text : option string;
  author : option string;
  title : option string;
  url : option string;
  top : string;
  left : option string;
  right : option string;
  width : string;
  rotate : Q;
  z : Z;
  tape : bool;
  pin : bool;
  fontSize : option string
}.
End Fragment.

Definition fragments : list Fragment.t :=
  [ Fragment.mk 11 manila
      (Some "In the midst of chaos, there is also opportunity.")
      (Some "Sun Tzu") None None
      "2%" (Some "5%") None "240px" 2.5%Q 6 false false None;
    Fragment.mk 18 aged_paper
      (Some "Now, with God's help, I shall become myself.")
      (Some "Søren Kierkegaard") None None
      "3%" None (Some "5%") "280px" (-1.5)%Q 6 true false None;
    Fragment.mk 19 typewriter
      (Some "The world belongs to the energetic.")
      (Some "Ralph Waldo Emerson") None None
      "16%" (Some "5%") None "240px" 1.2%Q 5 false false None;
    Fragment.mk 13 media
      None None (Some "Michael Jordan's Wisdom")
      (Some "https://www.youtube.com/watch?v=EUo0ncJX19A")
      "18%" None (Some "5%") "180px" (-2.5)%Q 10 false false None;
    Fragment.mk 22 notebook
      (Some "There's no greater danger than playing it safe.")
      None None None
      "32%" (Some "5%") None "220px" 1.5%Q 6 false false None;
    Fragment.mk 20 legal_pad
      (Some "Here's to the crazy ones. The misfits. The rebels. The troublemakers. The round pegs in the square holes. The ones who see things differently. They're not fond of rules. And they have no respect for the status quo. You can quote them, disagree with them, glorify or vilify them. About the only thing you can't do is ignore them. Because they change things. They push the human race forward. And while some may see them as the crazy ones, we see genius. Because the people who are crazy enough to think they can change the world, are the ones who do.")
      (Some "Steve Jobs") None None
      "44%" (Some "3%") None "320px" 0.8%Q 7 true false (Some "1rem");
    Fragment.mk 21 torn_scrap
      (Some "You are not your job. You're not how much money you have in the bank. You're not the car you drive. You're not the contents of your wallet. You're not your fucking khakis.")
      (Some "Tyler Durden") None None
      "46%" None (Some "5%") "300px" (-2)%Q 8 false true None ].

(** The ids of the dataset. *)
Definition fragment_ids : list Z := List.map Fragment.id fragments.

Module Position.
Record t : Type := mk { x : Z; y : Z }.
End Position.

(** [type LayoutData]; a [Record<number, T>] is a finite map over the ids. *)
Record LayoutData : Type := mkLayoutData {
  positions : gmap Z Position.t;
  zIndexes : gmap Z Z;
  maxZ : Z
}.

(** *** [LayoutData] as a JSON value, and back *)

Definition Position_to_json (p : Position.t) : JSON.value :=
  JSON.JObj [("x", JSON.JNum (Position.x p)); ("y", JSON.JNum (Position.y p))].

Definition by_key {V : Type} : relation (Z * V) := fun a b => fst a <= fst b.

#[global] Instance by_key_dec {V : Type} (a b : Z * V) : Decision (by_key a b).
Proof. unfold by_key. apply _. Defined.

(** The own properties of a [Record<number, T>] as [JSON.stringify] walks
    them: integer keys in ascending order. *)
Definition entries {V : Type} (m : gmap Z V) : list (Z * V) :=
  merge_sort by_key (map_to_list m).

Definition Record_to_json {V : Type} (f : V -> JSON.value) (m : gmap Z V)
    : JSON.value :=
  JSON.JObj (List.map (fun kv => (JSON.string_of_Z (fst kv), f (snd kv)))
                      (entries m)).

Definition LayoutData_to_json (d : LayoutData) : JSON.value :=
  JSON.JObj
    [ ("positions", Record_to_json Position_to_json (positions d));
      ("zIndexes", Record_to_json JSON.JNum (zIndexes d));
      ("maxZ", JSON.JNum (maxZ d)) ].

(** [JSON.stringify(newData)] *)
Definition JSON_stringify (d : LayoutData) : string :=
  JSON.stringify (LayoutData_to_json d).

(** Property read [o[k]] on a parsed object: the last member named [k]. *)
Definition get (k : string) (l : list (string * JSON.value))
    : option JSON.value :=
  fold_left (fun acc kv => if String.eqb (fst kv) k then Some (snd kv) else acc)
            l None.

Definition as_num (v : JSON.value) : option Z :=
  match v with
  | JSON.JNum n => Some n
  | _ => None
  end.

Definition Position_of_json (v : JSON.value) : option Position.t :=
  match v with
  | JSON.JObj l =>
      px ← get "x" l ≫= as_num;
      py ← get "y" l ≫= as_num;
      Some (Position.mk px py)
  | _ => None
  end.

(** The number a property name stands for, when it is the canonical
    spelling of one (the form under which [o[id]] finds it). *)
Definition key_of_string (k : string) : option Z :=
  match JSON.parse_number k with
  | Some (n, EmptyString) =>
      if String.eqb (JSON.string_of_Z n) k then Some n else None
  | _ => None
  end.

(** Members are added in order, a later one replacing an earlier one of the
    same name; names that are not ids are not kept. *)
Definition Record_of_json {V : Type} (f : JSON.value -> option V)
    (v : JSON.value) : option (gmap Z V) :=
  match v with
  | JSON.JObj l =>
      fold_left
        (fun acc kv =>
           m ← acc;
           match key_of_string (fst kv) with
           | Some k => e ← f (snd kv); Some (<[k := e]> m)
           | None => Some m
           end)
        l (Some ∅)
  | _ => None
  end.

(** The parsed value read at the type [LayoutData | null].  The source
    assigns the result of [JSON.parse] without checking it; a value that is
    not of that type has no counterpart here and reads as [null]. *)
Definition LayoutData_of_json (v : JSON.value) : option LayoutData :=
  match v with
  | JSON.JObj l =>
      ps ← get "positions" l ≫= Record_of_json Position_of_json;
      zs ← get "zIndexes" l ≫= Record_of_json as_num;
      mz ← get "maxZ" l ≫= as_num;
      Some (mkLayoutData ps zs mz)
  | _ => None
  end.

(** [JSON.parse(text)] at the type [LayoutData | null]; [None] is [null]
    or a thrown [SyntaxError]. *)
Definition JSON_parse (text : string) : option LayoutData :=
  JSON.parse text ≫= LayoutData_of_json.


(** ** Exceptions and state

    Code that can throw is a state transformer that ends normally with a
    value or by a throw; the state reached is kept in both cases. *)

Inductive completion (A : Type) : Type :=
| Normal (a : A)
| Thrown.
Arguments Normal {A} a.
Arguments Thrown {A}.

Definition Eff (S A : Type) : Type := S -> S * completion A.

Definition ret {S A : Type} (a : A) : Eff S A := fun s => (s, Normal a).

Definition bind {S A B : Type} (m : Eff S A) (k : A -> Eff S B) : Eff S B :=
  fun s =>
    match m s with
    | (s', Normal a) => k a s'
    | (s', Thrown) => (s', Thrown)
    end.

Definition modify {S : Type} (f : S -> S) : Eff S unit :=
  fun s => (f s, Normal tt).

(** [try { body } catch {}] *)
Definition try_catch {S : Type} (body : Eff S unit) : Eff S unit :=
  fun s =>
    match body s with
    | (s', Normal _) => (s', Normal tt)
    | (s', Thrown) => (s', Normal tt)
    end.

Notation "m1 ;;; m2" := (bind m1 (fun _ => m2))
  (at level 100, m2 at level 200, right associativity).

(** [for (const x of l) body(x)] *)
Fixpoint for_each {S A : Type} (l : list A) (body : A -> Eff S unit)
    : Eff S unit :=
  match l with
  | [] => ret tt
  | a :: l' => body a ;;; for_each l' body
  end.

(** ** [localStorage]

    A storage area that is either disabled (every access throws) or takes
    a write as long as key and value fit its quota. *)

Module Storage.
Record t : Type := mk {
  items : gmap string string;
  enabled : bool;
  quota : nat
}.

Definition getItem (key : string) (s : t) : completion (option string) :=
  if enabled s then Normal (items s !! key) else Thrown.

Definition fits (key value : string) (s : t) : bool :=
  (enabled s && (String.length key + String.length value <=? quota s)%nat)%bool.

Definition setItem (key value : string) (s : t) : completion t :=
  if fits key value s
  then Normal (mk (<[key := value]> (items s)) (enabled s) (quota s))
  else Thrown.
End Storage.

(** ** The layout store *)

Module Snapshot.
Record t : Type := mk { data : option LayoutData; isLoaded : bool }.
End Snapshot.

(** The variables the closure of [layoutStore] holds.  A listener is known
    by a number; [listeners] is the [Set] of them. *)
Record LayoutStore : Type := mkLayoutStore {
  listeners : gset nat;
  data : option LayoutData;
  isLoaded : bool;
  snapshot : Snapshot.t
}.

(** The store in its surroundings: the storage area, and the record of the
    listener calls made so far, each with the snapshot [getSnapshot] gave at
    the time of the call. *)
Record World : Type := mkWorld {
  store : LayoutStore;
  localStorage : Storage.t;
  calls : list (nat * Snapshot.t)
}.

Definition KEY : string := "library-layout".

Definition serverSnapshot : Snapshot.t := Snapshot.mk None false.

(** [JSON.parse(localStorage.getItem("library-layout") || "null")] inside
    [try { ... } catch {}]: the value [data] holds afterwards. *)
Definition load (ls : Storage.t) : option LayoutData :=
  match Storage.getItem KEY ls with
  | Normal item =>
      let text :=
        match item with
        | Some EmptyString | None => "null"
        | Some s => s
        end in
      JSON_parse text
  | Thrown => None
  end.

(** The body of the closure, run once when the module is loaded;
    [has_window] is [typeof window !== "undefined"]. *)
Definition layoutStore_init (has_window : bool) (ls : Storage.t) : LayoutStore :=
  let data0 : option LayoutData := None in
  let isLoaded0 := false in
  let snapshot0 := Snapshot.mk data0 isLoaded0 in
  if has_window then
    let data1 := load ls in
    let isLoaded1 := true in
    mkLayoutStore ∅ data1 isLoaded1 (Snapshot.mk data1 isLoaded1)
  else mkLayoutStore ∅ data0 isLoaded0 snapshot0.

Definition subscribe (cb : nat) (st : LayoutStore) : LayoutStore :=
  mkLayoutStore ({[cb]} ∪ listeners st) (data st) (isLoaded st) (snapshot st).

(** The function [subscribe] returns. *)
Definition unsubscribe (cb : nat) (st : LayoutStore) : LayoutStore :=
  mkLayoutStore (listeners st ∖ {[cb]}) (data st) (isLoaded st) (snapshot st).

Definition getSnapshot (st : LayoutStore) : Snapshot.t := snapshot st.

Definition getServerSnapshot : Snapshot.t := serverSnapshot.

(** [localStorage.setItem(key, value)] *)
Definition localStorage_setItem (key value : string) : Eff World unit :=
  fun w =>
    match Storage.setItem key value (localStorage w) with
    | Normal ls' => (mkWorld (store w) ls' (calls w), Normal tt)
    | Thrown => (w, Thrown)
    end.

(** [data = newData; snapshot = { data, isLoaded };] *)
Definition assign_data (newData : LayoutData) : Eff World unit :=
  modify (fun w =>
    let st := store w in
    mkWorld (mkLayoutStore (listeners st) (Some newData) (isLoaded st)
                           (Snapshot.mk (Some newData) (isLoaded st)))
            (localStorage w) (calls w)).

(** [cb()]: the call is recorded with the snapshot the listener reads.
    (The listeners of the page are the callbacks [useSyncExternalStore]
    subscribes; they return normally.) *)
Definition call_listener (cb : nat) : Eff World unit :=
  modify (fun w =>
    mkWorld (store w) (localStorage w)
            (calls w ++ [(cb, getSnapshot (store w))])).

Definition save (newData : LayoutData) : Eff World unit :=
  try_catch
    (localStorage_setItem KEY (JSON_stringify newData) ;;;
     assign_data newData ;;;
     (fun w => for_each (elements (listeners (store w))) call_listener w)).

(** Whether the write of [newData] is one the storage area takes. *)
Definition write_succeeds (newData : LayoutData) (w : World) : bool :=
  Storage.fits KEY (JSON_stringify newData) (localStorage w).

(** ** The [Library] component *)

Module DOMRect.
(** The two fields of [getBoundingClientRect()] the page reads. *)
Record t : Type := mk { left : Z; top : Z }.
End DOMRect.

Module Touch.
Record t : Type := mk { clientX : Z; clientY : Z }.
End Touch.

(** [MouseEvent | TouchEvent].  A touch event that starts or moves a
    gesture has a first touch point; [touches[0]] is that point. *)
Inductive PointerEvent : Type :=
| MouseEvent (clientX clientY : Z)
| TouchEvent (first : Touch.t) (others : list Touch.t).

(** ["touches" in e ? e.touches[0].clientX : e.clientX] *)
Definition clientX (e : PointerEvent) : Z :=
  match e with
  | MouseEvent cx _ => cx
  | TouchEvent t _ => Touch.clientX t
  end.

Definition clientY (e : PointerEvent) : Z :=
  match e with
  | MouseEvent _ cy => cy
  | TouchEvent t _ => Touch.clientY t
  end.

Module DragStart.
Record t : Type := mk { x : Z; y : Z; elemX : Z; elemY : Z }.
End DragStart.

Inductive FocusPhase : Type := idle | opening | open | closing.

(** The [useState] cells and the [useRef] cells of the component. *)
Record Component : Type := mkComponent {
  focusedId : option Z;
  focusOrigin : option Position.t;
  focusPhase : FocusPhase;
  draggingId : option Z;
  dragPos : option Position.t;
  dragStartRef : option DragStart.t;
  didDragRef : bool;
  maxZRef : Z
}.

(** The two callbacks the page hands to the scheduler. *)
Inductive Callback : Type :=
| FocusOpen    (* () => setFocusPhase("open") *)
| FocusReset.  (* () => { setFocusedId(null); setFocusOrigin(null);
                          setFocusPhase("idle"); } *)

(** Pending [setTimeout] callbacks with the time (ms) they are due, pending
    [requestAnimationFrame] callbacks, both in the order they were queued. *)
Record Scheduler : Type := mkScheduler {
  clock : nat;
  timeouts : list (nat * Callback);
  frames : list Callback
}.

Record App : Type := mkApp {
  world : World;
  ui : Component;
  sched : Scheduler
}.

Definition setTimeout (cb : Callback) (ms : nat) (s : Scheduler) : Scheduler :=
  mkScheduler (clock s) (timeouts s ++ [((clock s + ms)%nat, cb)]) (frames s).

Definition requestAnimationFrame (cb : Callback) (s : Scheduler) : Scheduler :=
  mkScheduler (clock s) (timeouts s) (frames s ++ [cb]).

(** *** State setters *)

Definition setFocusedId (v : option Z) (c : Component) : Component :=
  mkComponent v (focusOrigin c) (focusPhase c) (draggingId c) (dragPos c)
              (dragStartRef c) (didDragRef c) (maxZRef c).

Definition setFocusOrigin (v : option Position.t) (c : Component) : Component :=
  mkComponent (focusedId c) v (focusPhase c) (draggingId c) (dragPos c)
              (dragStartRef c) (didDragRef c) (maxZRef c).

Definition setFocusPhase (v : FocusPhase) (c : Component) : Component :=
  mkComponent (focusedId c) (focusOrigin c) v (draggingId c) (dragPos c)
              (dragStartRef c) (didDragRef c) (maxZRef c).

Definition setDraggingId (v : option Z) (c : Component) : Component :=
  mkComponent (focusedId c) (focusOrigin c) (focusPhase c) v (dragPos c)
              (dragStartRef c) (didDragRef c) (maxZRef c).

Definition setDragPos (v : option Position.t) (c : Component) : Component :=
  mkComponent (focusedId c) (focusOrigin c) (focusPhase c) (draggingId c) v
              (dragStartRef c) (didDragRef c) (maxZRef c).

Definition set_dragStartRef (v : option DragStart.t) (c : Component) : Component :=
  mkComponent (focusedId c) (focusOrigin c) (focusPhase c) (draggingId c)
              (dragPos c) v (didDragRef c) (maxZRef c).

Definition set_didDragRef (v : bool) (c : Component) : Component :=
  mkComponent (focusedId c) (focusOrigin c) (focusPhase c) (draggingId c)
              (dragPos c) (dragStartRef c) v (maxZRef c).

Definition set_maxZRef (v : Z) (c : Component) : Component :=
  mkComponent (focusedId c) (focusOrigin c) (focusPhase c) (draggingId c)
              (dragPos c) (dragStartRef c) (didDragRef c) v.

Definition on_ui (f : Component -> Component) (a : App) : App :=
  mkApp (world a) (f (ui a)) (sched a).

Definition on_sched (f : Scheduler -> Scheduler) (a : App) : App :=
  mkApp (world a) (ui a) (f (sched a)).

(** *** What a render reads *)

(** [useLayout()] once the page is live: [useSyncExternalStore] hands out
    [getSnapshot()]. *)
Definition layout (a : App) : option LayoutData :=
  Snapshot.data (getSnapshot (store (world a))).

Definition app_isLoaded (a : App) : bool :=
  Snapshot.isLoaded (getSnapshot (store (world a))).

(** [layout?.positions ?? {}] and [layout?.zIndexes ?? {}] *)
Definition app_positions (a : App) : gmap Z Position.t :=
  match layout a with
  | Some l => positions l
  | None => ∅
  end.

Definition app_zIndexes (a : App) : gmap Z Z :=
  match layout a with
  | Some l => zIndexes l
  | None => ∅
  end.

(** *** Mounting

    [useRef(layout?.maxZ ?? 20)] keeps the value of the first render.  When
    the page is hydrated from server-rendered markup that first render reads
    [getServerSnapshot()], otherwise [getSnapshot()]. *)
Definition first_render_snapshot (hydrating : bool) (st : LayoutStore)
    : Snapshot.t :=
  if hydrating then getServerSnapshot else getSnapshot st.

Definition initial_maxZ (s : Snapshot.t) : Z :=
  match Snapshot.data s with
  | Some l => maxZ l
  | None => 20
  end.

Definition mount_component (hydrating : bool) (st : LayoutStore) : Component :=
  mkComponent None None idle None None None false
              (initial_maxZ (first_render_snapshot hydrating st)).

(** The page in a browser whose storage area is [ls]: the module is loaded,
    the component mounted, its store listener (number 0) subscribed. *)
Definition start (hydrating : bool) (ls : Storage.t) : App :=
  let st := layoutStore_init true ls in
  mkApp (mkWorld (subscribe 0 st) ls [])
        (mount_component hydrating st)
        (mkScheduler 0 [] []).

(** *** Handlers *)

(** [saveLayout(d)] as a statement of a handler: the world it leaves.  (It
    ends normally on every world, see [save_Normal].) *)
Definition saveLayout (d : LayoutData) (a : App) : App :=
  mkApp (fst (save d (world a))) (ui a) (sched a).

Definition persistLayout (newPositions : gmap Z Position.t)
    (newZIndexes : gmap Z Z) (newMaxZ : Z) (a : App) : App :=
  saveLayout (mkLayoutData newPositions newZIndexes newMaxZ)
             (on_ui (set_maxZRef newMaxZ) a).

Definition handleMove (e : PointerEvent) (a : App) : App :=
  match dragStartRef (ui a) with
  | Some ds =>
      let dx := clientX e - DragStart.x ds in
      let dy := clientY e - DragStart.y ds in
      let a1 :=
        if ((Z.abs dx >? 3) || (Z.abs dy >? 3))%bool
        then on_ui (set_didDragRef true) a
        else a in
      on_ui (setDragPos (Some (Position.mk (DragStart.elemX ds + dx)
                                           (DragStart.elemY ds + dy)))) a1
  | None => a
  end.

Definition handleEnd (a : App) : App :=
  let a1 :=
    match draggingId (ui a), dragPos (ui a) with
    | Some did, Some dp =>
        let newMaxZ := maxZRef (ui a) + 1 in
        let newPositions := <[did := dp]> (app_positions a) in
        let newZIndexes := <[did := newMaxZ]> (app_zIndexes a) in
        persistLayout newPositions newZIndexes newMaxZ a
    | _, _ => a
    end in
  on_ui (fun c => set_dragStartRef None (setDragPos None (setDraggingId None c)))
        a1.

Definition handlePointerDown (id : Z) (e : PointerEvent) (rect : DOMRect.t)
    (a : App) : App :=
  let a1 :=
    on_ui (fun c =>
      setDragPos (Some (Position.mk (DOMRect.left rect) (DOMRect.top rect)))
        (setDraggingId (Some id)
          (set_dragStartRef
             (Some (DragStart.mk (clientX e) (clientY e)
                                 (DOMRect.left rect) (DOMRect.top rect)))
             (set_didDragRef false c)))) a in
  let newMaxZ := maxZRef (ui a) + 1 in
  let newZIndexes := <[id := newMaxZ]> (app_zIndexes a) in
  persistLayout (app_positions a) newZIndexes newMaxZ a1.

(** The body of both timers: focus is dropped 450 ms after it starts to
    close. *)
Definition start_closing (a : App) : App :=
  on_sched (setTimeout FocusReset 450) (on_ui (setFocusPhase closing) a).

Definition handleClick (id : Z) (rect : DOMRect.t) (a : App) : App :=
  if didDragRef (ui a) then on_ui (set_didDragRef false) a
  else if bool_decide (focusedId (ui a) = Some id) then start_closing a
  else
    on_sched (requestAnimationFrame FocusOpen)
      (on_ui (fun c =>
         setFocusPhase opening
           (setFocusedId (Some id)
             (setFocusOrigin
                (Some (Position.mk (DOMRect.left rect) (DOMRect.top rect))) c)))
         a).

Definition closeFocus (a : App) : App :=
  match focusedId (ui a) with
  | Some _ => start_closing a
  | None => a
  end.

(** *** Listeners as the effect and the markup attach them *)

(** [window] listeners exist while [draggingId !== null]. *)
Definition window_move (e : PointerEvent) (a : App) : App :=
  match draggingId (ui a) with
  | Some _ => handleMove e a
  | None => a
  end.

Definition window_end (a : App) : App :=
  match draggingId (ui a) with
  | Some _ => handleEnd a
  | None => a
  end.

(** A card is in the document when [isLoaded] holds and [id] is in the
    dataset. *)
Definition card_rendered (id : Z) (a : App) : bool :=
  (app_isLoaded a && bool_decide (id ∈ fragment_ids))%bool.

(** [onMouseDown] / [onTouchStart] of a card:
    [!isFocused && handlePointerDown(...)]. *)
Definition card_pointer_down (id : Z) (e : PointerEvent) (rect : DOMRect.t)
    (a : App) : App :=
  if (card_rendered id a && negb (bool_decide (focusedId (ui a) = Some id)))%bool
  then handlePointerDown id e rect a
  else a.

Definition card_click (id : Z) (rect : DOMRect.t) (a : App) : App :=
  if card_rendered id a then handleClick id rect a else a.

(** *** Timers and animation frames *)

Definition run_callback (cb : Callback) (c : Component) : Component :=
  match cb with
  | FocusOpen => setFocusPhase open c
  | FocusReset => setFocusPhase idle (setFocusOrigin None (setFocusedId None c))
  end.

Definition run_callbacks (cbs : list Callback) (c : Component) : Component :=
  fold_left (fun c' cb => run_callback cb c') cbs c.

(** The browser paints: the queued frame callbacks run. *)
Definition animation_frame (a : App) : App :=
  mkApp (world a)
        (run_callbacks (frames (sched a)) (ui a))
        (mkScheduler (clock (sched a)) (timeouts (sched a)) []).

Definition is_due (now : nat) (t : nat * Callback) : bool := (fst t <=? now)%nat.

(** [ms] milliseconds pass: the timeouts that are due by then run, in the
    order they were set (all delays are equal, so this is the order of their
    due times). *)
Definition elapse (ms : nat) (a : App) : App :=
  let now := (clock (sched a) + ms)%nat in
  let due := List.filter (is_due now) (timeouts (sched a)) in
  let rest := List.filter (fun t => negb (is_due now t)) (timeouts (sched a)) in
  mkApp (world a)
        (run_callbacks (List.map snd due) (ui a))
        (mkScheduler now rest (frames (sched a))).

(** *** The page as a transition system *)

Inductive Event : Type :=
| PointerDown (id : Z) (e : PointerEvent) (rect : DOMRect.t)
| PointerMove (e : PointerEvent)
| PointerEnd
| Click (id : Z) (rect : DOMRect.t)
| OverlayClick
| AnimationFrame
| Elapse (ms : nat).

Definition step (a : App) (ev : Event) : App :=
  match ev with
  | PointerDown id e rect => card_pointer_down id e rect a
  | PointerMove e => window_move e a
  | PointerEnd => window_end a
  | Click id rect => card_click id rect a
  | OverlayClick => closeFocus a
  | AnimationFrame => animation_frame a
  | Elapse ms => elapse ms a
  end.

Definition run (a : App) (evs : list Event) : App := fold_left step evs a.

(** The states the page can be in: some browser storage, some way of
    mounting, some sequence of events. *)
Definition reachable (a : App) : Prop :=
  exists hydrating ls evs, a = run (start hydrating ls) evs.

(** ** The style resolver *)

#[global] Instance FragmentType_eq_dec : EqDecision FragmentType.
Proof. solve_decision. Defined.

#[global] Instance FocusPhase_eq_dec : EqDecision FocusPhase.
Proof. solve_decision. Defined.

Module CSS.
(** A length given as a string (["50%"], ["auto"]) or as a number of
    pixels. *)
Inductive length : Type :=
| Str (s : string)
| Px (n : Z).

(** The functions of a [transform] value, in the order they are written.
    The angle of [rotate] is a decimal of the source, printed as it is;
    the angle of [rotate_number] is a number the page computes, a
    double. *)
Inductive transform_fn : Type :=
| translate (tx ty : string)
| rotate (deg : Q)
| rotate_number (deg : Double.t)
| scale (k : Q).

Record t : Type := mk {
  position : option string;
  top : option length;
  left : option length;
  right : option length;
  transform : list transform_fn;
  zIndex : Z;
  width : string;
  transition : option string;
  cursor : option string;
  fontSize : option string
}.
End CSS.

Definition FOCUS_TRANSITION : string :=
  "top 0.45s cubic-bezier(0.4, 0, 0.2, 1), left 0.45s cubic-bezier(0.4, 0, 0.2, 1), transform 0.45s cubic-bezier(0.4, 0, 0.2, 1), width 0.45s cubic-bezier(0.4, 0, 0.2, 1)".

(** [zIndexes[item.id] || item.z] *)
Definition currentZ (a : App) (item : Fragment.t) : Z :=
  match app_zIndexes a !! Fragment.id item with
  | Some n => if Z.eqb n 0 then Fragment.z item else n
  | None => Fragment.z item
  end.

Definition getStyle (a : App) (item : Fragment.t) (isFocused isDragging : bool)
    (customPos : option Position.t) : CSS.t :=
  let isMedia := bool_decide (Fragment.type item = media) in
  match isFocused, focusOrigin (ui a) with
  | true, Some origin =>
      let transition := FOCUS_TRANSITION in
      if bool_decide (focusPhase (ui a) = open) then
        CSS.mk (Some "fixed") (Some (CSS.Str "50%")) (Some (CSS.Str "50%"))
               (Some (CSS.Str "auto"))
               (if isMedia
                then [CSS.translate "-50%" "-50%"; CSS.rotate 0%Q]
                else [CSS.translate "-50%" "-50%"; CSS.rotate 0%Q; CSS.scale 1.5%Q])
               1001
               (if isMedia then "480px" else Fragment.width item)
               (Some transition) None None
      else
        CSS.mk (Some "fixed") (Some (CSS.Px (Position.y origin)))
               (Some (CSS.Px (Position.x origin))) (Some (CSS.Str "auto"))
               [CSS.rotate (Fragment.rotate item); CSS.scale 1%Q]
               1001
               (Fragment.width item)
               (Some (if bool_decide (focusPhase (ui a) = closing)
                      then transition else "none"))
               None None
  | _, _ =>
      match isDragging, dragPos (ui a) with
      | true, Some dp =>
          CSS.mk (Some "fixed") (Some (CSS.Px (Position.y dp)))
                 (Some (CSS.Px (Position.x dp))) (Some (CSS.Str "auto"))
                 [CSS.rotate_number
                    (Double.mul (Double.of_Q (Fragment.rotate item))
                                (Double.of_Q 0.3%Q));
                  CSS.scale 1.02%Q]
                 999
                 (Fragment.width item)
                 None (Some "grabbing") None
      | _, _ =>
          match customPos with
          | Some cp =>
              CSS.mk (Some "fixed") (Some (CSS.Px (Position.y cp)))
                     (Some (CSS.Px (Position.x cp))) (Some (CSS.Str "auto"))
                     [CSS.rotate (Fragment.rotate item)]
                     (currentZ a item)
                     (Fragment.width item)
                     None None None
          | None =>
              CSS.mk None (Some (CSS.Str (Fragment.top item)))
                     (option_map CSS.Str (Fragment.left item))
                     (option_map CSS.Str (Fragment.right item))
                     [CSS.rotate (Fragment.rotate item)]
                     (currentZ a item)
                     (Fragment.width item)
                     None None None
          end
      end
  end.

(** The [style] attribute of a card as the markup computes it:
    [{ ...getStyle(item, isFocused, isDragging, customPos),
       ...(item.fontSize && { fontSize: item.fontSize }) }]. *)
Definition card_style (a : App) (item : Fragment.t) : CSS.t :=
  let isDragging := bool_decide (draggingId (ui a) = Some (Fragment.id item)) in
  let isFocused := bool_decide (focusedId (ui a) = Some (Fragment.id item)) in
  let customPos := app_positions a !! Fragment.id item in
  let st := getStyle a item isFocused isDragging customPos in
  CSS.mk (CSS.position st) (CSS.top st) (CSS.left st) (CSS.right st)
         (CSS.transform st) (CSS.zIndex st) (CSS.width st)
         (CSS.transition st) (CSS.cursor st) (Fragment.fontSize item).

(** The z-index of a card that is at rest (neither focused nor dragged). *)
Definition resting_zIndex (a : App) (item : Fragment.t) : Z := currentZ a item.

(** ** The invariant of a layout record *)

Definition layout_invariant (d : LayoutData) : Prop :=
  (forall k, is_Some (positions d !! k) -> k ∈ fragment_ids) /\
  (forall k, is_Some (zIndexes d !! k) -> k ∈ fragment_ids) /\
  (forall k n, zIndexes d !! k = Some n -> n <= maxZ d).

(** ** Vocabulary of the statements *)

(** How often the listener [cb] occurs in a record of calls. *)
Definition notifications (cb : nat) (cs : list (nat * Snapshot.t)) : nat :=
  length (List.filter (fun c => Nat.eqb (fst c) cb) cs).

(** The focus cells of the component. *)
Definition focus_of (c : Component) : option Z * option Position.t * FocusPhase :=
  (focusedId c, focusOrigin c, focusPhase c).

(** A move event at the point where the gesture [e] began. *)
Definition same_point (e m : PointerEvent) : Prop :=
  clientX m = clientX e /\ clientY m = clientY e.

(** A move event more than 3 pixels from the origin of the gesture [e] on
    one of the axes. *)
Definition beyond_threshold (e m : PointerEvent) : Prop :=
  Z.abs (clientX m - clientX e) > 3 \/ Z.abs (clientY m - clientY e) > 3.

(** The [window] receives the move events [moves] in turn. *)
Definition window_moves (moves : list PointerEvent) (a : App) : App :=
  fold_left (fun s m => window_move m s) moves a.

(** The point a rectangle starts at. *)
Definition rect_origin (rect : DOMRect.t) : Position.t :=
  Position.mk (DOMRect.left rect) (DOMRect.top rect).

(** The world a successful [save] leaves. *)
Definition saved (d : LayoutData) (w : World) : World :=
  let snap := Snapshot.mk (Some d) (isLoaded (store w)) in
  mkWorld
    (mkLayoutStore (listeners (store w)) (Some d) (isLoaded (store w)) snap)
    (Storage.mk (<[KEY := JSON_stringify d]> (Storage.items (localStorage w)))
                (Storage.enabled (localStorage w))
                (Storage.quota (localStorage w)))
    (calls w ++ List.map (fun cb => (cb, snap))
                         (elements (listeners (store w)))).

(** What holds of the component and the scheduler in every state the page
    reaches (see [reachable_ok]). *)
Record app_ok (a : App) : Prop := mk_app_ok {
  ok_origin : forall id, focusedId (ui a) = Some id -> is_Some (focusOrigin (ui a));
  ok_idle : focusPhase (ui a) = idle -> focusedId (ui a) = None;
  ok_frames : Forall (fun cb => cb = FocusOpen) (frames (sched a));
  ok_timeouts : Forall (fun t => snd t = FocusReset) (timeouts (sched a));
  ok_dragging : forall id, draggingId (ui a) = Some id -> id ∈ fragment_ids
}.


(** [beyond_threshold] as the handler computes it, from the recorded
    origin [(ox, oy)]. *)
Definition beyondb (ox oy : Z) (m : PointerEvent) : bool :=
  ((Z.abs (clientX m - ox) >? 3) || (Z.abs (clientY m - oy) >? 3))%bool.


(** A press on card [id] at [e], the move events [moves], the release. *)
Definition gesture (id : Z) (e : PointerEvent) (rect : DOMRect.t)
    (moves : list PointerEvent) (a : App) : App :=
  window_end (window_moves moves (handlePointerDown id e rect a)).

(** A browser with an empty storage area that has room. *)
Definition empty_storage : Storage.t := Storage.mk ∅ true 5000.


(** [layout_invariant] as a check. *)
Definition layout_invariantb (d : LayoutData) : bool :=
  (forallb (fun kv => bool_decide (fst kv ∈ fragment_ids))
           (map_to_list (positions d)) &&
   forallb (fun kv => bool_decide (fst kv ∈ fragment_ids) && (snd kv <=? maxZ d))
           (map_to_list (zIndexes d)))%bool.

(** The running counter of the component is not behind the stored one. *)
Definition counter_in_sync (a : App) : Prop :=
  forall d, layout a = Some d -> maxZ d <= maxZRef (ui a).

(** [n] times a press and release on card [id], without movement. *)
Definition taps (n : nat) (id : Z) : list Event :=
  concat (repeat [PointerDown id (MouseEvent 45 30) (DOMRect.mk 40 20);
                  PointerEnd] n).

Definition fragment_by_id (id : Z) : option Fragment.t :=
  List.find (fun f => Z.eqb (Fragment.id f) id) fragments.

(** The z-index the markup gives card [id]. *)
Definition rendered_zIndex (a : App) (id : Z) : option Z :=
  option_map (fun f => CSS.zIndex (card_style a f)) (fragment_by_id id).


(** *** Well-formed JSON values *)

(** A character that is written into a string as it is. *)
Definition plain_char (c : ascii) : bool :=
  (negb (Ascii.eqb c JSON.DQ) && negb (Ascii.eqb c JSON.BACKSLASH)
   && negb (JSON.is_control c))%bool.

Fixpoint plain (s : string) : bool :=
  match s with
  | EmptyString => true
  | String c s' => (plain_char c && plain s')%bool
  end.

(** What may follow a value in a text: the end, a comma, or a closing
    bracket. *)
Definition value_end (rest : string) : bool :=
  match rest with
  | EmptyString => true
  | String c _ => existsb (Ascii.eqb c) [","; "}"; "]"]%char
  end.

(** What may follow the digits of a number. *)
Definition number_end (rest : string) : bool :=
  match rest with
  | EmptyString => true
  | String c _ =>
      (negb (JSON.is_digit c) && negb (JSON.starts_fraction rest))%bool
  end.

(** The characters a printed value can start with. *)
Definition value_head (c : ascii) : bool :=
  (JSON.is_digit c ||
   existsb (Ascii.eqb c) ["-"; "n"; "t"; "f"; JSON.DQ; "["; "{"]%char)%bool.

(** [wf d v]: the strings of [v] are plain and [v] nests less than [d]
    deep. *)
Fixpoint wf (d : nat) (v : JSON.value) : Prop :=
  match d with
  | O => False
  | S d' =>
      match v with
      | JSON.JNull | JSON.JBool _ | JSON.JNum _ => True
      | JSON.JStr s => plain s = true
      | JSON.JArr l => Forall (wf d') l
      | JSON.JObj l => Forall (fun kv => plain (fst kv) = true /\ wf d' (snd kv)) l
      end
  end.


(** ** Vocabulary for further statements *)

(** *** Video identifiers *)

(** A character of the class [[^&\n?#]]. *)
Definition id_char (c : ascii) : bool := none_of ["&"%char; LF; "?"%char; "#"%char] c.

Fixpoint all_chars (p : ascii -> bool) (s : string) : bool :=
  match s with
  | EmptyString => true
  | String c s' => (p c && all_chars p s')%bool
  end.

(** A non-empty string of characters of the class. *)
Definition valid_id (s : string) : bool :=
  match s with
  | EmptyString => false
  | String _ _ => all_chars id_char s
  end.

(** The text after an identifier: nothing, or a character outside the
    class. *)
Definition id_end (tail : string) : bool :=
  match tail with
  | EmptyString => true
  | String c _ => negb (id_char c)
  end.

(** No letter [y] (the letter all four shapes start with). *)
Definition no_y (pre : string) : bool :=
  all_chars (fun c => negb (Ascii.eqb c "y")) pre.

(** The three shapes of the first pattern. *)
Definition first_pattern_shapes : list string :=
  [ "youtube.com/watch?v="; "youtu.be/"; "youtube.com/embed/" ].

(** The longest run of class characters at the start of [s], and the rest. *)
Fixpoint take_run (s : string) : string :=
  match s with
  | String c s' => if id_char c then String c (take_run s') else EmptyString
  | EmptyString => EmptyString
  end.

Fixpoint drop_run (s : string) : string :=
  match s with
  | String c s' => if id_char c then drop_run s' else s
  | EmptyString => EmptyString
  end.


(** The two patterns of [getYouTubeId] by name. *)
Definition first_pattern : regex :=
  Seq (NonCapture (Alt (Lit "youtube.com/watch?v=")
                  (Alt (Lit "youtu.be/") (Lit "youtube.com/embed/"))))
      (Capture id_chars).

Definition shorts_pattern : regex :=
  Seq (Lit "youtube.com/shorts/") (Capture id_chars).


(** The capturing group right after the literal [lit] at the start of [s]. *)
Definition capture_after (lit s : string) : option (option string) :=
  match strip_prefix lit s with
  | Some r => re_match (Capture id_chars) r None (fun _ cap => Some cap)
  | None => None
  end.


(** *** Stored text that cannot be read *)

(** A text that is empty up to white space, or whose first token cannot
    start a JSON value: [JSON.parse] throws on it. *)
Definition bad_start (text : string) : bool :=
  match JSON.skip_ws text with
  | EmptyString => true
  | String c _ => negb (value_head c)
  end.

(** A storage area from which no layout can be read: access is refused,
    there is no item under the key, the item is the empty string, or its
    text is not JSON from the first token on. *)
Definition unreadable (ls : Storage.t) : Prop :=
  Storage.enabled ls = false \/
  Storage.items ls !! KEY = None \/
  Storage.items ls !! KEY = Some EmptyString \/
  exists text, Storage.items ls !! KEY = Some text /\ bad_start text = true.

(** The style of a card that rests at its static anchor. *)
Definition static_style (item : Fragment.t) : CSS.t :=
  CSS.mk None (Some (CSS.Str (Fragment.top item)))
         (option_map CSS.Str (Fragment.left item))
         (option_map CSS.Str (Fragment.right item))
         [CSS.rotate (Fragment.rotate item)]
         (Fragment.z item)
         (Fragment.width item)
         None None (Fragment.fontSize item).

(** The world with listener [cb] subscribed, and with the function that
    [subscribe(cb)] returned called. *)
Definition with_listener (cb : nat) (w : World) : World :=
  mkWorld (subscribe cb (store w)) (localStorage w) (calls w).

Definition without_listener (cb : nat) (w : World) : World :=
  mkWorld (unsubscribe cb (store w)) (localStorage w) (calls w).


(** *** Gestures *)

(** The point at which a gesture that began at [e] on a card with bounding
    rectangle [rect] leaves the card: the corner of the rectangle moved by
    what the pointer moved up to the last move event. *)
Definition drop_point (e : PointerEvent) (rect : DOMRect.t)
    (moves : list PointerEvent) : Position.t :=
  match last moves with
  | Some m => Position.mk (DOMRect.left rect + (clientX m - clientX e))
                          (DOMRect.top rect + (clientY m - clientY e))
  | None => rect_origin rect
  end.

(** The records the press and the release of a gesture write. *)
Definition press_record (id : Z) (a : App) : LayoutData :=
  mkLayoutData (app_positions a)
               (<[id := maxZRef (ui a) + 1]> (app_zIndexes a))
               (maxZRef (ui a) + 1).

Definition release_record (id : Z) (p : Position.t) (a : App) : LayoutData :=
  mkLayoutData (<[id := p]> (app_positions a))
               (<[id := maxZRef (ui a) + 2]> (app_zIndexes a))
               (maxZRef (ui a) + 2).

(** The style of a card that rests at a position override [p] with
    z-index [z]. *)
Definition resting_style (item : Fragment.t) (p : Position.t) (z : Z) : CSS.t :=
  CSS.mk (Some "fixed") (Some (CSS.Px (Position.y p)))
         (Some (CSS.Px (Position.x p))) (Some (CSS.Str "auto"))
         [CSS.rotate (Fragment.rotate item)] z (Fragment.width item)
         None None (Fragment.fontSize item).


(** *** Focus and drag cells in the states the page reaches *)

(** What holds of the focus phase, the scheduler and the drag cells in
    every state the page reaches (see [reachable_inv]): a phase in
    transition has its callback queued, no timeout is due later than 450 ms
    from now, the idle phase has no origin, and the three drag cells are
    set and cleared together. *)
Record focus_inv (a : App) : Prop := mk_focus_inv {
  inv_opening : focusPhase (ui a) = opening -> frames (sched a) <> [];
  inv_closing : focusPhase (ui a) = closing -> timeouts (sched a) <> [];
  inv_due : Forall (fun t => (fst t <= clock (sched a) + 450)%nat)
                   (timeouts (sched a));
  inv_idle : focusPhase (ui a) = idle -> focusOrigin (ui a) = None;
  inv_drag : match draggingId (ui a) with
             | Some _ => is_Some (dragPos (ui a)) /\
                         is_Some (dragStartRef (ui a))
             | None => dragPos (ui a) = None /\ dragStartRef (ui a) = None
             end
}.

(** The events of the focus controller and those of the drag controller. *)
Definition is_focus_event (ev : Event) : bool :=
  match ev with
  | Click _ _ | OverlayClick | AnimationFrame | Elapse _ => true
  | PointerDown _ _ _ | PointerMove _ | PointerEnd => false
  end.

Definition is_drag_event (ev : Event) : bool := negb (is_focus_event ev).

(** The drag cells and the counter of the component. *)
Definition drag_of (c : Component)
    : option Z * option Position.t * option DragStart.t * Z :=
  (draggingId c, dragPos c, dragStartRef c, maxZRef c).

(** The style of a card at rest without a position override, at z-index
    [z]. *)
Definition anchored_style (item : Fragment.t) (z : Z) : CSS.t :=
  CSS.mk None (Some (CSS.Str (Fragment.top item)))
         (option_map CSS.Str (Fragment.left item))
         (option_map CSS.Str (Fragment.right item))
         [CSS.rotate (Fragment.rotate item)] z (Fragment.width item)
         None None (Fragment.fontSize item).

(** A click on card [A], the next frame, a click on the overlay, and the
    450 ms of the closing transition. *)
Definition focus_round_trip (A : Z) (rect : DOMRect.t) : list Event :=
  [Click A rect; AnimationFrame; OverlayClick; Elapse 450].


(** ** The content of a card *)

(** JavaScript truthiness of a [string | null | undefined]. *)
Definition truthy (s : option string) : bool :=
  match s with
  | Some (String _ _) => true
  | _ => false
  end.

(** [`https://img.youtube.com/vi/${videoId}/hqdefault.jpg`] *)
Definition thumbnail_url (videoId : string) : string :=
  ("https://img.youtube.com/vi/" ++ videoId ++ "/hqdefault.jpg")%string.

(** [`https://www.youtube.com/embed/${videoId}?autoplay=1&rel=0`] *)
Definition embed_url (videoId : string) : string :=
  ("https://www.youtube.com/embed/" ++ videoId ++ "?autoplay=1&rel=0")%string.

(** What [renderMediaCard] returns: the embedded player (an [iframe] with
    its [src]) or the placeholder with the play button, whose background
    image is the thumbnail when there is one; both show title and author. *)
Inductive MediaView : Type :=
| MediaEmbed (src : string) (title author : option string)
| MediaPlaceholder (backgroundImage : option string)
                   (title author : option string).

Definition renderMediaCard (item : Fragment.t) (isFocused isFullyOpen : bool)
    : MediaView :=
  let videoId :=
    match Fragment.url item with
    | Some (String _ _ as u) => getYouTubeId u
    | _ => None
    end in
  let thumbnailUrl :=
    match videoId with
    | Some (String _ _ as v) => Some (thumbnail_url v)
    | _ => None
    end in
  let placeholder :=
    MediaPlaceholder thumbnailUrl (Fragment.title item) (Fragment.author item) in
  if (isFocused && isFullyOpen)%bool then
    match videoId with
    | Some (String _ _ as v) =>
        MediaEmbed (embed_url v) (Fragment.title item) (Fragment.author item)
    | _ => placeholder
    end
  else placeholder.

(** The children of a card's element: the media card, or the text with the
    attribution when the card has an author. *)
Inductive CardContent : Type :=
| MediaCard (view : MediaView)
| TextCard (text : option string) (attribution : option string).

Definition card_content (a : App) (item : Fragment.t) : CardContent :=
  let isFocused := bool_decide (focusedId (ui a) = Some (Fragment.id item)) in
  let isFullyOpen :=
    (isFocused && bool_decide (focusPhase (ui a) = open))%bool in
  if bool_decide (Fragment.type item = media)
  then MediaCard (renderMediaCard item isFocused isFullyOpen)
  else TextCard (Fragment.text item)
                (if truthy (Fragment.author item) then Fragment.author item
                 else None).


(** *** Pages that start in step with storage *)

(** The storage area holds the text [JSON.stringify] makes of [d]. *)
Definition holds_record (ls : Storage.t) (d : LayoutData) : Prop :=
  Storage.enabled ls = true /\
  Storage.items ls !! KEY = Some (JSON_stringify d).

(** A page whose counter starts at the stored [maxZ]: one that finds no
    layout it can read, or one mounted without hydration over the text of a
    record that satisfies the invariant. *)
Inductive starts_in_sync (hydrating : bool) (ls : Storage.t) : Prop :=
| sync_unreadable : unreadable ls -> starts_in_sync hydrating ls
| sync_client (d : LayoutData) :
    hydrating = false -> holds_record ls d -> layout_invariant d ->
    starts_in_sync hydrating ls.


(** *** The window listeners as closures

    The effect that attaches the [window] listeners runs after a render is
    committed, with [draggingId], [dragPos], [positions], [zIndexes] and
    [persistLayout] as dependencies.  The [handleEnd] it attaches holds the
    values of that render until the effect runs again; [handleMove] reads
    only refs.  A mouse-move sets [dragPos] and so asks for a render, but a
    release can arrive before that render is committed. *)
Record Listener : Type := mkListener {
  seen_draggingId : option Z;
  seen_dragPos : option Position.t;
  seen_positions : gmap Z Position.t;
  seen_zIndexes : gmap Z Z
}.

(** The effect body: [if (draggingId === null) return;] and then the
    listeners over the values of the render. *)
Definition capture (a : App) : option Listener :=
  match draggingId (ui a) with
  | Some _ =>
      Some (mkListener (draggingId (ui a)) (dragPos (ui a))
                       (app_positions a) (app_zIndexes a))
  | None => None
  end.

(** [handleEnd] as the closure [l] runs it: the values of the render it
    was made in, the ref [maxZRef] as it is now. *)
Definition handleEnd_of (l : Listener) (a : App) : App :=
  let a1 :=
    match seen_draggingId l, seen_dragPos l with
    | Some did, Some dp =>
        let newMaxZ := maxZRef (ui a) + 1 in
        let newPositions := <[did := dp]> (seen_positions l) in
        let newZIndexes := <[did := newMaxZ]> (seen_zIndexes l) in
        persistLayout newPositions newZIndexes newMaxZ a
    | _, _ => a
    end in
  on_ui (fun c => set_dragStartRef None (setDragPos None (setDraggingId None c)))
        a1.

(** The page with the listeners that are attached to [window]. *)
Record Page : Type := mkPage {
  app : App;
  attached : option Listener
}.

(** A render is committed and its effect runs. *)
Definition page_commit (p : Page) : Page := mkPage (app p) (capture (app p)).

Definition page_move (e : PointerEvent) (p : Page) : Page :=
  match attached p with
  | Some _ => mkPage (handleMove e (app p)) (attached p)
  | None => p
  end.

Definition page_end (p : Page) : Page :=
  match attached p with
  | Some l => mkPage (handleEnd_of l (app p)) (attached p)
  | None => p
  end.

(** What happens between press and release: the pointer moves, or a
    render is committed. *)
Inductive Between : Type :=
| Moved (e : PointerEvent)
| Rendered.

Definition between_step (p : Page) (ev : Between) : Page :=
  match ev with
  | Moved e => page_move e p
  | Rendered => page_commit p
  end.

Fixpoint moves_of (evs : list Between) : list PointerEvent :=
  match evs with
  | [] => []
  | Moved e :: evs' => e :: moves_of evs'
  | Rendered :: evs' => moves_of evs'
  end.

(** A gesture on card [id]: the press and the render it causes (a
    mouse-down is handled synchronously); moves and renders in any order;
    a last render; the moves [late] that no render follows; the release. *)
Definition gesture_rendered (id : Z) (e : PointerEvent) (rect : DOMRect.t)
    (evs : list Between) (late : list PointerEvent) (a : App) : Page :=
  let p0 := page_commit (mkPage (handlePointerDown id e rect a) None) in
  let p1 := page_commit (fold_left between_step evs p0) in
  let p2 := fold_left (fun p m => page_move m p) late p1 in
  page_end p2.


(** ** Numbers in JSON texts

    [JSON.stringify] writes a finite number as [Number::toString] does: the
    shortest decimal that reads back as the same double, in positional
    notation when its decimal exponent is between -6 and 21 and in
    exponent notation otherwise.  [JSON.parse] reads a number token as the
    double nearest to its decimal value. *)

Module Number.
Local Open Scope string_scope.
Local Open Scope Z_scope.

Definition same (x y : Double.t) : bool :=
  match x, y with
  | S754_zero s1, S754_zero s2 => Bool.eqb s1 s2
  | S754_infinity s1, S754_infinity s2 => Bool.eqb s1 s2
  | S754_nan, S754_nan => true
  | S754_finite s1 m1 e1, S754_finite s2 m2 e2 =>
      (Bool.eqb s1 s2 && Pos.eqb m1 m2 && Z.eqb e1 e2)%bool
  | _, _ => false
  end.

(** The double nearest to [mant * 10 ^ exp10] (ties to even), negated when
    [neg]. *)
Definition of_decimal (neg : bool) (mant : Z) (exp10 : Z) : Double.t :=
  match mant with
  | Zpos m =>
      match exp10 with
      | Zneg k =>
          SFdiv Double.prec Double.emax (S754_finite neg m 0)
                (S754_finite false (Pos.pow 10 k) 0)
      | _ =>
          binary_normalize Double.prec Double.emax
            (if neg then - (mant * 10 ^ exp10) else mant * 10 ^ exp10) 0 false
      end
  | _ => S754_zero neg
  end.

Definition digits_of (n : Z) : string := NilZero.string_of_uint (N.to_uint (Z.to_N n)).

(** The [n] with [10 ^ (n - 1) <= num / den < 10 ^ n], for a positive
    fraction. *)
Fixpoint small_exponent (fuel : nat) (num den : Z) (j : Z) : Z :=
  match fuel with
  | O => j
  | S fuel' =>
      if (den <=? num * 10 ^ j) then 1 - j
      else small_exponent fuel' num den (j + 1)
  end.

Definition decimal_exponent (num den : Z) : Z :=
  if (den <=? num)
  then Z.of_nat (String.length (digits_of (num / den)))
  else small_exponent 400 num den 1.

(** [floor (num / den * 10 ^ sc)] and whether the fraction is nearer to
    it than to the next integer ([Lt]), as near ([Eq]) or nearer to the
    next ([Gt]). *)
Definition scaled (num den sc : Z) : Z * comparison :=
  let '(n', d') :=
    match sc with
    | Zneg k => (num, den * 10 ^ Zpos k)
    | _ => (num * 10 ^ sc, den)
    end in
  (n' / d', (2 * (n' mod d') ?= d')).

(** The shortest decimal that reads back as the positive double
    [m * 2 ^ e]: its digits [s] and the exponent [n] with value
    [s * 10 ^ (n - k)], [k] the number of digits of [s]. *)
Fixpoint shortest (fuel : nat) (k : Z) (x : Double.t) (num den n : Z)
    : option (Z * Z) :=
  match fuel with
  | O => None
  | S fuel' =>
      let '(lo, side) := scaled num den (k - n) in
      let hi := lo + 1 in
      let ok_lo := same (of_decimal false lo (n - k)) x in
      let ok_hi := same (of_decimal false hi (n - k)) x in
      let pick_lo :=
        match side with
        | Lt => true
        | Gt => false
        | Eq => Z.even lo
        end in
      if (ok_lo && ok_hi)%bool then Some (if pick_lo then lo else hi, k)
      else if ok_lo then Some (lo, k)
      else if ok_hi then Some (hi, k)
      else shortest fuel' (k + 1) x num den n
  end.

Fixpoint strip_zeros_rev (s : list ascii) : list ascii :=
  match s with
  | "0"%char :: s' => strip_zeros_rev s'
  | _ => s
  end.

Definition strip_trailing_zeros (s : string) : string :=
  string_of_list_ascii (rev (strip_zeros_rev (rev (list_ascii_of_string s)))).

Fixpoint zeros (n : nat) : string :=
  match n with
  | O => ""
  | S n' => String "0" (zeros n')
  end.

(** The digits [ds] with the decimal exponent [n], as [Number::toString]
    writes them. *)
Definition format (ds : string) (n : Z) : string :=
  let k := Z.of_nat (String.length ds) in
  if ((k <=? n) && (n <=? 21))%bool then ds ++ zeros (Z.to_nat (n - k))
  else if ((0 <? n) && (n <=? 21))%bool then
    substring 0 (Z.to_nat n) ds ++ "." ++
    substring (Z.to_nat n) (Z.to_nat (k - n)) ds
  else if ((-6 <? n) && (n <=? 0))%bool then
    "0." ++ zeros (Z.to_nat (- n)) ++ ds
  else
    let e := n - 1 in
    let sign := if e <? 0 then "-" else "+" in
    let mantissa :=
      match ds with
      | String d (String _ _ as r) => String d ("." ++ r)
      | _ => ds
      end in
    mantissa ++ "e" ++ sign ++ digits_of (Z.abs e).

Definition positive_toString (m : positive) (e : Z) : string :=
  let '(num, den) :=
    match e with
    | Zneg k => (Zpos m, 2 ^ Zpos k)
    | _ => (Zpos m * 2 ^ e, 1)
    end in
  let n := decimal_exponent num den in
  match shortest 17 1 (S754_finite false m e) num den n with
  | Some (s, k) =>
      let ds := digits_of s in
      format (strip_trailing_zeros ds)
             (n + (Z.of_nat (String.length ds) - k))
  | None => "NaN"
  end.

(** [Number::toString(x)] *)
Definition toString (x : Double.t) : string :=
  match x with
  | S754_zero _ => "0"
  | S754_infinity false => "Infinity"
  | S754_infinity true => "-Infinity"
  | S754_nan => "NaN"
  | S754_finite false m e => positive_toString m e
  | S754_finite true m e => "-" ++ positive_toString m e
  end.

(** The value of a JSON number token: an optional minus sign, the integer
    part (a single 0, or digits that do not start with 0), an optional
    fraction (a point and digits) and an optional exponent ([e] or [E], an
    optional sign, digits). *)
Definition Z_of_digits (ds : string) : option Z :=
  match NilEmpty.uint_of_string ds with
  | Some u => Some (Z.of_uint u)
  | None => None
  end.

Definition read_exponent (s : string) : option Z :=
  match s with
  | EmptyString => Some 0
  | String c r =>
      if (Ascii.eqb c "e" || Ascii.eqb c "E")%bool then
        let '(neg, r') :=
          match r with
          | String c' r' =>
              if Ascii.eqb c' "-" then (true, r')
              else if Ascii.eqb c' "+" then (false, r')
              else (false, r)
          | EmptyString => (false, r)
          end in
        match JSON.span_digits r' with
        | (String _ _ as ds, EmptyString) =>
            match Z_of_digits ds with
            | Some n => Some (if neg then - n else n)
            | None => None
            end
        | _ => None
        end
      else None
  end.

(** The fraction at the start of [s], when there is one: its digits and
    what follows them. *)
Definition read_fraction (s : string) : option (string * string) :=
  match s with
  | String c r =>
      if Ascii.eqb c "." then
        match JSON.span_digits r with
        | (String _ _ as fd, r') => Some (fd, r')
        | _ => None
        end
      else Some (EmptyString, s)
  | EmptyString => Some (EmptyString, s)
  end.

Definition of_unsigned (neg : bool) (s : string) : option Double.t :=
  match JSON.span_digits s with
  | (String _ _ as ip, s2) =>
      if JSON.leading_zero ip then None
      else
        match read_fraction s2 with
        | Some (fd, s3) =>
            match Z_of_digits (ip ++ fd), read_exponent s3 with
            | Some mant, Some ex =>
                Some (of_decimal neg mant (ex - Z.of_nat (String.length fd)))
            | _, _ => None
            end
        | None => None
        end
  | _ => None
  end.

Definition of_token (tok : string) : option Double.t :=
  match tok with
  | String c r =>
      if Ascii.eqb c "-" then of_unsigned true r else of_unsigned false tok
  | EmptyString => None
  end.

(** A number [JSON.stringify] writes as [null]: [NaN] and the infinities. *)
Definition is_finite (x : Double.t) : bool :=
  match x with
  | S754_zero _ | S754_finite _ _ _ => true
  | S754_infinity _ | S754_nan => false
  end.

(** The characters of number tokens. *)
Definition number_char (c : ascii) : bool :=
  (JSON.is_digit c || existsb (Ascii.eqb c) ["-"; "+"; "."; "e"; "E"]%char)%bool.

Fixpoint all_number_chars (s : string) : bool :=
  match s with
  | EmptyString => true
  | String c s' => (number_char c && all_number_chars s')%bool
  end.

(** A number that survives being written and read: its text is a number
    token whose value is the number itself.  (For binary64 these are the
    finite numbers other than the negative zero, which is written [0].) *)
Definition round_trips (x : Double.t) : bool :=
  (is_finite x && all_number_chars (toString x) &&
   match of_token (toString x) with
   | Some y => same y x
   | None => false
   end)%bool.
End Number.

(** ** JSON with numbers as doubles

    The values [JSON.parse] makes and [JSON.stringify] takes, with numbers
    as they are in JavaScript.  Strings, white space and the grammar of
    objects and arrays are those of [JSON] above; a number token is read
    with its fraction and exponent.  ([\uXXXX] escapes stay outside the
    fragment.) *)

Module JSON64.
Local Open Scope string_scope.

#[warnings="-register-all"]
Inductive value : Type :=
| JNull
| JBool (b : bool)
| JNum (x : Double.t)
| JStr (s : string)
| JArr (l : list value)
| JObj (l : list (string * value)).

(** A number as [JSON.stringify] writes it: [null] when it is not
    finite. *)
Definition number_text (x : Double.t) : string :=
  if Number.is_finite x then Number.toString x else "null".

Fixpoint stringify (v : value) : string :=
  match v with
  | JNull => "null"
  | JBool true => "true"
  | JBool false => "false"
  | JNum x => number_text x
  | JStr s => JSON.quote s
  | JArr l => "[" ++ JSON.join (List.map stringify l) ++ "]"
  | JObj l =>
      "{" ++ JSON.join (List.map (fun kv =>
                JSON.quote (fst kv) ++ ":" ++ stringify (snd kv)) l)
          ++ "}"
  end.

(** The longest run of number characters at the start of [s]. *)
Fixpoint span_number (s : string) : string * string :=
  match s with
  | String c s' =>
      if Number.number_char c
      then let (tok, r) := span_number s' in (String c tok, r)
      else (EmptyString, s)
  | EmptyString => (EmptyString, EmptyString)
  end.

(** A number token at the start of [s].  No number character may follow a
    number, so the token is the whole run. *)
Definition parse_number (s : string) : option (Double.t * string) :=
  let (tok, rest) := span_number s in
  match Number.of_token tok with
  | Some x => Some (x, rest)
  | None => None
  end.

Section Loops.
(** The two loops of the grammar, over the parser [pv] of one value.
    [n] bounds the number of items still to read. *)
Variable pv : string -> option (value * string).

(** After [{] and a first non-[}] token: [string : value] members
    separated by commas, closed by [}]. *)
Fixpoint parse_members (n : nat) (s : string)
    : option (list (string * value) * string) :=
  match n with
  | O => None
  | S n' =>
      match JSON.skip_ws s with
      | String c r =>
          if Ascii.eqb c JSON.DQ then
            match JSON.parse_string_body r with
            | Some (k, r1) =>
                match JSON.skip_ws r1 with
                | String c1 r2 =>
                    if Ascii.eqb c1 ":" then
                      match pv (JSON.skip_ws r2) with
                      | Some (v, r3) =>
                          match JSON.skip_ws r3 with
                          | String c3 r4 =>
                              if Ascii.eqb c3 "}" then Some ([(k, v)], r4)
                              else if Ascii.eqb c3 "," then
                                match parse_members n' r4 with
                                | Some (l, r5) => Some ((k, v) :: l, r5)
                                | None => None
                                end
                              else None
                          | EmptyString => None
                          end
                      | None => None
                      end
                    else None
                | EmptyString => None
                end
            | None => None
            end
          else None
      | EmptyString => None
      end
  end.

(** After [[] and a first non-[]] token. *)
Fixpoint parse_elements (n : nat) (s : string)
    : option (list value * string) :=
  match n with
  | O => None
  | S n' =>
      match pv (JSON.skip_ws s) with
      | Some (v, r1) =>
          match JSON.skip_ws r1 with
          | String c r2 =>
              if Ascii.eqb c "]" then Some ([v], r2)
              else if Ascii.eqb c "," then
                match parse_elements n' r2 with
                | Some (l, r3) => Some (v :: l, r3)
                | None => None
                end
              else None
          | EmptyString => None
          end
      | None => None
      end
  end.
End Loops.

(** One value at the start of [s] (no leading white space); [fuel] bounds
    the nesting depth. *)
Fixpoint parse_value (fuel : nat) (s : string) : option (value * string) :=
  match fuel with
  | O => None
  | S fuel' =>
      match s with
      | EmptyString => None
      | String c r =>
          if Ascii.eqb c "{" then
            match JSON.skip_ws r with
            | String c' r' =>
                if Ascii.eqb c' "}" then Some (JObj [], r')
                else
                  match parse_members (parse_value fuel') (String.length r) r with
                  | Some (l, r'') => Some (JObj l, r'')
                  | None => None
                  end
            | EmptyString => None
            end
          else if Ascii.eqb c "[" then
            match JSON.skip_ws r with
            | String c' r' =>
                if Ascii.eqb c' "]" then Some (JArr [], r')
                else
                  match parse_elements (parse_value fuel') (String.length r) r with
                  | Some (l, r'') => Some (JArr l, r'')
                  | None => None
                  end
            | EmptyString => None
            end
          else if Ascii.eqb c JSON.DQ then
            match JSON.parse_string_body r with
            | Some (t, r') => Some (JStr t, r')
            | None => None
            end
          else
            match strip_prefix "null" s, strip_prefix "true" s,
                  strip_prefix "false" s with
            | Some r', _, _ => Some (JNull, r')
            | _, Some r', _ => Some (JBool true, r')
            | _, _, Some r' => Some (JBool false, r')
            | None, None, None =>
                match parse_number s with
                | Some (x, r') => Some (JNum x, r')
                | None => None
                end
            end
      end
  end.

(** [JSON.parse]: one value surrounded by optional white space; [None]
    stands for the [SyntaxError] it throws. *)
Definition parse (s : string) : option value :=
  match parse_value (String.length s) (JSON.skip_ws s) with
  | Some (v, rest) =>
      match JSON.skip_ws rest with
      | EmptyString => Some v
      | String _ _ => None
      end
  | None => None
  end.

End JSON64.

(** ** The layout store with numbers as doubles

    The closure of [layoutStore] once more, now with the values as
    JavaScript has them: [data] is whatever [JSON.parse] returned or
    [save] was given, a record is a value with the members of
    [LayoutData], and every number is a double.  (The component above
    works with integer pixels; this is the store it writes through.) *)

Module JS.

Module Position.
Record t : Type := mk { x : Double.t; y : Double.t }.
End Position.

Record LayoutData : Type := mkLayoutData {
  positions : gmap Z Position.t;
  zIndexes : gmap Z Double.t;
  maxZ : Double.t
}.

(** A record as the value [save] is given. *)
Definition Position_value (p : Position.t) : JSON64.value :=
  JSON64.JObj [("x"%string, JSON64.JNum (Position.x p));
               ("y"%string, JSON64.JNum (Position.y p))].

Definition Record_value {V : Type} (f : V -> JSON64.value) (m : gmap Z V)
    : JSON64.value :=
  JSON64.JObj (List.map (fun kv => (JSON.string_of_Z (fst kv), f (snd kv)))
                        (entries m)).

Definition LayoutData_value (d : LayoutData) : JSON64.value :=
  JSON64.JObj
    [ ("positions"%string, Record_value Position_value (positions d));
      ("zIndexes"%string, Record_value JSON64.JNum (zIndexes d));
      ("maxZ"%string, JSON64.JNum (maxZ d)) ].

(** Every number of the record survives being written and read. *)
Definition numbers_ok (d : LayoutData) : Prop :=
  (forall k p, positions d !! k = Some p ->
     Number.round_trips (Position.x p) = true /\
     Number.round_trips (Position.y p) = true) /\
  (forall k z, zIndexes d !! k = Some z -> Number.round_trips z = true) /\
  Number.round_trips (maxZ d) = true.

Module Snapshot.
Record t : Type := mk { data : JSON64.value; isLoaded : bool }.
End Snapshot.

Record LayoutStore : Type := mkLayoutStore {
  listeners : gset nat;
  data : JSON64.value;
  isLoaded : bool;
  snapshot : Snapshot.t
}.

Record World : Type := mkWorld {
  store : LayoutStore;
  localStorage : Storage.t;
  calls : list (nat * Snapshot.t)
}.

(** [JSON.parse(localStorage.getItem("library-layout") || "null")] inside
    [try { ... } catch {}]: the value [data] holds afterwards ([null] when
    anything throws). *)
Definition load (ls : Storage.t) : JSON64.value :=
  match Storage.getItem KEY ls with
  | Normal item =>
      let text :=
        match item with
        | Some EmptyString | None => "null"%string
        | Some s => s
        end in
      match JSON64.parse text with
      | Some v => v
      | None => JSON64.JNull
      end
  | Thrown => JSON64.JNull
  end.

Definition layoutStore_init (has_window : bool) (ls : Storage.t) : LayoutStore :=
  let data0 := JSON64.JNull in
  let isLoaded0 := false in
  let snapshot0 := Snapshot.mk data0 isLoaded0 in
  if has_window then
    let data1 := load ls in
    let isLoaded1 := true in
    mkLayoutStore ∅ data1 isLoaded1 (Snapshot.mk data1 isLoaded1)
  else mkLayoutStore ∅ data0 isLoaded0 snapshot0.

Definition subscribe (cb : nat) (st : LayoutStore) : LayoutStore :=
  mkLayoutStore ({[cb]} ∪ listeners st) (data st) (isLoaded st) (snapshot st).

Definition getSnapshot (st : LayoutStore) : Snapshot.t := snapshot st.

Definition localStorage_setItem (key value : string) : Eff World unit :=
  fun w =>
    match Storage.setItem key value (localStorage w) with
    | Normal ls' => (mkWorld (store w) ls' (calls w), Normal tt)
    | Thrown => (w, Thrown)
    end.

Definition assign_data (newData : JSON64.value) : Eff World unit :=
  modify (fun w =>
    let st := store w in
    mkWorld (mkLayoutStore (listeners st) newData (isLoaded st)
                           (Snapshot.mk newData (isLoaded st)))
            (localStorage w) (calls w)).

Definition call_listener (cb : nat) : Eff World unit :=
  modify (fun w =>
    mkWorld (store w) (localStorage w)
            (calls w ++ [(cb, getSnapshot (store w))])).

Definition save (newData : JSON64.value) : Eff World unit :=
  try_catch
    (localStorage_setItem KEY (JSON64.stringify newData) ;;;
     assign_data newData ;;;
     (fun w => for_each (elements (listeners (store w))) call_listener w)).

Definition write_succeeds (newData : JSON64.value) (w : World) : bool :=
  Storage.fits KEY (JSON64.stringify newData) (localStorage w).

(** A sequence of calls of [save]. *)
Definition saves (vs : list JSON64.value) (w : World) : World :=
  fold_left (fun w' v => fst (save v w')) vs w.
End JS.

(** Well-formed values: plain strings, numbers that survive being written
    and read, nesting less than [d]. *)
Fixpoint wf64 (d : nat) (v : JSON64.value) : Prop :=
  match d with
  | O => False
  | S d' =>
      match v with
      | JSON64.JNull | JSON64.JBool _ => True
      | JSON64.JNum x => Number.round_trips x = true
      | JSON64.JStr s => plain s = true
      | JSON64.JArr l => Forall (wf64 d') l
      | JSON64.JObj l =>
          Forall (fun kv => plain (fst kv) = true /\ wf64 d' (snd kv)) l
      end
  end.

(** * Properties *)

(** ** Media identifier extraction *)

Section YouTubeId.

Lemma includes_false_here (s needle : string) :
  includes s needle = false -> strip_prefix needle s = None.
Proof.
  destruct s; simpl; destruct (strip_prefix needle _); congruence.
Qed.

Lemma includes_false_later (c : ascii) (s needle : string) :
  includes (String c s) needle = false -> includes s needle = false.
Proof.
  simpl. destruct (strip_prefix needle (String c s)); congruence.
Qed.

Lemma matches_no_known_shape_later (c : ascii) (url : string) :
  matches_no_known_shape (String c url) -> matches_no_known_shape url.
Proof.
  intros H shape Hin. eapply includes_false_later, H, Hin.
Qed.

(** A literal that does not occur makes a pattern that starts with it fail,
    whatever follows. *)
Lemma re_match_Lit_absent {A} (l s : string) (cap : option string)
    (k : string -> option string -> option A) :
  includes s l = false -> re_match (Lit l) s cap k = None.
Proof.
  intros H. simpl. now rewrite (includes_false_here _ _ H).
Qed.

Lemma re_exec_no_shape (pattern : regex) (url : string) :
  In pattern patterns -> matches_no_known_shape url ->
  re_exec pattern url = None.
Proof.
  intros Hp. induction url as [|c url IH]; intros Hno.
  - destruct Hp as [<-|[<-|[]]]; reflexivity.
  - assert (Hhere : re_match pattern (String c url) None
                      (fun _ cap => Some cap) = None).
    { destruct Hp as [<-|[<-|[]]]; cbn [re_match];
        rewrite ?(includes_false_here _ "youtube.com/watch?v="),
                ?(includes_false_here _ "youtu.be/"),
                ?(includes_false_here _ "youtube.com/embed/"),
                ?(includes_false_here _ "youtube.com/shorts/");
        try reflexivity; apply Hno; simpl; tauto. }
    cbn [re_exec]. rewrite Hhere.
    apply IH, (matches_no_known_shape_later c), Hno.
Qed.

Lemma getYouTubeId_no_shape (url : string) :
  matches_no_known_shape url -> getYouTubeId url = None.
Proof.
  intros Hno. unfold getYouTubeId, patterns. cbn [first_match].
  rewrite !re_exec_no_shape; auto; unfold patterns; simpl; tauto.
Qed.

End YouTubeId.

Example getYouTubeId_embed :
  getYouTubeId "https://www.youtube.com/embed/xyz?rel=0" = Some "xyz".
Proof. reflexivity. Qed.

Example getYouTubeId_shorts :
  getYouTubeId "https://youtube.com/shorts/Q1w2?feature=share" = Some "Q1w2".
Proof. reflexivity. Qed.

Example getYouTubeId_empty_id :
  getYouTubeId "https://youtu.be/?t=3" = None.
Proof. reflexivity. Qed.

(** C9.  [getYouTubeId] gives ["EUo0ncJX19A"] for the watch URL of the
    dataset and ["abc123"] for the short link [https://youtu.be/abc123]; for
    a URL in which none of the known shapes ([watch?v=], the [youtu.be]
    short link, [/embed/], [/shorts/]) occurs it gives no identifier. *)
Theorem getYouTubeId_spec :
  getYouTubeId "https://www.youtube.com/watch?v=EUo0ncJX19A" = Some "EUo0ncJX19A" /\
  getYouTubeId "https://youtu.be/abc123" = Some "abc123" /\
  (forall url, matches_no_known_shape url -> getYouTubeId url = None).
Proof.
  split; [reflexivity|]. split; [reflexivity|].
  exact getYouTubeId_no_shape.
Qed.

Lemma getYouTubeId_spec_witness :
  matches_no_known_shape "https://example.com/watch/video?id=7" /\
  getYouTubeId "https://example.com/watch/video?id=7" = None.
Proof.
  assert (H : matches_no_known_shape "https://example.com/watch/video?id=7").
  { intros shape Hin. simpl in Hin.
    destruct Hin as [<-|[<-|[<-|[<-|[]]]]]; reflexivity. }
  split; [exact H|].
  exact (proj2 (proj2 getYouTubeId_spec) _ H).
Defined.

(** ** The layout store *)

Section Store.

Lemma try_catch_Normal {S : Type} (body : Eff S unit) (s : S) :
  snd (try_catch body s) = Normal tt.
Proof.
  unfold try_catch. destruct (body s) as [s' [[]|]]; reflexivity.
Qed.

Lemma save_Normal (d : LayoutData) (w : World) : snd (save d w) = Normal tt.
Proof. apply try_catch_Normal. Qed.

Lemma for_each_call_listener (l : list nat) (w : World) :
  for_each l call_listener w =
  (mkWorld (store w) (localStorage w)
           (calls w ++ List.map (fun cb => (cb, getSnapshot (store w))) l),
   Normal tt).
Proof.
  revert w. induction l as [|cb l IH]; intros w; simpl.
  - unfold ret. rewrite app_nil_r. now destruct w.
  - unfold bind, call_listener, modify. rewrite IH. simpl.
    now rewrite <- app_assoc.
Qed.

Lemma save_world (d : LayoutData) (w : World) :
  fst (save d w) = if write_succeeds d w then saved d w else w.
Proof.
  unfold save, try_catch, bind, localStorage_setItem, Storage.setItem,
    write_succeeds.
  destruct (Storage.fits KEY (JSON_stringify d) (localStorage w)); [|reflexivity].
  unfold assign_data, modify. rewrite for_each_call_listener. reflexivity.
Qed.

Lemma notifications_app (cb : nat) (cs1 cs2 : list (nat * Snapshot.t)) :
  notifications cb (cs1 ++ cs2) = (notifications cb cs1 + notifications cb cs2)%nat.
Proof.
  unfold notifications. now rewrite List.filter_app, length_app.
Qed.

Lemma notifications_absent (cb : nat) (snap : Snapshot.t) (l : list nat) :
  cb ∉ l -> notifications cb (List.map (fun c => (c, snap)) l) = 0%nat.
Proof.
  induction l as [|c l IH]; intros Hni; [reflexivity|].
  apply not_elem_of_cons in Hni as [Hne Hni].
  unfold notifications in *. simpl.
  destruct (Nat.eqb_spec c cb); [congruence|]. now apply IH.
Qed.

Lemma notifications_once (cb : nat) (snap : Snapshot.t) (l : list nat) :
  NoDup l -> cb ∈ l -> notifications cb (List.map (fun c => (c, snap)) l) = 1%nat.
Proof.
  induction 1 as [|c l Hc Hnd IH]; intros Hin; [inversion Hin|].
  unfold notifications in *. simpl.
  destruct (Nat.eqb_spec c cb) as [->|Hne]; simpl.
  - f_equal. now apply notifications_absent.
  - apply IH. apply elem_of_cons in Hin as [?|?]; congruence.
Qed.

End Store.

(** C5.  [save] ends normally on every world: a failing storage write is
    swallowed.  When the write fails the world is left as it was: the data
    in memory, the snapshot, the storage area, and no listener is called.
    When it succeeds the new data is stored and becomes the data and the
    snapshot, and after that every subscribed listener is called exactly
    once (and no one else), each call reading the new snapshot. *)
Theorem save_spec (newData : LayoutData) (w : World) :
  let w' := fst (save newData w) in
  snd (save newData w) = Normal tt /\
  (write_succeeds newData w = false -> w' = w) /\
  (write_succeeds newData w = true ->
     data (store w') = Some newData /\
     getSnapshot (store w') = Snapshot.mk (Some newData) (isLoaded (store w)) /\
     Storage.items (localStorage w') !! KEY = Some (JSON_stringify newData) /\
     listeners (store w') = listeners (store w) /\
     exists new_calls : list (nat * Snapshot.t),
       calls w' = (calls w ++ new_calls)%list /\
       (forall cb, cb ∈ listeners (store w) -> notifications cb new_calls = 1%nat) /\
       (forall cb, cb ∉ listeners (store w) -> notifications cb new_calls = 0%nat) /\
       (forall c, c ∈ new_calls -> snd c = getSnapshot (store w'))).
Proof.
  cbv zeta. rewrite save_world. split; [apply save_Normal|].
  split; intros Hw; rewrite Hw; [reflexivity|].
  unfold saved; simpl. split; [reflexivity|]. split; [reflexivity|].
  split; [apply lookup_insert_eq|]. split; [reflexivity|].
  eexists. split; [reflexivity|]. split; [|split].
  - intros cb Hin. apply notifications_once; [apply NoDup_elements|].
    now apply elem_of_elements.
  - intros cb Hni. apply notifications_absent. now rewrite elem_of_elements.
  - intros c Hc. apply list_elem_of_In, in_map_iff in Hc as (cb & <- & _).
    reflexivity.
Qed.

Lemma save_spec_witness :
  let d := mkLayoutData ∅ (<[19 := 21]> ∅) 21 in
  let full := mkWorld (layoutStore_init true (Storage.mk ∅ true 0))
                      (Storage.mk ∅ true 0) [] in
  let roomy := mkWorld (subscribe 0 (layoutStore_init true (Storage.mk ∅ true 5000)))
                       (Storage.mk ∅ true 5000) [] in
  fst (save d full) = full /\
  data (store (fst (save d roomy))) = Some d.
Proof.
  cbv zeta. split.
  - apply (save_spec _ _). reflexivity.
  - apply (save_spec _ _). reflexivity.
Defined.

(** ** States of the page *)

Section Reachable.

Lemma ui_persistLayout ps zs m a :
  ui (persistLayout ps zs m a) = set_maxZRef m (ui a).
Proof. reflexivity. Qed.

Lemma sched_persistLayout ps zs m a :
  sched (persistLayout ps zs m a) = sched a.
Proof. reflexivity. Qed.

Lemma ui_handlePointerDown id e rect a :
  ui (handlePointerDown id e rect a) =
  mkComponent (focusedId (ui a)) (focusOrigin (ui a)) (focusPhase (ui a))
    (Some id) (Some (rect_origin rect))
    (Some (DragStart.mk (clientX e) (clientY e) (DOMRect.left rect) (DOMRect.top rect)))
    false (maxZRef (ui a) + 1).
Proof. reflexivity. Qed.

Lemma sched_handlePointerDown id e rect a :
  sched (handlePointerDown id e rect a) = sched a.
Proof. reflexivity. Qed.

Lemma ui_handleEnd a :
  ui (handleEnd a) =
  mkComponent (focusedId (ui a)) (focusOrigin (ui a)) (focusPhase (ui a))
    None None None (didDragRef (ui a))
    (match draggingId (ui a), dragPos (ui a) with
     | Some _, Some _ => maxZRef (ui a) + 1
     | _, _ => maxZRef (ui a)
     end).
Proof.
  unfold handleEnd. destruct (draggingId (ui a)), (dragPos (ui a)); reflexivity.
Qed.

Lemma sched_handleEnd a : sched (handleEnd a) = sched a.
Proof.
  unfold handleEnd. destruct (draggingId (ui a)), (dragPos (ui a)); reflexivity.
Qed.

Lemma focus_of_handleMove e a : focus_of (ui (handleMove e a)) = focus_of (ui a).
Proof.
  unfold handleMove. destruct (dragStartRef (ui a)); [|reflexivity].
  destruct (_ || _)%bool; reflexivity.
Qed.

Lemma sched_handleMove e a : sched (handleMove e a) = sched a.
Proof.
  unfold handleMove. destruct (dragStartRef (ui a)); [|reflexivity].
  destruct (_ || _)%bool; reflexivity.
Qed.

Lemma draggingId_handleMove e a :
  draggingId (ui (handleMove e a)) = draggingId (ui a).
Proof.
  unfold handleMove. destruct (dragStartRef (ui a)); [|reflexivity].
  destruct (_ || _)%bool; reflexivity.
Qed.

Lemma run_callbacks_cons cb cbs c :
  run_callbacks (cb :: cbs) c = run_callbacks cbs (run_callback cb c).
Proof. reflexivity. Qed.

Lemma run_callbacks_app cbs1 cbs2 c :
  run_callbacks (cbs1 ++ cbs2) c = run_callbacks cbs2 (run_callbacks cbs1 c).
Proof. apply fold_left_app. Qed.

(** Frame callbacks only ever open. *)
Lemma run_callbacks_FocusOpen cbs c :
  Forall (fun cb => cb = FocusOpen) cbs ->
  focusedId (run_callbacks cbs c) = focusedId c /\
  focusOrigin (run_callbacks cbs c) = focusOrigin c /\
  (focusPhase (run_callbacks cbs c) = focusPhase c \/
   focusPhase (run_callbacks cbs c) = open) /\
  draggingId (run_callbacks cbs c) = draggingId c.
Proof.
  intros H. revert c. induction H as [|cb cbs Hcb _ IH]; intros c; subst.
  - simpl. tauto.
  - rewrite run_callbacks_cons.
    destruct (IH (run_callback FocusOpen c)) as (-> & -> & Hp & ->).
    simpl in *. tauto.
Qed.

(** Timeout callbacks only ever reset. *)
Lemma run_callbacks_FocusReset cbs c :
  Forall (fun cb => cb = FocusReset) cbs ->
  cbs = [] \/ focus_of (run_callbacks cbs c) = (None, None, idle).
Proof.
  intros H. revert c. induction H as [|cb cbs Hcb _ IH]; intros c; subst.
  - now left.
  - right. rewrite run_callbacks_cons.
    destruct (IH (run_callback FocusReset c)) as [-> | ->]; reflexivity.
Qed.

Lemma draggingId_run_callbacks cbs c :
  draggingId (run_callbacks cbs c) = draggingId c.
Proof.
  revert c. induction cbs as [|cb cbs IH]; intros c; [reflexivity|].
  rewrite run_callbacks_cons, IH. now destruct cb.
Qed.

Lemma start_ok hydrating ls : app_ok (start hydrating ls).
Proof.
  split; simpl; try constructor; try discriminate; auto.
Qed.

Ltac by_ok Ha :=
  simpl;
  first [ apply (ok_origin _ Ha) | apply (ok_idle _ Ha) | apply (ok_frames _ Ha)
        | apply (ok_timeouts _ Ha) | apply (ok_dragging _ Ha)
        | discriminate | (intros; discriminate) | (intros; eauto; fail)
        | (apply Forall_app; split;
           [first [apply (ok_frames _ Ha) | apply (ok_timeouts _ Ha)]
           | repeat constructor]) ].

Lemma Forall_filter_timeouts (f : nat * Callback -> bool) (ts : list (nat * Callback)) :
  Forall (fun t => snd t = FocusReset) ts ->
  Forall (fun t => snd t = FocusReset) (List.filter f ts).
Proof.
  rewrite !Forall_forall. intros H t Hin.
  apply list_elem_of_In, filter_In in Hin as [Hin _].
  apply H. now apply list_elem_of_In.
Qed.

Lemma step_ok a ev : app_ok a -> app_ok (step a ev).
Proof.
  intros Ha. destruct ev as [id e rect|e| |id rect| | |ms]; simpl.
  - (* pointer down *)
    unfold card_pointer_down, card_rendered.
    destruct (app_isLoaded a); simpl; [|exact Ha].
    case_bool_decide as Hin; simpl; [|exact Ha].
    case_bool_decide; simpl; [exact Ha|].
    split; rewrite ?ui_handlePointerDown, ?sched_handlePointerDown;
      try by_ok Ha.
    simpl. intros ? [= <-]. exact Hin.
  - (* pointer move *)
    unfold window_move. destruct (draggingId (ui a)) eqn:Hdr; [|exact Ha].
    pose proof (focus_of_handleMove e a) as Hfo. unfold focus_of in Hfo.
    injection Hfo as Hf1 Hf2 Hf3.
    split; rewrite ?sched_handleMove, ?Hf1, ?Hf2, ?Hf3, ?draggingId_handleMove;
      by_ok Ha.
  - (* pointer end *)
    unfold window_end. destruct (draggingId (ui a)) eqn:Hdr; [|exact Ha].
    split; rewrite ?ui_handleEnd, ?sched_handleEnd; by_ok Ha.
  - (* click *)
    unfold card_click. destruct (card_rendered id a); [|exact Ha].
    unfold handleClick. destruct (didDragRef (ui a)); [split; by_ok Ha|].
    case_bool_decide as Hfoc; split; by_ok Ha.
  - (* overlay click *)
    unfold closeFocus. destruct (focusedId (ui a)) eqn:Hfoc; [|exact Ha].
    split; by_ok Ha.
  - (* animation frame *)
    destruct (run_callbacks_FocusOpen _ (ui a) (ok_frames _ Ha))
      as (E1 & E2 & E3 & E4).
    split; simpl; rewrite ?E1, ?E2, ?E4; try by_ok Ha.
    intros Hidle. destruct E3 as [E3 | E3]; rewrite E3 in Hidle;
      [now apply (ok_idle _ Ha) | discriminate].
  - (* time passes *)
    set (due := List.filter (is_due (clock (sched a) + ms)) (timeouts (sched a))).
    assert (Hdue : Forall (fun cb => cb = FocusReset) (List.map snd due)).
    { apply Forall_forall. intros cb Hcb.
      apply list_elem_of_In, in_map_iff in Hcb as (t & <- & Hin).
      pose proof (Forall_filter_timeouts (is_due (clock (sched a) + ms)) _
                    (ok_timeouts _ Ha)) as Hall.
      rewrite Forall_forall in Hall. apply Hall. now apply list_elem_of_In. }
    destruct (run_callbacks_FocusReset _ (ui a) Hdue) as [E | E].
    + split; simpl; fold due; rewrite ?E; simpl; try by_ok Ha.
      apply Forall_filter_timeouts, (ok_timeouts _ Ha).
    + unfold focus_of in E. injection E as E1 E2 E3.
      split; simpl; fold due; rewrite ?E1, ?E2, ?draggingId_run_callbacks;
        try by_ok Ha.
      apply Forall_filter_timeouts, (ok_timeouts _ Ha).
Qed.

Lemma run_ok evs a : app_ok a -> app_ok (run a evs).
Proof.
  revert a. induction evs as [|ev evs IH]; intros a Ha; [exact Ha|].
  apply IH, step_ok, Ha.
Qed.

Lemma reachable_ok a : reachable a -> app_ok a.
Proof.
  intros (hydrating & ls & evs & ->). apply run_ok, start_ok.
Qed.

Lemma reachable_start hydrating ls : reachable (start hydrating ls).
Proof. now exists hydrating, ls, []. Qed.

Lemma reachable_step a ev : reachable a -> reachable (step a ev).
Proof.
  intros (hydrating & ls & evs & ->). exists hydrating, ls, (evs ++ [ev])%list.
  unfold run. now rewrite fold_left_app.
Qed.

End Reachable.

(** ** Gestures *)

Ltac unfold_setters :=
  unfold on_ui, on_sched, setFocusedId, setFocusOrigin, setFocusPhase,
    setDraggingId, setDragPos, set_dragStartRef, set_didDragRef, set_maxZRef
    in *.

Section Gestures.

Lemma handleMove_started e a ds :
  dragStartRef (ui a) = Some ds ->
  handleMove e a =
  mkApp (world a)
    (mkComponent (focusedId (ui a)) (focusOrigin (ui a)) (focusPhase (ui a))
       (draggingId (ui a))
       (Some (Position.mk
                (DragStart.elemX ds + (clientX e - DragStart.x ds))
                (DragStart.elemY ds + (clientY e - DragStart.y ds))))
       (Some ds)
       (didDragRef (ui a) || beyondb (DragStart.x ds) (DragStart.y ds) e)
       (maxZRef (ui a)))
    (sched a).
Proof.
  intros Hds. unfold handleMove, beyondb. rewrite Hds.
  destruct ((Z.abs _ >? 3) || (Z.abs _ >? 3))%bool;
    unfold_setters; simpl; rewrite ?Hds, ?orb_true_r, ?orb_false_r; reflexivity.
Qed.

(** What a run of move events leaves of a started gesture. *)
Lemma window_moves_started moves a id ds :
  draggingId (ui a) = Some id -> dragStartRef (ui a) = Some ds ->
  let a' := window_moves moves a in
  world a' = world a /\ sched a' = sched a /\
  focus_of (ui a') = focus_of (ui a) /\
  draggingId (ui a') = Some id /\ dragStartRef (ui a') = Some ds /\
  maxZRef (ui a') = maxZRef (ui a) /\
  didDragRef (ui a') =
    (didDragRef (ui a) || existsb (beyondb (DragStart.x ds) (DragStart.y ds)) moves)%bool /\
  dragPos (ui a') =
    match last moves with
    | Some m => Some (Position.mk
                        (DragStart.elemX ds + (clientX m - DragStart.x ds))
                        (DragStart.elemY ds + (clientY m - DragStart.y ds)))
    | None => dragPos (ui a)
    end.
Proof.
  revert a. induction moves as [|m moves IH]; intros a Hid Hds.
  - simpl. rewrite orb_false_r. tauto.
  - assert (Hstep : window_moves (m :: moves) a
                    = window_moves moves (handleMove m a)).
    { unfold window_moves. simpl. unfold window_move. now rewrite Hid. }
    cbv zeta. rewrite Hstep.
    pose proof (handleMove_started m a ds Hds) as Hm.
    destruct (IH (handleMove m a)) as (E1 & E2 & E3 & E4 & E5 & E6 & E7 & E8);
      [rewrite Hm; exact Hid | rewrite Hm; reflexivity |].
    rewrite E1, E2, E3, E4, E5, E6, E7, E8, Hm. simpl.
    rewrite orb_assoc. repeat split; try reflexivity.
    rewrite last_cons. now destruct (last moves).
Qed.

Lemma beyondb_true e m :
  beyond_threshold e m -> beyondb (clientX e) (clientY e) m = true.
Proof.
  unfold beyond_threshold, beyondb. intros [H | H]; apply orb_true_iff;
    [left | right]; apply Z.gtb_lt; lia.
Qed.

Lemma beyondb_same_point e m :
  same_point e m -> beyondb (clientX e) (clientY e) m = false.
Proof.
  unfold same_point, beyondb. intros [-> ->]. now rewrite !Z.sub_diag.
Qed.

Lemma layout_saveLayout d a :
  layout (saveLayout d a) = if write_succeeds d (world a) then Some d else layout a.
Proof.
  unfold layout, saveLayout. simpl. rewrite save_world.
  now destruct (write_succeeds d (world a)).
Qed.

Lemma write_succeeds_saveLayout d' d a :
  write_succeeds d' (world (saveLayout d a)) = write_succeeds d' (world a).
Proof.
  unfold saveLayout. simpl. rewrite save_world.
  now destruct (write_succeeds d (world a)).
Qed.

End Gestures.

(** C2.  A gesture on a card in which some move event is more than 3
    pixels from the point of the pointer-down on one axis ends with the
    did-drag flag set; the click the same release delivers (on that card or
    any other) leaves [focusedId], [focusOrigin] and [focusPhase] as they
    are and queues nothing: it only puts the flag back to false. *)
Theorem drag_then_click_keeps_focus (a : App) (id clicked : Z)
    (e : PointerEvent) (rect rect' : DOMRect.t) (moves : list PointerEvent) :
  Exists (beyond_threshold e) moves ->
  let a1 := handlePointerDown id e rect a in
  let a2 := window_moves moves a1 in
  let a3 := window_end a2 in
  let a4 := handleClick clicked rect' a3 in
  didDragRef (ui a3) = true /\
  focus_of (ui a4) = focus_of (ui a3) /\
  focus_of (ui a4) = focus_of (ui a) /\
  a4 = on_ui (set_didDragRef false) a3 /\
  didDragRef (ui a4) = false.
Proof.
  intros Hex. cbv zeta.
  set (a1 := handlePointerDown id e rect a).
  destruct (window_moves_started moves a1 id
              (DragStart.mk (clientX e) (clientY e)
                            (DOMRect.left rect) (DOMRect.top rect)))
    as (E1 & E2 & E3 & E4 & E5 & E6 & E7 & E8); [reflexivity | reflexivity |].
  set (a2 := window_moves moves a1) in *.
  assert (Hdrag : didDragRef (ui (window_end a2)) = true).
  { unfold window_end. rewrite E4, ui_handleEnd. simpl. rewrite E7. simpl.
    apply existsb_exists. apply Exists_exists in Hex as (m & Hin & Hm).
    exists m. split; [now apply list_elem_of_In | now apply beyondb_true]. }
  assert (Hfoc : focus_of (ui (window_end a2)) = focus_of (ui a)).
  { unfold window_end. rewrite E4. unfold focus_of in *.
    rewrite ui_handleEnd. simpl. exact E3. }
  assert (Hclick : handleClick clicked rect' (window_end a2)
                   = on_ui (set_didDragRef false) (window_end a2)).
  { unfold handleClick. now rewrite Hdrag. }
  rewrite Hclick. repeat split; try assumption; reflexivity.
Qed.

Lemma drag_then_click_keeps_focus_witness :
  let a := start true (Storage.mk ∅ true 5000) in
  let e := MouseEvent 100 100 in
  let a3 := window_end (window_moves [MouseEvent 250 180]
                          (handlePointerDown 22 e (DOMRect.mk 100 100) a)) in
  focus_of (ui (handleClick 22 (DOMRect.mk 250 180) a3)) = focus_of (ui a).
Proof.
  cbv zeta.
  apply (drag_then_click_keeps_focus _ 22 22 (MouseEvent 100 100)).
  apply Exists_cons_hd. left. simpl. lia.
Defined.

(** ** Focus *)

Section Focus.

Lemma run_callbacks_snoc cbs cb c :
  run_callbacks (cbs ++ [cb]) c = run_callback cb (run_callbacks cbs c).
Proof. unfold run_callbacks. now rewrite fold_left_app. Qed.

Lemma run_callbacks_all_open cbs c :
  Forall (fun cb => cb = FocusOpen) cbs ->
  run_callbacks cbs c = c \/ run_callbacks cbs c = setFocusPhase open c.
Proof.
  intros H. revert c. induction H as [|cb cbs Hcb _ IH]; intros c; subst.
  - now left.
  - right. rewrite run_callbacks_cons.
    destruct (IH (run_callback FocusOpen c)) as [-> | ->]; reflexivity.
Qed.

(** The frame after a request to open: the phase is [open], nothing else
    of the component changes. *)
Lemma run_frames_then_open cbs c :
  Forall (fun cb => cb = FocusOpen) cbs ->
  run_callbacks (cbs ++ [FocusOpen]) c = setFocusPhase open c.
Proof.
  intros H. rewrite run_callbacks_snoc.
  destruct (run_callbacks_all_open cbs c H) as [-> | ->]; reflexivity.
Qed.

(** Time passes over a timer that has just been set: it resets focus when
    the delay is over. *)
Lemma elapse_over_new_timer ts now delay ms c :
  (delay <= ms)%nat ->
  focus_of (run_callbacks
              (List.map snd
                 (List.filter (is_due (now + ms))
                              (ts ++ [((now + delay)%nat, FocusReset)]))) c)
  = (None, None, idle).
Proof.
  intros Hle. rewrite List.filter_app, List.map_app. simpl.
  unfold is_due at 2. simpl.
  destruct (Nat.leb_spec (now + delay) (now + ms)) as [_ | Hlt]; [|lia].
  simpl. now rewrite run_callbacks_snoc.
Qed.

Lemma elapse_before_new_timer now delay ms c :
  (ms < delay)%nat ->
  run_callbacks
    (List.map snd
       (List.filter (is_due (now + ms)) [((now + delay)%nat, FocusReset)])) c
  = c.
Proof.
  intros Hlt. simpl. unfold is_due. simpl.
  destruct (Nat.leb_spec (now + delay) (now + ms)) as [Hle | _]; [lia|].
  reflexivity.
Qed.

(** A due timeout of a reachable state resets focus, whatever else is
    due with it. *)
Lemma elapse_over_pending ts now c t :
  Forall (fun t => snd t = FocusReset) ts ->
  t ∈ ts -> (fst t <= now)%nat ->
  focus_of (run_callbacks (List.map snd (List.filter (is_due now) ts)) c)
  = (None, None, idle).
Proof.
  intros Hall Hin Hdue.
  assert (Hall' : Forall (fun cb => cb = FocusReset)
                    (List.map snd (List.filter (is_due now) ts))).
  { apply Forall_forall. intros cb Hcb.
    apply list_elem_of_In, in_map_iff in Hcb as (t' & <- & Hin').
    apply filter_In in Hin' as [Hin' _].
    rewrite Forall_forall in Hall. apply Hall. now apply list_elem_of_In. }
  destruct (run_callbacks_FocusReset _ c Hall') as [Hnil | E]; [|exact E].
  exfalso.
  assert (Hin2 : In (snd t) (List.map snd (List.filter (is_due now) ts))).
  { apply in_map, filter_In. split; [now apply list_elem_of_In|].
    unfold is_due. now apply Nat.leb_le. }
  rewrite Hnil in Hin2. destruct Hin2.
Qed.

End Focus.

(** C3.  From the idle phase a click on card [A] (not after a drag) takes
    the card's bounding position as origin, makes [A] the focused card and
    the phase [opening] at once; the next animation frame makes the phase
    [open].  A second click on [A] then makes the phase [closing] at once
    and sets a 450 ms timer; when 450 ms have passed the phase is [idle]
    and [focusedId], [focusOrigin] are [null].  A click on the overlay in
    the open state takes the same path.  (With no older timer pending the
    phase stays [closing] until the 450 ms are over.) *)
Theorem focus_lifecycle (a : App) (A : Z) (rect rect' : DOMRect.t) :
  reachable a -> focusPhase (ui a) = idle -> didDragRef (ui a) = false ->
  let a1 := handleClick A rect a in
  let a2 := animation_frame a1 in
  let a3 := handleClick A rect' a2 in
  let a4 := elapse 450 a3 in
  let b3 := closeFocus a2 in
  let b4 := elapse 450 b3 in
  let t450 := ((clock (sched a) + 450)%nat, FocusReset) in
  focus_of (ui a1) = (Some A, Some (rect_origin rect), opening) /\
  focus_of (ui a2) = (Some A, Some (rect_origin rect), open) /\
  (focus_of (ui a3) = (Some A, Some (rect_origin rect), closing) /\
   timeouts (sched a3) = (timeouts (sched a) ++ [t450])%list /\
   focus_of (ui a4) = (None, None, idle)) /\
  (focus_of (ui b3) = (Some A, Some (rect_origin rect), closing) /\
   timeouts (sched b3) = (timeouts (sched a) ++ [t450])%list /\
   focus_of (ui b4) = (None, None, idle)) /\
  (timeouts (sched a) = [] ->
   forall ms, (ms < 450)%nat ->
     focus_of (ui (elapse ms a3)) = (Some A, Some (rect_origin rect), closing) /\
     focus_of (ui (elapse ms b3)) = (Some A, Some (rect_origin rect), closing)).
Proof.
  intros Hreach Hidle Hdrag. cbv zeta.
  pose proof (reachable_ok _ Hreach) as Hok.
  pose proof (ok_idle _ Hok Hidle) as Hnone.
  assert (H1 : handleClick A rect a =
               on_sched (requestAnimationFrame FocusOpen)
                 (on_ui (fun c => setFocusPhase opening
                           (setFocusedId (Some A)
                              (setFocusOrigin (Some (rect_origin rect)) c))) a)).
  { unfold handleClick. rewrite Hdrag, Hnone.
    rewrite bool_decide_eq_false_2 by discriminate. reflexivity. }
  rewrite H1. set (a1 := on_sched _ _).
  assert (H2 : ui (animation_frame a1) = setFocusPhase open (ui a1)).
  { unfold animation_frame. simpl. apply run_frames_then_open, (ok_frames _ Hok). }
  assert (H3 : handleClick A rect' (animation_frame a1)
               = start_closing (animation_frame a1)).
  { unfold handleClick. rewrite H2. simpl. rewrite Hdrag.
    now rewrite bool_decide_eq_true_2. }
  assert (H3' : closeFocus (animation_frame a1)
                = start_closing (animation_frame a1)).
  { unfold closeFocus. now rewrite H2. }
  rewrite H3, H3'. set (a3 := start_closing _).
  assert (Hui3 : ui a3 = setFocusPhase closing (setFocusPhase open (ui a1))).
  { change (ui a3) with (setFocusPhase closing (ui (animation_frame a1))).
    now rewrite H2. }
  assert (Hts3 : timeouts (sched a3)
                 = (timeouts (sched a)
                    ++ [((clock (sched a) + 450)%nat, FocusReset)])%list)
    by reflexivity.
  assert (H4 : focus_of (ui (elapse 450 a3)) = (None, None, idle)).
  { unfold elapse. simpl. now apply elapse_over_new_timer. }
  split; [reflexivity|]. split; [now rewrite H2|].
  split; [split; [now rewrite Hui3 | split; [exact Hts3 | exact H4]]|].
  split; [split; [now rewrite Hui3 | split; [exact Hts3 | exact H4]]|].
  intros Hnil ms Hms.
  assert (focus_of (ui (elapse ms a3))
          = (Some A, Some (rect_origin rect), closing)); [|tauto].
  unfold elapse. simpl. rewrite Hnil. simpl app.
  rewrite (elapse_before_new_timer (clock (sched a)) 450 ms _ Hms).
  now rewrite (run_frames_then_open _ _ (ok_frames _ Hok)).
Qed.

Lemma focus_lifecycle_witness :
  let a := start true (Storage.mk ∅ true 5000) in
  let a3 := handleClick 19 (DOMRect.mk 40 130)
              (animation_frame (handleClick 19 (DOMRect.mk 40 130) a)) in
  focus_of (ui (elapse 450 a3)) = (None, None, idle).
Proof.
  cbv zeta.
  apply (focus_lifecycle (start true (Storage.mk ∅ true 5000)) 19
           (DOMRect.mk 40 130) (DOMRect.mk 40 130)).
  - apply reachable_start.
  - reflexivity.
  - reflexivity.
Defined.

(** C10.  While card [A] is focused, a click on another card [B] (not
    after a drag) makes [B] the focused card at once, with [B]'s bounding
    position as origin and phase [opening]; no pass through [idle].  The
    timers that are pending stay queued, and when one of them is due it
    still runs and clears [focusedId], [focusOrigin] and the phase. *)
Theorem click_other_card_switches_focus (a : App) (A B : Z) (rect : DOMRect.t) :
  reachable a -> focusedId (ui a) = Some A -> A <> B ->
  didDragRef (ui a) = false ->
  let a1 := handleClick B rect a in
  focusPhase (ui a) <> idle /\
  focus_of (ui a1) = (Some B, Some (rect_origin rect), opening) /\
  timeouts (sched a1) = timeouts (sched a) /\
  frames (sched a1) = (frames (sched a) ++ [FocusOpen])%list /\
  (forall t ms, t ∈ timeouts (sched a) ->
     (fst t <= clock (sched a) + ms)%nat ->
     focus_of (ui (elapse ms a1)) = (None, None, idle)).
Proof.
  intros Hreach Hfoc Hne Hdrag. cbv zeta.
  pose proof (reachable_ok _ Hreach) as Hok.
  assert (H1 : handleClick B rect a =
               on_sched (requestAnimationFrame FocusOpen)
                 (on_ui (fun c => setFocusPhase opening
                           (setFocusedId (Some B)
                              (setFocusOrigin (Some (rect_origin rect)) c))) a)).
  { unfold handleClick. rewrite Hdrag, Hfoc.
    rewrite bool_decide_eq_false_2 by congruence. reflexivity. }
  rewrite H1. split.
  { intros Hidle. pose proof (ok_idle _ Hok Hidle). congruence. }
  split; [reflexivity|]. split; [reflexivity|]. split; [reflexivity|].
  intros t ms Hin Hdue. unfold elapse. simpl.
  eapply elapse_over_pending; eauto. apply (ok_timeouts _ Hok).
Qed.

Lemma click_other_card_switches_focus_witness :
  let a := run (start true empty_storage)
             [Click 19 (DOMRect.mk 40 130); AnimationFrame;
              Click 19 (DOMRect.mk 40 130)] in
  let a1 := handleClick 22 (DOMRect.mk 40 260) a in
  focus_of (ui a) = (Some 19, Some (Position.mk 40 130), closing) /\
  focus_of (ui a1) = (Some 22, Some (Position.mk 40 260), opening) /\
  focus_of (ui (elapse 450 a1)) = (None, None, idle).
Proof.
  cbv zeta.
  set (a := run _ _).
  assert (Hreach : reachable a) by (now eexists _, _, _).
  destruct (click_other_card_switches_focus a 19 22 (DOMRect.mk 40 260) Hreach)
    as (_ & H1 & _ & _ & H2); [reflexivity | discriminate | reflexivity |].
  split; [reflexivity|]. split; [exact H1|].
  apply (H2 (450%nat, FocusReset)).
  - apply list_elem_of_In. now left.
  - simpl. lia.
Defined.

(** ** Press and release *)

Section Tap.

Lemma layout_world a b : world a = world b -> layout a = layout b.
Proof. unfold layout. now intros ->. Qed.

Lemma app_positions_world a b : world a = world b -> app_positions a = app_positions b.
Proof. unfold app_positions. now intros ->%layout_world. Qed.

Lemma app_zIndexes_world a b : world a = world b -> app_zIndexes a = app_zIndexes b.
Proof. unfold app_zIndexes. now intros ->%layout_world. Qed.

Lemma layout_persistLayout ps zs m a :
  layout (persistLayout ps zs m a) =
  if write_succeeds (mkLayoutData ps zs m) (world a)
  then Some (mkLayoutData ps zs m) else layout a.
Proof. unfold persistLayout. now rewrite layout_saveLayout. Qed.

Lemma write_succeeds_persistLayout d ps zs m a :
  write_succeeds d (world (persistLayout ps zs m a)) = write_succeeds d (world a).
Proof. unfold persistLayout. now rewrite write_succeeds_saveLayout. Qed.

Lemma handleEnd_dragging a id p :
  draggingId (ui a) = Some id -> dragPos (ui a) = Some p ->
  handleEnd a =
  on_ui (fun c => set_dragStartRef None (setDragPos None (setDraggingId None c)))
    (persistLayout (<[id := p]> (app_positions a))
                   (<[id := maxZRef (ui a) + 1]> (app_zIndexes a))
                   (maxZRef (ui a) + 1) a).
Proof. intros Hid Hp. unfold handleEnd. now rewrite Hid, Hp. Qed.

(** The layout a press leaves. *)
Lemma layout_handlePointerDown id e rect a :
  layout (handlePointerDown id e rect a) =
  let d1 := mkLayoutData (app_positions a)
              (<[id := maxZRef (ui a) + 1]> (app_zIndexes a))
              (maxZRef (ui a) + 1) in
  if write_succeeds d1 (world a) then Some d1 else layout a.
Proof. unfold handlePointerDown. now rewrite layout_persistLayout. Qed.

Lemma write_succeeds_handlePointerDown d id e rect a :
  write_succeeds d (world (handlePointerDown id e rect a))
  = write_succeeds d (world a).
Proof. unfold handlePointerDown. now rewrite write_succeeds_persistLayout. Qed.

(** The live position after move events that stay at the origin of the
    gesture is the point the press recorded. *)
Lemma dragPos_same_point e rect moves :
  Forall (same_point e) moves ->
  match last moves with
  | Some m => Some (Position.mk (DOMRect.left rect + (clientX m - clientX e))
                                (DOMRect.top rect + (clientY m - clientY e)))
  | None => Some (rect_origin rect)
  end = Some (rect_origin rect).
Proof.
  intros Hall. destruct (last moves) as [m|] eqn:Hlast; [|reflexivity].
  apply last_Some_elem_of in Hlast.
  rewrite Forall_forall in Hall. destruct (Hall m Hlast) as [-> ->].
  now rewrite !Z.sub_diag, !Z.add_0_r.
Qed.

Lemma existsb_same_point e moves :
  Forall (same_point e) moves ->
  existsb (beyondb (clientX e) (clientY e)) moves = false.
Proof.
  induction 1 as [|m moves Hm _ IH]; simpl; [reflexivity|].
  now rewrite (beyondb_same_point e m Hm), IH.
Qed.

End Tap.

(** C1 as the claim states it fails.  In a fresh browser, a press on card
    19 and a release without any movement give the card a position
    override it did not have (the corner of its bounding rectangle), and
    raise its z-index twice, to 22. *)
Lemma tap_changes_override :
  let a := start true empty_storage in
  let a' := gesture 19 (MouseEvent 45 140) (DOMRect.mk 40 130) [] a in
  app_positions a' !! 19 <> app_positions a !! 19 /\
  app_positions a !! 19 = None /\
  app_positions a' !! 19 = Some (Position.mk 40 130) /\
  maxZRef (ui a) = 20 /\
  app_zIndexes a' !! 19 = Some 22.
Proof.
  cbv zeta. split; [|now vm_compute].
  intros H. vm_compute in H. discriminate H.
Qed.

(** C1, amended.  A press on a card followed by a release, with no move
    event or only move events at the point of the press, leaves the
    did-drag flag false and the focus state alone.  The release commits
    the live position, which is the corner of the card's bounding rectangle
    recorded by the press: when that write succeeds the card's position
    override is this corner, and its z-index is the running counter raised
    twice, which is the new [maxZ].  When only the write of the press
    succeeds the override is unchanged and the z-index is the counter
    raised once; when neither does the layout is unchanged. *)
Theorem tap_commits_rect_corner (a : App) (id : Z) (e : PointerEvent)
    (rect : DOMRect.t) (moves : list PointerEvent) :
  Forall (same_point e) moves ->
  let m := maxZRef (ui a) in
  let d1 := mkLayoutData (app_positions a)
              (<[id := m + 1]> (app_zIndexes a)) (m + 1) in
  let d2 := mkLayoutData (<[id := rect_origin rect]> (app_positions a))
              (<[id := m + 2]> (app_zIndexes a)) (m + 2) in
  let a' := gesture id e rect moves a in
  didDragRef (ui a') = false /\
  (draggingId (ui a') = None /\ dragPos (ui a') = None /\
   dragStartRef (ui a') = None) /\
  focus_of (ui a') = focus_of (ui a) /\
  sched a' = sched a /\
  maxZRef (ui a') = m + 2 /\
  layout a' = (if write_succeeds d2 (world a) then Some d2
               else if write_succeeds d1 (world a) then Some d1
               else layout a) /\
  (write_succeeds d2 (world a) = true ->
     app_positions a' !! id = Some (rect_origin rect) /\
     app_zIndexes a' !! id = Some (m + 2) /\
     option_map maxZ (layout a') = Some (m + 2)).
Proof.
  intros Hsame. cbv zeta. unfold gesture.
  set (a1 := handlePointerDown id e rect a).
  destruct (window_moves_started moves a1 id
              (DragStart.mk (clientX e) (clientY e)
                            (DOMRect.left rect) (DOMRect.top rect)))
    as (E1 & E2 & E3 & E4 & E5 & E6 & E7 & E8); [reflexivity | reflexivity |].
  set (a2 := window_moves moves a1) in *.
  simpl in E7, E8. rewrite (existsb_same_point e moves Hsame) in E7.
  pose proof (dragPos_same_point e rect moves Hsame) as Hdp.
  unfold rect_origin in Hdp at 1. rewrite Hdp in E8. clear Hdp.
  assert (Hend : window_end a2 = handleEnd a2)
    by (unfold window_end; now rewrite E4).
  rewrite Hend, (handleEnd_dragging a2 id (rect_origin rect) E4 E8).
  set (a3 := persistLayout _ _ _ a2).
  (* the record the release writes *)
  assert (Hps : app_positions a2 = app_positions a).
  { rewrite (app_positions_world a2 a1 E1). unfold app_positions.
    unfold a1. rewrite layout_handlePointerDown. cbv zeta.
    now destruct (write_succeeds _ (world a)). }
  assert (Hzs : <[id := maxZRef (ui a2) + 1]> (app_zIndexes a2)
                = <[id := maxZRef (ui a) + 2]> (app_zIndexes a)).
  { rewrite E6. change (maxZRef (ui a1)) with (maxZRef (ui a) + 1).
    replace (maxZRef (ui a) + 1 + 1) with (maxZRef (ui a) + 2) by lia.
    rewrite (app_zIndexes_world a2 a1 E1). unfold app_zIndexes.
    unfold a1. rewrite layout_handlePointerDown. cbv zeta.
    destruct (write_succeeds _ (world a)); [|reflexivity].
    simpl. apply insert_insert_eq. }
  assert (Hm : maxZRef (ui a2) + 1 = maxZRef (ui a) + 2).
  { rewrite E6. change (maxZRef (ui a1)) with (maxZRef (ui a) + 1). lia. }
  assert (Hlay : layout a3 =
    if write_succeeds (mkLayoutData (<[id := rect_origin rect]> (app_positions a))
                         (<[id := maxZRef (ui a) + 2]> (app_zIndexes a))
                         (maxZRef (ui a) + 2)) (world a)
    then Some (mkLayoutData (<[id := rect_origin rect]> (app_positions a))
                 (<[id := maxZRef (ui a) + 2]> (app_zIndexes a))
                 (maxZRef (ui a) + 2))
    else if write_succeeds (mkLayoutData (app_positions a)
                 (<[id := maxZRef (ui a) + 1]> (app_zIndexes a))
                 (maxZRef (ui a) + 1)) (world a)
    then Some (mkLayoutData (app_positions a)
                 (<[id := maxZRef (ui a) + 1]> (app_zIndexes a))
                 (maxZRef (ui a) + 1))
    else layout a).
  { unfold a3. rewrite layout_persistLayout, Hps, Hzs, Hm, E1.
    unfold a1 at 1. rewrite write_succeeds_handlePointerDown.
    destruct (write_succeeds _ (world a)); [reflexivity|].
    rewrite (layout_world a2 a1 E1). unfold a1.
    now rewrite layout_handlePointerDown. }
  assert (Hlay' : layout (on_ui (fun c => set_dragStartRef None
                     (setDragPos None (setDraggingId None c))) a3) = layout a3)
    by reflexivity.
  split; [exact E7|]. split; [now repeat split|].
  split; [exact E3|]. split; [exact E2|]. split; [exact Hm|].
  split; [now rewrite Hlay'|].
  intros Hw. unfold app_positions, app_zIndexes. rewrite Hlay', Hlay, Hw.
  simpl. now rewrite !lookup_insert_eq.
Qed.

Lemma tap_commits_rect_corner_witness :
  let a := start true empty_storage in
  let a' := gesture 19 (MouseEvent 45 140) (DOMRect.mk 40 130)
              [MouseEvent 45 140] a in
  didDragRef (ui a') = false /\ maxZRef (ui a') = 22.
Proof.
  cbv zeta.
  destruct (tap_commits_rect_corner (start true empty_storage) 19
              (MouseEvent 45 140) (DOMRect.mk 40 130) [MouseEvent 45 140])
    as (H1 & _ & _ & _ & H2 & _).
  - repeat constructor.
  - split; [exact H1 | exact H2].
Defined.

(** ** The invariant of the layout record *)

Section Invariant.

Lemma layout_invariantb_spec d : layout_invariantb d = true <-> layout_invariant d.
Proof.
  unfold layout_invariantb, layout_invariant.
  rewrite andb_true_iff, !forallb_forall. split.
  - intros [Hp Hz]. split; [|split].
    + intros k [v Hk]. apply elem_of_map_to_list, list_elem_of_In in Hk.
      apply Hp in Hk. now apply bool_decide_eq_true in Hk.
    + intros k [v Hk]. apply elem_of_map_to_list, list_elem_of_In in Hk.
      apply Hz, andb_true_iff in Hk as [Hk _].
      now apply bool_decide_eq_true in Hk.
    + intros k n Hk. apply elem_of_map_to_list, list_elem_of_In in Hk.
      apply Hz, andb_true_iff in Hk as [_ Hk]. simpl in Hk. lia.
  - intros (Hp & Hz & Hm). split.
    + intros [k v] Hk. apply list_elem_of_In, elem_of_map_to_list in Hk.
      apply bool_decide_eq_true. apply Hp. now exists v.
    + intros [k n] Hk. apply list_elem_of_In, elem_of_map_to_list in Hk.
      apply andb_true_iff. split.
      * apply bool_decide_eq_true. apply Hz. now exists n.
      * simpl. apply Z.leb_le. now apply (Hm k).
Qed.

(** A record built from one that satisfies the invariant, with one entry
    for a card of the dataset at the new counter value, satisfies it as long
    as the counter was not behind the stored [maxZ]. *)
Lemma bump_keeps_invariant (ps : gmap Z Position.t) (zs : gmap Z Z) (old m id : Z) :
  layout_invariant (mkLayoutData ps zs old) -> old <= m -> id ∈ fragment_ids ->
  layout_invariant (mkLayoutData ps (<[id := m + 1]> zs) (m + 1)) /\
  forall p, layout_invariant
              (mkLayoutData (<[id := p]> ps) (<[id := m + 1]> zs) (m + 1)).
Proof.
  intros (Hp & Hz & Hm) Hle Hid. simpl in *.
  assert (Hzs : forall k, is_Some (<[id := m + 1]> zs !! k) -> k ∈ fragment_ids).
  { intros k. rewrite lookup_insert_is_Some. intros [<- | [_ Hk]]; auto. }
  assert (Hmax : forall k n, <[id := m + 1]> zs !! k = Some n -> n <= m + 1).
  { intros k n. rewrite lookup_insert_Some. intros [[_ <-] | [_ Hk]]; [lia|].
    specialize (Hm k n Hk). lia. }
  split; [now repeat split|]. intros p. repeat split; simpl; auto.
  intros k. rewrite lookup_insert_is_Some. intros [<- | [_ Hk]]; auto.
Qed.

Lemma empty_layout_invariant m : layout_invariant (mkLayoutData ∅ ∅ m).
Proof.
  repeat split; simpl.
  - intros k [v Hk]. now rewrite lookup_empty in Hk.
  - intros k [v Hk]. now rewrite lookup_empty in Hk.
  - intros k n Hk. now rewrite lookup_empty in Hk.
Qed.

(** With the counter in sync, the press keeps the invariant, and the
    counter in sync. *)
Lemma press_keeps_invariant a id e rect :
  id ∈ fragment_ids -> counter_in_sync a ->
  (forall d, layout a = Some d -> layout_invariant d) ->
  let a' := handlePointerDown id e rect a in
  (forall d, layout a' = Some d -> layout_invariant d) /\ counter_in_sync a'.
Proof.
  intros Hid Hsync Hinv. cbv zeta. unfold counter_in_sync.
  rewrite layout_handlePointerDown, ui_handlePointerDown. cbv zeta. simpl.
  destruct (write_succeeds _ (world a)).
  - split; intros d [= <-]; simpl; [|lia].
    unfold app_positions, app_zIndexes.
    destruct (layout a) as [[ps zs old]|] eqn:Hl; simpl.
    + apply (bump_keeps_invariant ps zs old); auto.
      apply (Hsync _ Hl).
    + apply (bump_keeps_invariant ∅ ∅ (maxZRef (ui a))); auto; [|lia].
      apply empty_layout_invariant.
  - split; [exact Hinv|]. intros d Hd. specialize (Hsync d Hd). lia.
Qed.

(** Likewise for the release that commits the live position. *)
Lemma release_keeps_invariant a id p :
  draggingId (ui a) = Some id -> dragPos (ui a) = Some p ->
  id ∈ fragment_ids -> counter_in_sync a ->
  (forall d, layout a = Some d -> layout_invariant d) ->
  let a' := handleEnd a in
  (forall d, layout a' = Some d -> layout_invariant d) /\ counter_in_sync a'.
Proof.
  intros Hdr Hdp Hid Hsync Hinv. cbv zeta. unfold counter_in_sync.
  rewrite (handleEnd_dragging a id p Hdr Hdp).
  change (layout (on_ui ?f ?b)) with (layout b).
  change (ui (on_ui ?f (persistLayout ?ps ?zs ?m a)))
    with (f (set_maxZRef m (ui a))).
  rewrite layout_persistLayout. simpl.
  destruct (write_succeeds _ (world a)).
  - split; intros d [= <-]; simpl; [|lia].
    unfold app_positions, app_zIndexes.
    destruct (layout a) as [[ps zs old]|] eqn:Hl; simpl.
    + apply (bump_keeps_invariant ps zs old); auto.
      apply (Hsync _ Hl).
    + apply (bump_keeps_invariant ∅ ∅ (maxZRef (ui a))); auto; [|lia].
      apply empty_layout_invariant.
  - split; [exact Hinv|]. intros d Hd. specialize (Hsync d Hd). lia.
Qed.

(** A step that leaves the world and the counter alone keeps both. *)
Lemma unchanged_keeps_invariant a a' :
  world a' = world a -> maxZRef (ui a') = maxZRef (ui a) ->
  counter_in_sync a ->
  (forall d, layout a = Some d -> layout_invariant d) ->
  (forall d, layout a' = Some d -> layout_invariant d) /\ counter_in_sync a'.
Proof.
  intros Hw Hm Hsync Hinv. unfold counter_in_sync.
  rewrite (layout_world a' a Hw), Hm. now split.
Qed.

Lemma maxZRef_run_callbacks cbs c :
  maxZRef (run_callbacks cbs c) = maxZRef c.
Proof.
  revert c. induction cbs as [|cb cbs IH]; intros c; [reflexivity|].
  rewrite run_callbacks_cons, IH. now destruct cb.
Qed.

Lemma step_keeps_invariant a ev :
  app_ok a -> counter_in_sync a ->
  (forall d, layout a = Some d -> layout_invariant d) ->
  (forall d, layout (step a ev) = Some d -> layout_invariant d) /\
  counter_in_sync (step a ev).
Proof.
  intros Hok Hsync Hinv.
  destruct ev as [id e rect|e| |id rect| | |ms]; simpl.
  - unfold card_pointer_down, card_rendered.
    destruct (app_isLoaded a); simpl; [|now split].
    case_bool_decide as Hin; simpl; [|now split].
    case_bool_decide; simpl; [now split|].
    now apply press_keeps_invariant.
  - unfold window_move. destruct (draggingId (ui a)); [|now split].
    unfold handleMove. destruct (dragStartRef (ui a)); [|now split].
    apply (unchanged_keeps_invariant a); auto;
      destruct (_ || _)%bool; reflexivity.
  - unfold window_end. destruct (draggingId (ui a)) as [id|] eqn:Hid;
      [|now split].
    destruct (dragPos (ui a)) as [p|] eqn:Hp.
    + apply (release_keeps_invariant a id p); auto.
      now apply (ok_dragging _ Hok).
    + apply (unchanged_keeps_invariant a); auto;
        unfold handleEnd; now rewrite Hid, Hp.
  - unfold card_click. destruct (card_rendered id a); [|now split].
    unfold handleClick. destruct (didDragRef (ui a));
      [now apply (unchanged_keeps_invariant a)|].
    case_bool_decide; now apply (unchanged_keeps_invariant a).
  - unfold closeFocus. destruct (focusedId (ui a)); [|now split].
    now apply (unchanged_keeps_invariant a).
  - apply (unchanged_keeps_invariant a); auto. apply maxZRef_run_callbacks.
  - apply (unchanged_keeps_invariant a); auto. apply maxZRef_run_callbacks.
Qed.

(** Mounted on the client, without hydration, the counter starts at the
    stored [maxZ], and every record the page stores satisfies the invariant
    when the one it found did. *)
Lemma client_mount_keeps_invariant (ls : Storage.t) (evs : list Event) :
  (forall d, load ls = Some d -> layout_invariant d) ->
  forall d, layout (run (start false ls) evs) = Some d -> layout_invariant d.
Proof.
  intros Hstored.
  assert (Hrun : forall evs a, app_ok a -> counter_in_sync a ->
            (forall d, layout a = Some d -> layout_invariant d) ->
            forall d, layout (run a evs) = Some d -> layout_invariant d).
  { clear evs. induction evs as [|ev evs IH]; intros a Hok Hsync Hinv;
      [exact Hinv|].
    destruct (step_keeps_invariant a ev Hok Hsync Hinv) as [Hinv' Hsync'].
    apply (IH (step a ev)); auto using step_ok. }
  apply Hrun; [apply start_ok | | exact Hstored].
  unfold counter_in_sync.
  change (layout (start false ls)) with (load ls).
  change (maxZRef (ui (start false ls)))
    with (match load ls with Some l => maxZ l | None => 20 end).
  intros d ->. lia.
Qed.

End Invariant.

(** C6, at the input where it fails.  A first visit: a press and release
    on card 19 leave z-index 22 for it and [maxZ] 22 in storage, a record
    that satisfies the invariant.  The page is loaded again and hydrated:
    the first render reads the server snapshot, so the counter starts at 20
    although the stored [maxZ] is 22.  A press on card 22 then stores
    z-index 21 for it and [maxZ] 21, below the 22 of card 19: the invariant
    is lost. *)
Theorem press_after_reload_breaks_invariant :
  let visit1 := run (start true empty_storage)
                    [PointerDown 19 (MouseEvent 45 140) (DOMRect.mk 40 130);
                     PointerEnd] in
  let a := start true (localStorage (world visit1)) in
  let a' := step a (PointerDown 22 (MouseEvent 50 300) (DOMRect.mk 40 260)) in
  let d := mkLayoutData (<[19 := Position.mk 40 130]> ∅) (<[19 := 22]> ∅) 22 in
  let d' := mkLayoutData (<[19 := Position.mk 40 130]> ∅)
                         (<[22 := 21]> (<[19 := 22]> ∅)) 21 in
  layout a = Some d /\ layout_invariant d /\ maxZRef (ui a) = 20 /\
  layout a' = Some d' /\ ~ layout_invariant d' /\
  zIndexes d' !! 19 = Some 22 /\ maxZ d' = 21.
Proof.
  cbv zeta. split; [now vm_compute|].
  split; [now apply layout_invariantb_spec|].
  split; [reflexivity|]. split; [now vm_compute|].
  split; [|split; reflexivity].
  intros H%layout_invariantb_spec. vm_compute in H. discriminate H.
Qed.

(** ** The style resolver *)

Section Style.

Lemma fragments_static_z item : item ∈ fragments -> 5 <= Fragment.z item <= 10.
Proof.
  intros Hin. apply list_elem_of_In in Hin. simpl in Hin.
  repeat (destruct Hin as [<- | Hin]; [simpl; lia|]). destruct Hin.
Qed.

(** The z-index of a card at rest is its stored one or its static one. *)
Lemma resting_zIndex_bound a item bound :
  Fragment.z item < bound ->
  (forall k n, app_zIndexes a !! k = Some n -> n < bound) ->
  resting_zIndex a item < bound.
Proof.
  intros Hz Hall. unfold resting_zIndex, currentZ.
  destruct (app_zIndexes a !! Fragment.id item) as [n|] eqn:Hn; [|exact Hz].
  destruct (Z.eqb n 0); [exact Hz|]. exact (Hall _ _ Hn).
Qed.

End Style.

(** C7 as the claim states it fails: the focus layer is not above every
    resting card.  After 491 presses and releases on card 11 its z-index is
    1002; card 19, focused and open, is drawn at 1001, below it. *)
Lemma focus_layer_below_resting_card :
  let a := run (start true empty_storage)
               (taps 491 11 ++ [Click 19 (DOMRect.mk 40 130); AnimationFrame]) in
  focus_of (ui a) = (Some 19, Some (Position.mk 40 130), open) /\
  rendered_zIndex a 19 = Some 1001 /\
  rendered_zIndex a 11 = Some 1002.
Proof. now vm_compute. Qed.

(** C7, amended.  A card that is focused in phase [open] is drawn fixed at
    top 50%, left 50%, translated by (-50%, -50%), with rotation 0; a card
    that is not a media card keeps its width and is scaled by 1.5, a media
    card is not scaled and gets the width 480px; the transition on top,
    left, transform and width is on.  Its z-index is 1001: above the drag
    layer 999 and above the static z-index of every card of the dataset,
    and above the z-index of every card at rest as long as the stored
    z-indexes are below 1001 (they grow with every press and release). *)
Theorem focused_open_style (a : App) (item : Fragment.t) (isDragging : bool)
    (customPos : option Position.t) :
  reachable a ->
  focusedId (ui a) = Some (Fragment.id item) -> focusPhase (ui a) = open ->
  let st := getStyle a item true isDragging customPos in
  (CSS.position st = Some "fixed" /\
   CSS.top st = Some (CSS.Str "50%") /\ CSS.left st = Some (CSS.Str "50%") /\
   CSS.right st = Some (CSS.Str "auto") /\
   CSS.zIndex st = 1001 /\
   CSS.transition st = Some FOCUS_TRANSITION) /\
  (Fragment.type item <> media ->
     CSS.transform st = [CSS.translate "-50%" "-50%"; CSS.rotate 0%Q;
                         CSS.scale 1.5%Q] /\
     CSS.width st = Fragment.width item) /\
  (Fragment.type item = media ->
     CSS.transform st = [CSS.translate "-50%" "-50%"; CSS.rotate 0%Q] /\
     CSS.width st = "480px") /\
  999 < CSS.zIndex st /\
  (forall other, other ∈ fragments -> Fragment.z other < CSS.zIndex st) /\
  (forall other, other ∈ fragments ->
     (forall k n, app_zIndexes a !! k = Some n -> n < 1001) ->
     resting_zIndex a other < CSS.zIndex st).
Proof.
  intros Hreach Hfoc Hopen. cbv zeta.
  destruct (ok_origin _ (reachable_ok _ Hreach) _ Hfoc) as [origin Horigin].
  unfold getStyle. rewrite Horigin, Hopen.
  rewrite bool_decide_eq_true_2 by reflexivity. simpl.
  split; [now repeat split|].
  split; [intros Hm; now rewrite bool_decide_eq_false_2|].
  split; [intros Hm; now rewrite bool_decide_eq_true_2|].
  split; [lia|]. split.
  - intros other Hin. pose proof (fragments_static_z other Hin). lia.
  - intros other Hin Hall. apply resting_zIndex_bound; [|exact Hall].
    pose proof (fragments_static_z other Hin). lia.
Qed.

Lemma focused_open_style_witness :
  let a := run (start true empty_storage)
               [Click 13 (DOMRect.mk 900 150); AnimationFrame] in
  let item := Fragment.mk 13 media None None (Some "Michael Jordan's Wisdom")
                (Some "https://www.youtube.com/watch?v=EUo0ncJX19A")
                "18%" None (Some "5%") "180px" (-2.5)%Q 10 false false None in
  item ∈ fragments /\
  CSS.zIndex (getStyle a item true false None) = 1001 /\
  CSS.width (getStyle a item true false None) = "480px".
Proof.
  cbv zeta. set (a := run _ _). set (item := Fragment.mk _ _ _ _ _ _ _ _ _ _ _ _ _ _ _).
  assert (Hreach : reachable a) by (now eexists _, _, _).
  destruct (focused_open_style a item false None Hreach)
    as ((_ & _ & _ & _ & Hz & _) & _ & Hmedia & _);
    [reflexivity | reflexivity |].
  split; [|split; [exact Hz | now apply Hmedia]].
  apply list_elem_of_In. simpl. tauto.
Defined.

(** C8 as the claim states it fails: the drag layer is not above every
    resting card.  After 490 presses and releases on card 11 its z-index is
    1000; card 19, while it is dragged, is drawn at 999, below it. *)
Lemma drag_layer_below_resting_card :
  let a := run (start true empty_storage)
               (taps 490 11 ++
                [PointerDown 19 (MouseEvent 45 140) (DOMRect.mk 40 130);
                 PointerMove (MouseEvent 60 150)]) in
  draggingId (ui a) = Some 19 /\
  dragPos (ui a) = Some (Position.mk 55 140) /\
  focusedId (ui a) = None /\
  rendered_zIndex a 19 = Some 999 /\
  rendered_zIndex a 11 = Some 1000.
Proof. now vm_compute. Qed.

(** C8, amended.  A card that is dragged and not focused, with live
    position [p], is drawn fixed at [p], rotated by the product of its
    resting rotation and 0.3 as binary64 arithmetic gives it (for the
    rotation 1.5 of cards 18 and 22 that is 0.44999999999999996, not 0.45),
    scaled by 1.02, with no transition.  Its z-index is 999:
    below the focus layer 1001, above the static z-index of every card of
    the dataset, and above the z-index of every card at rest as long as the
    stored z-indexes are below 999. *)
Theorem dragging_style (a : App) (item : Fragment.t)
    (customPos : option Position.t) (p : Position.t) :
  dragPos (ui a) = Some p ->
  let st := getStyle a item false true customPos in
  (CSS.position st = Some "fixed" /\
   CSS.top st = Some (CSS.Px (Position.y p)) /\
   CSS.left st = Some (CSS.Px (Position.x p)) /\
   CSS.right st = Some (CSS.Str "auto") /\
   CSS.transform st
   = [CSS.rotate_number (Double.mul (Double.of_Q (Fragment.rotate item))
                                    (Double.of_Q 0.3%Q));
      CSS.scale 1.02%Q] /\
   CSS.zIndex st = 999 /\
   CSS.width st = Fragment.width item /\
   CSS.transition st = None) /\
  CSS.zIndex st < 1001 /\
  (forall other, other ∈ fragments -> Fragment.z other < CSS.zIndex st) /\
  (forall other, other ∈ fragments ->
     (forall k n, app_zIndexes a !! k = Some n -> n < 999) ->
     resting_zIndex a other < CSS.zIndex st).
Proof.
  intros Hp. cbv zeta. unfold getStyle. rewrite Hp. simpl.
  split; [now repeat split|]. split; [lia|]. split.
  - intros other Hin. pose proof (fragments_static_z other Hin). lia.
  - intros other Hin Hall. apply resting_zIndex_bound; [|exact Hall].
    pose proof (fragments_static_z other Hin). lia.
Qed.

Lemma dragging_style_witness :
  let a := run (start true empty_storage)
               [PointerDown 22 (MouseEvent 100 100) (DOMRect.mk 100 100);
                PointerMove (MouseEvent 250 180)] in
  let item := Fragment.mk 22 notebook
                (Some "There's no greater danger than playing it safe.")
                None None None
                "32%" (Some "5%") None "220px" 1.5%Q 6 false false None in
  item ∈ fragments /\
  CSS.zIndex (getStyle a item false true None) = 999 /\
  CSS.left (getStyle a item false true None) = Some (CSS.Px 250) /\
  CSS.transform (getStyle a item false true None)
  = [CSS.rotate_number (S754_finite false 8106479329266892 (-54));
     CSS.scale 1.02%Q] /\
  Double.of_Q 0.45%Q = S754_finite false 8106479329266893 (-54).
Proof.
  cbv zeta. set (a := run _ _). set (item := Fragment.mk _ _ _ _ _ _ _ _ _ _ _ _ _ _ _).
  destruct (dragging_style a item None (Position.mk 250 180))
    as ((_ & _ & Hl & _ & Ht & Hz & _) & _); [reflexivity|].
  split; [|split; [exact Hz | split; [exact Hl | split; [|reflexivity]]]].
  - apply list_elem_of_In. simpl. tauto.
  - rewrite Ht. reflexivity.
Defined.

(** ** JSON texts *)

Section JSONText.

Import JSON.

Local Open Scope string_scope.
#[local] Arguments String.append !s1 s2 : simpl nomatch.

Lemma append_assoc (s1 s2 s3 : string) : (s1 ++ s2) ++ s3 = s1 ++ (s2 ++ s3).
Proof. induction s1 as [|c s1 IH]; simpl; [reflexivity | now rewrite IH]. Qed.

Lemma append_nil_r (s : string) : s ++ "" = s.
Proof. induction s as [|c s IH]; simpl; [reflexivity | now rewrite IH]. Qed.

Lemma length_append (s1 s2 : string) :
  String.length (s1 ++ s2) = (String.length s1 + String.length s2)%nat.
Proof. induction s1 as [|c s1 IH]; simpl; [reflexivity | now rewrite IH]. Qed.

Lemma skip_ws_head (c : ascii) (s : string) :
  is_ws c = false -> skip_ws (String c s) = String c s.
Proof. intros H. simpl. now rewrite H. Qed.

Lemma skip_ws_value_end (rest : string) :
  value_end rest = true -> skip_ws rest = rest.
Proof.
  destruct rest as [|c rest]; [reflexivity|]. simpl.
  rewrite !orb_true_iff.
  intros [H | [H | [H | H]]]; try discriminate;
    apply Ascii.eqb_eq in H; subst; reflexivity.
Qed.

(** *** Numbers *)

Lemma value_end_number_end (rest : string) :
  value_end rest = true -> number_end rest = true.
Proof.
  destruct rest as [|c rest]; [reflexivity|]. simpl.
  rewrite !orb_true_iff.
  intros [H | [H | [H | H]]]; try discriminate;
    apply Ascii.eqb_eq in H; subst; reflexivity.
Qed.

Lemma span_digits_end (rest : string) :
  number_end rest = true -> span_digits rest = ("", rest).
Proof.
  destruct rest as [|c rest]; [reflexivity|]. simpl.
  intros H. apply andb_true_iff in H as [H _].
  apply negb_true_iff in H. now rewrite H.
Qed.

Lemma span_digits_uint (d : Decimal.uint) (rest : string) :
  number_end rest = true ->
  span_digits (NilEmpty.string_of_uint d ++ rest)
  = (NilEmpty.string_of_uint d, rest).
Proof.
  intros Hend. induction d; simpl; rewrite ?IHd; try reflexivity.
  now apply span_digits_end.
Qed.

Lemma starts_fraction_end (rest : string) :
  number_end rest = true -> starts_fraction rest = false.
Proof.
  destruct rest as [|c rest]; [reflexivity|].
  unfold number_end. intros H. apply andb_true_iff in H as [_ H].
  now apply negb_true_iff in H.
Qed.

(** The digits of a positive number do not start with a zero. *)
Lemma to_uint_head (p : positive) :
  exists c s, NilEmpty.string_of_uint (Pos.to_uint p) = String c s /\
              c <> "0"%char /\ c <> "-"%char.
Proof.
  pose proof (DecimalPos.Unsigned.to_of (Pos.to_uint p)) as Hnorm.
  rewrite DecimalPos.Unsigned.of_to in Hnorm. simpl in Hnorm.
  pose proof (DecimalPos.Unsigned.to_uint_nonzero p) as Hnz.
  assert (Hhead : Decimal.nzhead (Pos.to_uint p) = Pos.to_uint p).
  { rewrite Hnorm at 2. symmetry. apply DecimalFacts.unorm_nzhead.
    intros Hnil. apply Hnz. rewrite Hnorm. now apply DecimalFacts.unorm_0. }
  pose proof (DecimalFacts.nzhead_nonzero (Pos.to_uint p)) as Hno0.
  rewrite Hhead in Hno0.
  pose proof (DecimalPos.Unsigned.to_uint_nonnil p) as Hnn.
  destruct (Pos.to_uint p) as [|u|u|u|u|u|u|u|u|u|u]; simpl.
  1: exfalso; now apply Hnn.
  1: exfalso; now apply (Hno0 u).
  all: eexists _, _; split; [reflexivity | split; discriminate].
Qed.

Lemma of_uint_to_uint (p : positive) : Z.of_uint (Pos.to_uint p) = Z.pos p.
Proof. unfold Z.of_uint. now rewrite DecimalPos.Unsigned.of_to. Qed.

Lemma parse_unsigned_uint (p : positive) (rest : string) :
  number_end rest = true ->
  parse_unsigned (NilEmpty.string_of_uint (Pos.to_uint p) ++ rest)
  = Some (Z.pos p, rest).
Proof.
  intros Hend. destruct (to_uint_head p) as (c & s & Hs & Hc0 & Hcm).
  unfold parse_unsigned. rewrite (span_digits_uint _ _ Hend), Hs.
  assert (Hlz : leading_zero (String c s) = false).
  { unfold leading_zero. destruct s; [reflexivity|].
    now apply Ascii.eqb_neq. }
  rewrite Hlz, (starts_fraction_end _ Hend). simpl orb. cbv iota.
  rewrite <- Hs, NilEmpty.usu, of_uint_to_uint. reflexivity.
Qed.

Lemma parse_number_string_of_Z (n : Z) (rest : string) :
  number_end rest = true ->
  parse_number (string_of_Z n ++ rest) = Some (n, rest).
Proof.
  intros Hend.
  assert (Hs : forall p, NilZero.string_of_uint (Pos.to_uint p)
                         = NilEmpty.string_of_uint (Pos.to_uint p)).
  { intros p. unfold NilZero.string_of_uint.
    pose proof (DecimalPos.Unsigned.to_uint_nonnil p) as Hnn.
    now destruct (Pos.to_uint p). }
  destruct n as [|p|p]; unfold string_of_Z; simpl Z.to_int;
    unfold NilZero.string_of_int; rewrite ?Hs.
  - unfold parse_number, parse_unsigned. simpl.
    rewrite (span_digits_end _ Hend), (starts_fraction_end _ Hend).
    reflexivity.
  - pose proof (parse_unsigned_uint p rest Hend) as Hu.
    destruct (to_uint_head p) as (c & s & Hc & Hc0 & Hcm).
    rewrite Hc in *. unfold parse_number. simpl append in *. cbv iota.
    now rewrite (proj2 (Ascii.eqb_neq c "-") Hcm).
  - unfold parse_number. simpl append. cbv iota.
    rewrite Ascii.eqb_refl. now rewrite (parse_unsigned_uint p rest Hend).
Qed.

(** *** Strings *)

Lemma escape_plain (s : string) : plain s = true -> escape s = s.
Proof.
  induction s as [|c s IH]; [reflexivity|]. simpl.
  intros H. apply andb_true_iff in H as [Hc Hs].
  unfold plain_char in Hc. apply andb_true_iff in Hc as [Hc _].
  apply andb_true_iff in Hc as [Hq Hb].
  apply negb_true_iff in Hq, Hb. rewrite Hq, Hb. simpl. now rewrite IH.
Qed.

Lemma parse_string_body_plain (s rest : string) :
  plain s = true -> parse_string_body (s ++ String DQ rest) = Some (s, rest).
Proof.
  induction s as [|c s IH]; [reflexivity|]. simpl.
  intros H. apply andb_true_iff in H as [Hc Hs].
  unfold plain_char in Hc. apply andb_true_iff in Hc as [Hc Hctl].
  apply andb_true_iff in Hc as [Hq Hb].
  apply negb_true_iff in Hq, Hb, Hctl. rewrite Hq, Hb, Hctl.
  now rewrite IH.
Qed.

Lemma quote_plain (s rest : string) :
  plain s = true -> quote s ++ rest = String DQ (s ++ String DQ rest).
Proof.
  intros H. unfold quote. rewrite (escape_plain s H). simpl.
  now rewrite append_assoc.
Qed.

(** *** The first character of a printed value *)

Lemma value_head_cases (c : ascii) :
  value_head c = true ->
  In c ["0"; "1"; "2"; "3"; "4"; "5"; "6"; "7"; "8"; "9";
        "-"; "n"; "t"; "f"; DQ; "["; "{"]%char.
Proof.
  unfold value_head, is_digit. rewrite orb_true_iff, !existsb_exists.
  intros [(x & Hin & Hx) | (x & Hin & Hx)]; apply Ascii.eqb_eq in Hx; subst x;
    simpl in *; tauto.
Qed.

Lemma string_of_uint_head (d : Decimal.uint) :
  d <> Decimal.Nil ->
  exists c s, NilEmpty.string_of_uint d = String c s /\ is_digit c = true.
Proof.
  destruct d; [congruence|..]; intros _; now eexists _, _.
Qed.

Lemma string_of_Z_head (n : Z) :
  exists c s, string_of_Z n = String c s /\
              (is_digit c = true \/ c = "-"%char).
Proof.
  assert (Hs : forall p, NilZero.string_of_uint (Pos.to_uint p)
                         = NilEmpty.string_of_uint (Pos.to_uint p)).
  { intros p. unfold NilZero.string_of_uint.
    pose proof (DecimalPos.Unsigned.to_uint_nonnil p) as Hnn.
    now destruct (Pos.to_uint p). }
  destruct n as [|p|p]; unfold string_of_Z; simpl Z.to_int;
    unfold NilZero.string_of_int; rewrite ?Hs.
  - eexists _, _. split; [reflexivity | now left].
  - destruct (string_of_uint_head _ (DecimalPos.Unsigned.to_uint_nonnil p))
      as (c & s & -> & Hc).
    eexists _, _. split; [reflexivity | now left].
  - eexists _, _. split; [reflexivity | now right].
Qed.

Lemma stringify_head (v : value) :
  exists c s, stringify v = String c s /\ value_head c = true.
Proof.
  destruct v as [|[]|n|s|l|l]; try (now eexists _, _).
  destruct (string_of_Z_head n) as (c & s & Hs & [Hc | ->]).
  - exists c, s. split; [exact Hs|]. unfold value_head. now rewrite Hc.
  - now exists "-"%char, s.
Qed.

Lemma value_head_not_ws (c : ascii) : value_head c = true -> is_ws c = false.
Proof.
  intros H. apply value_head_cases in H. simpl in H.
  repeat (destruct H as [<- | H]; [reflexivity|]). destruct H.
Qed.

Lemma skip_ws_stringify (v : value) (rest : string) :
  skip_ws (stringify v ++ rest) = stringify v ++ rest.
Proof.
  destruct (stringify_head v) as (c & s & -> & Hc). simpl append.
  apply skip_ws_head, value_head_not_ws, Hc.
Qed.

(** *** Items separated by commas *)

Lemma join_cons (x : string) (l : list string) :
  join (x :: l) = x ++ match l with [] => "" | _ :: _ => "," ++ join l end.
Proof. destruct l; simpl; [now rewrite append_nil_r | reflexivity]. Qed.

Lemma join_length (l : list string) :
  Forall (fun x => (1 <= String.length x)%nat) l ->
  (length l <= String.length (join l))%nat.
Proof.
  induction 1 as [|x l Hx _ IH]; [simpl; lia|].
  rewrite join_cons, length_append. destruct l as [|y l]; [simpl; lia|].
  rewrite length_append. change (String.length ",") with 1%nat.
  change (length (x :: y :: l)) with (S (length (y :: l))). lia.
Qed.

(** *** The loops *)

Section LoopsOk.

Variable pv : string -> option (value * string).
Variable P : value -> Prop.
Hypothesis pv_ok : forall v rest,
  P v -> value_end rest = true -> pv (stringify v ++ rest) = Some (v, rest).

(** One member, then what follows it. *)
Lemma parse_members_member (n : nat) (k : string) (v : value) (tail : string) :
  plain k = true -> P v -> value_end tail = true ->
  parse_members pv (S n)
    (String DQ (k ++ String DQ (String ":" (stringify v ++ tail)))) =
  match tail with
  | String c r =>
      if Ascii.eqb c "}" then Some ([(k, v)], r)
      else if Ascii.eqb c "," then
        match parse_members pv n r with
        | Some (l, r') => Some ((k, v) :: l, r')
        | None => None
        end
      else None
  | EmptyString => None
  end.
Proof.
  intros Hk Hv Htail. cbn [parse_members].
  rewrite skip_ws_head by reflexivity. cbv iota.
  rewrite Ascii.eqb_refl, (parse_string_body_plain k _ Hk).
  rewrite skip_ws_head by reflexivity. cbv iota.
  rewrite Ascii.eqb_refl, skip_ws_stringify, (pv_ok v tail Hv Htail).
  now rewrite (skip_ws_value_end tail Htail).
Qed.

Lemma member_text (k : string) (v : value) (tail : string) :
  plain k = true ->
  (quote k ++ ":" ++ stringify v) ++ tail
  = String DQ (k ++ String DQ (String ":" (stringify v ++ tail))).
Proof.
  intros Hk. rewrite append_assoc, (quote_plain k _ Hk).
  now rewrite append_assoc.
Qed.

Lemma parse_members_ok (l : list (string * value)) :
  l <> [] ->
  Forall (fun kv => plain (fst kv) = true /\ P (snd kv)) l ->
  forall n rest, (length l <= n)%nat ->
  parse_members pv n
    (join (List.map (fun kv => quote (fst kv) ++ ":" ++ stringify (snd kv)) l)
     ++ String "}" rest)
  = Some (l, rest).
Proof.
  induction l as [|[k v] l IH]; [congruence|].
  intros _ Hall n rest Hn. inversion Hall as [|kv l' [Hk Hv] Hall']; subst.
  simpl in Hk, Hv. destruct n as [|n]; [simpl in Hn; lia|].
  rewrite map_cons, join_cons, append_assoc. cbn [fst snd].
  rewrite (member_text k v _ Hk).
  destruct l as [|kv' l].
  - simpl List.map. cbv iota. simpl append.
    now rewrite (parse_members_member n k v _ Hk Hv).
  - set (l' := kv' :: l) in *.
    assert (Htail : forall t, match List.map (fun kv =>
                       quote (fst kv) ++ ":" ++ stringify (snd kv)) l' with
                     | [] => "" | _ :: _ => "," ++ t end = String "," t)
      by reflexivity.
    rewrite Htail. simpl append.
    rewrite (parse_members_member n k v _ Hk Hv) by reflexivity.
    simpl. rewrite IH; [reflexivity | discriminate | exact Hall' |].
    rewrite length_cons in Hn. lia.
Qed.

Lemma parse_elements_element (n : nat) (v : value) (tail : string) :
  P v -> value_end tail = true ->
  parse_elements pv (S n) (stringify v ++ tail) =
  match tail with
  | String c r =>
      if Ascii.eqb c "]" then Some ([v], r)
      else if Ascii.eqb c "," then
        match parse_elements pv n r with
        | Some (l, r') => Some (v :: l, r')
        | None => None
        end
      else None
  | EmptyString => None
  end.
Proof.
  intros Hv Htail. cbn [parse_elements].
  rewrite skip_ws_stringify, (pv_ok v tail Hv Htail).
  now rewrite (skip_ws_value_end tail Htail).
Qed.

Lemma parse_elements_ok (l : list value) :
  l <> [] -> Forall P l ->
  forall n rest, (length l <= n)%nat ->
  parse_elements pv n (join (List.map stringify l) ++ String "]" rest)
  = Some (l, rest).
Proof.
  induction l as [|v l IH]; [congruence|].
  intros _ Hall n rest Hn. inversion Hall as [|v' l' Hv Hall']; subst.
  destruct n as [|n]; [simpl in Hn; lia|].
  rewrite map_cons, join_cons, append_assoc.
  destruct l as [|v' l].
  - simpl List.map. cbv iota. simpl append.
    now rewrite (parse_elements_element n v _ Hv).
  - set (l' := v' :: l) in *.
    assert (Htail : forall t, match List.map stringify l' with
                     | [] => "" | _ :: _ => "," ++ t end = String "," t)
      by reflexivity.
    rewrite Htail. simpl append.
    rewrite (parse_elements_element n v _ Hv) by reflexivity.
    simpl. rewrite IH; [reflexivity | discriminate | exact Hall' |].
    rewrite length_cons in Hn. lia.
Qed.

End LoopsOk.

(** *** Values *)

Lemma parse_value_obj (fuel : nat) (r : string) :
  parse_value (S fuel) (String "{" r) =
  match skip_ws r with
  | String c' r' =>
      if Ascii.eqb c' "}" then Some (JObj [], r')
      else
        match parse_members (parse_value fuel) (String.length r) r with
        | Some (l, r'') => Some (JObj l, r'')
        | None => None
        end
  | EmptyString => None
  end.
Proof. reflexivity. Qed.

Lemma parse_value_arr (fuel : nat) (r : string) :
  parse_value (S fuel) (String "[" r) =
  match skip_ws r with
  | String c' r' =>
      if Ascii.eqb c' "]" then Some (JArr [], r')
      else
        match parse_elements (parse_value fuel) (String.length r) r with
        | Some (l, r'') => Some (JArr l, r'')
        | None => None
        end
  | EmptyString => None
  end.
Proof. reflexivity. Qed.

Lemma parse_value_str (fuel : nat) (r : string) :
  parse_value (S fuel) (String DQ r) =
  match parse_string_body r with
  | Some (t, r') => Some (JStr t, r')
  | None => None
  end.
Proof. reflexivity. Qed.

Lemma parse_value_num (fuel : nat) (c : ascii) (s : string) :
  is_digit c = true \/ c = "-"%char ->
  parse_value (S fuel) (String c s) =
  match parse_number (String c s) with
  | Some (n, r') => Some (JNum n, r')
  | None => None
  end.
Proof.
  intros Hc.
  assert (Hin : In c ["0"; "1"; "2"; "3"; "4"; "5"; "6"; "7"; "8"; "9"; "-"]%char).
  { destruct Hc as [Hc | ->]; [|simpl; tauto].
    unfold is_digit in Hc. apply existsb_exists in Hc as (x & Hin & Hx).
    apply Ascii.eqb_eq in Hx. subst x. simpl in *. tauto. }
  simpl in Hin.
  repeat (destruct Hin as [<- | Hin]; [reflexivity|]). destruct Hin.
Qed.

Lemma value_head_not_closing (c : ascii) :
  value_head c = true -> Ascii.eqb c "]" = false /\ Ascii.eqb c "}" = false.
Proof.
  intros H. apply value_head_cases in H. simpl in H.
  repeat (destruct H as [<- | H]; [now split|]). destruct H.
Qed.

Lemma join_elements_head (l : list value) (tail : string) :
  l <> [] ->
  exists c s, join (List.map stringify l) ++ tail = String c s /\
              value_head c = true.
Proof.
  destruct l as [|v l]; [congruence|]. intros _.
  rewrite map_cons, join_cons, append_assoc.
  destruct (stringify_head v) as (c & s & -> & Hc). simpl append.
  now eexists _, _.
Qed.

Lemma join_members_head (l : list (string * value)) (tail : string) :
  l <> [] ->
  exists s, join (List.map (fun kv => quote (fst kv) ++ ":" ++ stringify (snd kv)) l)
            ++ tail = String DQ s.
Proof.
  destruct l as [|kv l]; [congruence|]. intros _.
  rewrite map_cons, join_cons, append_assoc. unfold quote. simpl append.
  now eexists.
Qed.

(** Printing a well-formed value and parsing the text gives the value
    back, with enough fuel for its depth. *)
Lemma parse_value_stringify (d : nat) :
  forall v, wf d v ->
  forall fuel rest, (d <= fuel)%nat -> value_end rest = true ->
  parse_value fuel (stringify v ++ rest) = Some (v, rest).
Proof.
  induction d as [|d IH]; intros v Hwf; [destruct Hwf|].
  intros fuel rest Hfuel Hend. destruct fuel as [|fuel]; [lia|].
  assert (Hpv : forall v' rest', wf d v' -> value_end rest' = true ->
                parse_value fuel (stringify v' ++ rest') = Some (v', rest')).
  { intros v' rest' Hv' Hr'. apply IH; [exact Hv' | lia | exact Hr']. }
  destruct v as [|[]|n|s|l|l]; try reflexivity.
  - (* number *)
    destruct (string_of_Z_head n) as (c & s & Hs & Hc).
    change (stringify (JNum n)) with (string_of_Z n).
    pose proof (parse_number_string_of_Z n rest (value_end_number_end _ Hend))
      as Hnum.
    rewrite Hs in *. simpl append in *.
    now rewrite (parse_value_num fuel c _ Hc), Hnum.
  - (* string *)
    change (stringify (JStr s)) with (quote s).
    simpl in Hwf. rewrite (quote_plain s rest Hwf), parse_value_str.
    now rewrite (parse_string_body_plain s rest Hwf).
  - (* array *)
    simpl in Hwf.
    change (stringify (JArr l) ++ rest)
      with (String "[" ((join (List.map stringify l) ++ "]") ++ rest)).
    rewrite append_assoc. simpl (_ ++ rest). rewrite parse_value_arr.
    destruct l as [|v l]; [reflexivity|].
    destruct (join_elements_head (v :: l) (String "]" rest))
      as (c & s & Hs & Hc); [discriminate|].
    rewrite (parse_elements_ok _ (wf d) Hpv (v :: l)); try discriminate;
      try exact Hwf.
    + rewrite Hs. rewrite (skip_ws_head c s (value_head_not_ws c Hc)).
      now rewrite (proj1 (value_head_not_closing c Hc)).
    + rewrite length_append.
      pose proof (join_length (List.map stringify (v :: l))) as Hlen.
      rewrite length_map in Hlen. 
      assert (Hall : Forall (fun x => (1 <= String.length x)%nat)
                            (List.map stringify (v :: l))).
      { apply Forall_forall. intros x Hx.
        apply list_elem_of_In, in_map_iff in Hx as (v' & <- & _).
        destruct (stringify_head v') as (c' & s' & -> & _). simpl. lia. }
      specialize (Hlen Hall). lia.
  - (* object *)
    simpl in Hwf.
    change (stringify (JObj l) ++ rest)
      with (String "{" ((join (List.map (fun kv =>
              quote (fst kv) ++ ":" ++ stringify (snd kv)) l) ++ "}") ++ rest)).
    rewrite append_assoc. simpl (_ ++ rest). rewrite parse_value_obj.
    destruct l as [|kv l]; [reflexivity|].
    destruct (join_members_head (kv :: l) (String "}" rest))
      as (s & Hs); [discriminate|].
    rewrite (parse_members_ok _ (wf d) Hpv (kv :: l)); try discriminate;
      try exact Hwf.
    + rewrite Hs. now rewrite skip_ws_head.
    + rewrite length_append.
      pose proof (join_length (List.map (fun kv =>
              quote (fst kv) ++ ":" ++ stringify (snd kv)) (kv :: l))) as Hlen.
      rewrite length_map in Hlen.
      assert (Hall : Forall (fun x => (1 <= String.length x)%nat)
                            (List.map (fun kv =>
              quote (fst kv) ++ ":" ++ stringify (snd kv)) (kv :: l))).
      { apply Forall_forall. intros x Hx.
        apply list_elem_of_In, in_map_iff in Hx as (kv' & <- & _).
        unfold quote. simpl. lia. }
      specialize (Hlen Hall). lia.
Qed.

End JSONText.

(** ** The stored layout record *)

Section StoredLayout.

Local Open Scope string_scope.
#[local] Arguments String.append !s1 s2 : simpl nomatch.

Lemma plain_string_of_uint (d : Decimal.uint) :
  plain (NilEmpty.string_of_uint d) = true.
Proof. induction d; simpl; auto. Qed.

Lemma plain_string_of_Z (n : Z) : plain (JSON.string_of_Z n) = true.
Proof.
  destruct n as [|p|p]; unfold JSON.string_of_Z; simpl Z.to_int;
    unfold NilZero.string_of_int, NilZero.string_of_uint.
  - reflexivity.
  - pose proof (plain_string_of_uint (Pos.to_uint p)).
    now destruct (Pos.to_uint p).
  - pose proof (plain_string_of_uint (Pos.to_uint p)).
    now destruct (Pos.to_uint p).
Qed.

Lemma key_of_string_of_Z (k : Z) : key_of_string (JSON.string_of_Z k) = Some k.
Proof.
  unfold key_of_string.
  rewrite <- (append_nil_r (JSON.string_of_Z k)) at 1.
  rewrite parse_number_string_of_Z by reflexivity.
  now rewrite String.eqb_refl.
Qed.

Lemma Position_of_to_json (p : Position.t) :
  Position_of_json (Position_to_json p) = Some p.
Proof. now destruct p. Qed.

Section Records.

Context {V : Type} (enc : V -> JSON.value) (dec : JSON.value -> option V).
Hypothesis dec_enc : forall v, dec (enc v) = Some v.

Lemma Record_of_json_members (l : list (Z * V)) (acc : gmap Z V) :
  fold_left
    (fun acc kv =>
       m ← acc;
       match key_of_string (fst kv) with
       | Some k => e ← dec (snd kv); Some (<[k := e]> m)
       | None => Some m
       end)
    (List.map (fun kv => (JSON.string_of_Z (fst kv), enc (snd kv))) l)
    (Some acc)
  = Some (fold_left (fun m kv => <[fst kv := snd kv]> m) l acc).
Proof.
  revert acc. induction l as [|[k v] l IH]; intros acc; [reflexivity|].
  simpl. rewrite key_of_string_of_Z, dec_enc. simpl. apply IH.
Qed.

Lemma inserts_list_to_map (l : list (Z * V)) :
  fold_left (fun m kv => <[fst kv := snd kv]> m) l (∅ : gmap Z V)
  = list_to_map (reverse l).
Proof.
  induction l as [|kv l IH] using rev_ind; [reflexivity|].
  rewrite fold_left_app, reverse_snoc. simpl. now rewrite IH.
Qed.

Lemma Record_of_to_json (m : gmap Z V) : Record_of_json dec (Record_to_json enc m) = Some m.
Proof.
  unfold Record_of_json, Record_to_json.
  rewrite Record_of_json_members, inserts_list_to_map. f_equal.
  symmetry. apply list_to_map_flip.
  unfold entries. now rewrite reverse_Permutation, merge_sort_Permutation.
Qed.

Lemma wf_Record (d : nat) (m : gmap Z V) :
  (forall v, wf d (enc v)) -> wf (S d) (Record_to_json enc m).
Proof.
  intros Henc. simpl. apply Forall_forall. intros kv Hin.
  apply list_elem_of_In, in_map_iff in Hin as ([k v] & <- & _). simpl.
  split; [apply plain_string_of_Z | apply Henc].
Qed.

End Records.

Lemma LayoutData_of_to_json (d : LayoutData) :
  LayoutData_of_json (LayoutData_to_json d) = Some d.
Proof.
  destruct d as [ps zs mz]. unfold LayoutData_of_json, LayoutData_to_json.
  change (get "positions" _) with (Some (Record_to_json Position_to_json ps)).
  change (get "zIndexes" _) with (Some (Record_to_json JSON.JNum zs)).
  change (get "maxZ" _) with (Some (JSON.JNum mz)).
  cbn [mbind option_bind].
  rewrite (Record_of_to_json Position_to_json Position_of_json
             Position_of_to_json).
  cbn [mbind option_bind].
  now rewrite (Record_of_to_json JSON.JNum as_num (fun v => eq_refl)).
Qed.

Lemma wf_LayoutData (d : LayoutData) : wf 4 (LayoutData_to_json d).
Proof.
  unfold LayoutData_to_json.
  change (wf 4 (JSON.JObj ?l))
    with (Forall (fun kv => plain (fst kv) = true /\ wf 3 (snd kv)) l).
  repeat constructor.
  - apply (wf_Record Position_to_json 2). intros p. repeat constructor.
  - apply (wf_Record JSON.JNum 2). intros n. exact I.
Qed.

Lemma JSON_stringify_starts (d : LayoutData) :
  exists s, JSON_stringify d
            = String "{" (String JSON.DQ (String "p" (String "o" s))).
Proof. eexists. reflexivity. Qed.

Lemma parse_JSON_stringify (d : LayoutData) :
  JSON.parse (JSON_stringify d) = Some (LayoutData_to_json d).
Proof.
  destruct (JSON_stringify_starts d) as (s & Hs).
  assert (Hlen : (4 <= String.length (JSON_stringify d))%nat)
    by (rewrite Hs; simpl; lia).
  unfold JSON.parse, JSON_stringify in *.
  set (v := LayoutData_to_json d) in *.
  assert (E1 : JSON.skip_ws (JSON.stringify v) = JSON.stringify v).
  { rewrite <- (append_nil_r (JSON.stringify v)). apply skip_ws_stringify. }
  assert (E2 : JSON.parse_value (String.length (JSON.stringify v))
                 (JSON.stringify v) = Some (v, "")).
  { rewrite <- (append_nil_r (JSON.stringify v)) at 2.
    apply (parse_value_stringify 4); [apply wf_LayoutData | exact Hlen |].
    reflexivity. }
  now rewrite E1, E2.
Qed.

(** Stringify then parse is the identity on layout records. *)
Lemma JSON_parse_stringify (d : LayoutData) :
  JSON_parse (JSON_stringify d) = Some d.
Proof.
  unfold JSON_parse. rewrite parse_JSON_stringify. simpl.
  apply LayoutData_of_to_json.
Qed.

(** What a page loaded later finds in a storage area that holds the text
    of [d]. *)
Lemma load_stored (d : LayoutData) (ls : Storage.t) :
  Storage.enabled ls = true ->
  Storage.items ls !! KEY = Some (JSON_stringify d) ->
  load ls = Some d.
Proof.
  intros Hen Hitem. unfold load, Storage.getItem. rewrite Hen, Hitem.
  assert (Htext : match Some (JSON_stringify d) with
                  | Some EmptyString | None => "null"
                  | Some s => s
                  end = JSON_stringify d).
  { destruct (JSON_stringify_starts d) as (s & Hs). now rewrite Hs. }
  cbv zeta. rewrite Htext. apply JSON_parse_stringify.
Qed.

End StoredLayout.

(** ** JSON texts with doubles *)

Section JSONText64.

Import JSON.

Local Open Scope string_scope.
#[local] Arguments String.append !s1 s2 : simpl nomatch.

(** *** Numbers *)

Lemma same_eq (x y : Double.t) : Number.same x y = true -> x = y.
Proof.
  destruct x as [s1|s1| |s1 m1 e1], y as [s2|s2| |s2 m2 e2]; simpl;
    try discriminate; try reflexivity.
  - intros H. apply Bool.eqb_prop in H. now subst.
  - intros H. apply Bool.eqb_prop in H. now subst.
  - rewrite !andb_true_iff. intros [[H1 H2] H3].
    apply Bool.eqb_prop in H1. apply Pos.eqb_eq in H2. apply Z.eqb_eq in H3.
    now subst.
Qed.

Lemma span_digits_head (s ip r : string) :
  span_digits s = (ip, r) -> ip <> "" ->
  exists c s', s = String c s' /\ is_digit c = true.
Proof.
  destruct s as [|c s']; simpl; [intros [= <- _]; congruence|].
  destruct (is_digit c) eqn:Hc; [now eexists _, _|].
  intros [= <- _]. congruence.
Qed.

Lemma of_unsigned_head (neg : bool) (s : string) (y : Double.t) :
  Number.of_unsigned neg s = Some y ->
  exists c s', s = String c s' /\ is_digit c = true.
Proof.
  unfold Number.of_unsigned.
  destruct (span_digits s) as [ip r] eqn:Hsp.
  destruct ip as [|c ip]; [discriminate|]. intros _.
  apply (span_digits_head s _ r Hsp). discriminate.
Qed.

(** A number token starts with a digit or a minus sign. *)
Lemma of_token_head (tok : string) (y : Double.t) :
  Number.of_token tok = Some y ->
  exists c s, tok = String c s /\ (is_digit c = true \/ c = "-"%char).
Proof.
  destruct tok as [|c r]; [discriminate|]. simpl.
  destruct (Ascii.eqb_spec c "-") as [-> | Hne].
  - intros _. eexists _, _. split; [reflexivity | now right].
  - intros H. destruct (of_unsigned_head _ _ _ H) as (c' & s' & [= <- <-] & Hc).
    eexists _, _. split; [reflexivity | now left].
Qed.

Lemma value_end_not_number (rest : string) :
  value_end rest = true -> JSON64.span_number rest = ("", rest).
Proof.
  destruct rest as [|c rest]; [reflexivity|]. simpl.
  rewrite !orb_true_iff.
  intros [H | [H | [H | H]]]; try discriminate;
    apply Ascii.eqb_eq in H; subst; reflexivity.
Qed.

Lemma span_number_token (tok rest : string) :
  Number.all_number_chars tok = true -> value_end rest = true ->
  JSON64.span_number (tok ++ rest) = (tok, rest).
Proof.
  intros Htok Hend. induction tok as [|c tok IH]; simpl.
  - now apply value_end_not_number.
  - simpl in Htok. apply andb_true_iff in Htok as [Hc Htok].
    now rewrite Hc, IH.
Qed.

Lemma round_trips_spec (x : Double.t) :
  Number.round_trips x = true ->
  Number.is_finite x = true /\
  Number.all_number_chars (Number.toString x) = true /\
  Number.of_token (Number.toString x) = Some x.
Proof.
  unfold Number.round_trips. rewrite !andb_true_iff. intros [[H1 H2] H3].
  split; [exact H1|]. split; [exact H2|].
  destruct (Number.of_token (Number.toString x)) as [y|]; [|discriminate].
  now rewrite (same_eq y x H3).
Qed.

Lemma number_text_round_trips (x : Double.t) :
  Number.round_trips x = true -> JSON64.number_text x = Number.toString x.
Proof.
  intros H. destruct (round_trips_spec x H) as (Hf & _).
  unfold JSON64.number_text. now rewrite Hf.
Qed.

Lemma parse_number_text (x : Double.t) (rest : string) :
  Number.round_trips x = true -> value_end rest = true ->
  JSON64.parse_number (JSON64.number_text x ++ rest) = Some (x, rest).
Proof.
  intros H Hend. rewrite (number_text_round_trips x H).
  destruct (round_trips_spec x H) as (_ & Hch & Htok).
  unfold JSON64.parse_number. rewrite (span_number_token _ _ Hch Hend).
  now rewrite Htok.
Qed.

Lemma number_text_head (x : Double.t) :
  Number.round_trips x = true ->
  exists c s, JSON64.number_text x = String c s /\
              (is_digit c = true \/ c = "-"%char).
Proof.
  intros H. rewrite (number_text_round_trips x H).
  destruct (round_trips_spec x H) as (_ & _ & Htok).
  apply (of_token_head _ _ Htok).
Qed.

(** *** The first character of a printed value *)

Lemma stringify_head64 (d : nat) (v : JSON64.value) :
  wf64 d v ->
  exists c s, JSON64.stringify v = String c s /\ value_head c = true.
Proof.
  destruct d as [|d]; [intros []|].
  destruct v as [|[]|x|s|l|l]; try (now eexists _, _).
  simpl. intros Hx.
  destruct (number_text_head x Hx) as (c & s & Hs & [Hc | ->]).
  - exists c, s. split; [exact Hs|]. unfold value_head. now rewrite Hc.
  - now exists "-"%char, s.
Qed.

Lemma skip_ws_stringify64 (d : nat) (v : JSON64.value) (rest : string) :
  wf64 d v ->
  skip_ws (JSON64.stringify v ++ rest) = JSON64.stringify v ++ rest.
Proof.
  intros Hwf. destruct (stringify_head64 d v Hwf) as (c & s & -> & Hc).
  simpl append. apply skip_ws_head, value_head_not_ws, Hc.
Qed.

(** *** The loops *)

Section LoopsOk64.

Variable pv : string -> option (JSON64.value * string).
Variable d : nat.
Hypothesis pv_ok : forall v rest,
  wf64 d v -> value_end rest = true ->
  pv (JSON64.stringify v ++ rest) = Some (v, rest).

Lemma parse_members_member64 (n : nat) (k : string) (v : JSON64.value)
    (tail : string) :
  plain k = true -> wf64 d v -> value_end tail = true ->
  JSON64.parse_members pv (S n)
    (String DQ (k ++ String DQ (String ":" (JSON64.stringify v ++ tail)))) =
  match tail with
  | String c r =>
      if Ascii.eqb c "}" then Some ([(k, v)], r)
      else if Ascii.eqb c "," then
        match JSON64.parse_members pv n r with
        | Some (l, r') => Some ((k, v) :: l, r')
        | None => None
        end
      else None
  | EmptyString => None
  end.
Proof.
  intros Hk Hv Htail. cbn [JSON64.parse_members].
  rewrite skip_ws_head by reflexivity. cbv iota.
  rewrite Ascii.eqb_refl, (parse_string_body_plain k _ Hk).
  rewrite skip_ws_head by reflexivity. cbv iota.
  rewrite Ascii.eqb_refl, (skip_ws_stringify64 d v _ Hv),
    (pv_ok v tail Hv Htail).
  now rewrite (skip_ws_value_end tail Htail).
Qed.

Lemma member_text64 (k : string) (v : JSON64.value) (tail : string) :
  plain k = true ->
  (quote k ++ ":" ++ JSON64.stringify v) ++ tail
  = String DQ (k ++ String DQ (String ":" (JSON64.stringify v ++ tail))).
Proof.
  intros Hk. rewrite append_assoc, (quote_plain k _ Hk).
  now rewrite append_assoc.
Qed.

Lemma parse_members_ok64 (l : list (string * JSON64.value)) :
  l <> [] ->
  Forall (fun kv => plain (fst kv) = true /\ wf64 d (snd kv)) l ->
  forall n rest, (length l <= n)%nat ->
  JSON64.parse_members pv n
    (join (List.map (fun kv => quote (fst kv) ++ ":"
                               ++ JSON64.stringify (snd kv)) l)
     ++ String "}" rest)
  = Some (l, rest).
Proof.
  induction l as [|[k v] l IH]; [congruence|].
  intros _ Hall n rest Hn. inversion Hall as [|kv l' [Hk Hv] Hall']; subst.
  simpl in Hk, Hv. destruct n as [|n]; [simpl in Hn; lia|].
  rewrite map_cons, join_cons, append_assoc. cbn [fst snd].
  rewrite (member_text64 k v _ Hk).
  destruct l as [|kv' l].
  - simpl List.map. cbv iota. simpl append.
    now rewrite (parse_members_member64 n k v _ Hk Hv).
  - set (l' := kv' :: l) in *.
    assert (Htail : forall t, match List.map (fun kv =>
                       quote (fst kv) ++ ":" ++ JSON64.stringify (snd kv)) l' with
                     | [] => "" | _ :: _ => "," ++ t end = String "," t)
      by reflexivity.
    rewrite Htail. simpl append.
    rewrite (parse_members_member64 n k v _ Hk Hv) by reflexivity.
    simpl. rewrite IH; [reflexivity | discriminate | exact Hall' |].
    rewrite length_cons in Hn. lia.
Qed.

Lemma parse_elements_element64 (n : nat) (v : JSON64.value) (tail : string) :
  wf64 d v -> value_end tail = true ->
  JSON64.parse_elements pv (S n) (JSON64.stringify v ++ tail) =
  match tail with
  | String c r =>
      if Ascii.eqb c "]" then Some ([v], r)
      else if Ascii.eqb c "," then
        match JSON64.parse_elements pv n r with
        | Some (l, r') => Some (v :: l, r')
        | None => None
        end
      else None
  | EmptyString => None
  end.
Proof.
  intros Hv Htail. cbn [JSON64.parse_elements].
  rewrite (skip_ws_stringify64 d v _ Hv), (pv_ok v tail Hv Htail).
  now rewrite (skip_ws_value_end tail Htail).
Qed.

Lemma parse_elements_ok64 (l : list JSON64.value) :
  l <> [] -> Forall (wf64 d) l ->
  forall n rest, (length l <= n)%nat ->
  JSON64.parse_elements pv n
    (join (List.map JSON64.stringify l) ++ String "]" rest)
  = Some (l, rest).
Proof.
  induction l as [|v l IH]; [congruence|].
  intros _ Hall n rest Hn. inversion Hall as [|v' l' Hv Hall']; subst.
  destruct n as [|n]; [simpl in Hn; lia|].
  rewrite map_cons, join_cons, append_assoc.
  destruct l as [|v' l].
  - simpl List.map. cbv iota. simpl append.
    now rewrite (parse_elements_element64 n v _ Hv).
  - set (l' := v' :: l) in *.
    assert (Htail : forall t, match List.map JSON64.stringify l' with
                     | [] => "" | _ :: _ => "," ++ t end = String "," t)
      by reflexivity.
    rewrite Htail. simpl append.
    rewrite (parse_elements_element64 n v _ Hv) by reflexivity.
    simpl. rewrite IH; [reflexivity | discriminate | exact Hall' |].
    rewrite length_cons in Hn. lia.
Qed.

End LoopsOk64.

(** *** Values *)

Lemma parse_value_obj64 (fuel : nat) (r : string) :
  JSON64.parse_value (S fuel) (String "{" r) =
  match skip_ws r with
  | String c' r' =>
      if Ascii.eqb c' "}" then Some (JSON64.JObj [], r')
      else
        match JSON64.parse_members (JSON64.parse_value fuel)
                (String.length r) r with
        | Some (l, r'') => Some (JSON64.JObj l, r'')
        | None => None
        end
  | EmptyString => None
  end.
Proof. reflexivity. Qed.

Lemma parse_value_arr64 (fuel : nat) (r : string) :
  JSON64.parse_value (S fuel) (String "[" r) =
  match skip_ws r with
  | String c' r' =>
      if Ascii.eqb c' "]" then Some (JSON64.JArr [], r')
      else
        match JSON64.parse_elements (JSON64.parse_value fuel)
                (String.length r) r with
        | Some (l, r'') => Some (JSON64.JArr l, r'')
        | None => None
        end
  | EmptyString => None
  end.
Proof. reflexivity. Qed.

Lemma parse_value_str64 (fuel : nat) (r : string) :
  JSON64.parse_value (S fuel) (String DQ r) =
  match parse_string_body r with
  | Some (t, r') => Some (JSON64.JStr t, r')
  | None => None
  end.
Proof. reflexivity. Qed.

Lemma parse_value_num64 (fuel : nat) (c : ascii) (s : string) :
  is_digit c = true \/ c = "-"%char ->
  JSON64.parse_value (S fuel) (String c s) =
  match JSON64.parse_number (String c s) with
  | Some (x, r') => Some (JSON64.JNum x, r')
  | None => None
  end.
Proof.
  intros Hc.
  assert (Hin : In c ["0"; "1"; "2"; "3"; "4"; "5"; "6"; "7"; "8"; "9"; "-"]%char).
  { destruct Hc as [Hc | ->]; [|simpl; tauto].
    unfold is_digit in Hc. apply existsb_exists in Hc as (x & Hin & Hx).
    apply Ascii.eqb_eq in Hx. subst x. simpl in *. tauto. }
  simpl in Hin.
  repeat (destruct Hin as [<- | Hin]; [reflexivity|]). destruct Hin.
Qed.

Lemma join_elements_head64 (d : nat) (l : list JSON64.value) (tail : string) :
  l <> [] -> Forall (wf64 d) l ->
  exists c s, join (List.map JSON64.stringify l) ++ tail = String c s /\
              value_head c = true.
Proof.
  destruct l as [|v l]; [congruence|]. intros _ Hall.
  inversion Hall as [|v' l' Hv _]; subst.
  rewrite map_cons, join_cons, append_assoc.
  destruct (stringify_head64 d v Hv) as (c & s & -> & Hc). simpl append.
  now eexists _, _.
Qed.

Lemma join_members_head64 (l : list (string * JSON64.value)) (tail : string) :
  l <> [] ->
  exists s, join (List.map (fun kv => quote (fst kv) ++ ":"
                                      ++ JSON64.stringify (snd kv)) l)
            ++ tail = String DQ s.
Proof.
  destruct l as [|kv l]; [congruence|]. intros _.
  rewrite map_cons, join_cons, append_assoc. unfold quote. simpl append.
  now eexists.
Qed.

(** Printing a well-formed value and parsing the text gives the value
    back, with enough fuel for its depth. *)
Lemma parse_value_stringify64 (d : nat) :
  forall v, wf64 d v ->
  forall fuel rest, (d <= fuel)%nat -> value_end rest = true ->
  JSON64.parse_value fuel (JSON64.stringify v ++ rest) = Some (v, rest).
Proof.
  induction d as [|d IH]; intros v Hwf; [destruct Hwf|].
  intros fuel rest Hfuel Hend. destruct fuel as [|fuel]; [lia|].
  assert (Hpv : forall v' rest', wf64 d v' -> value_end rest' = true ->
                JSON64.parse_value fuel (JSON64.stringify v' ++ rest')
                = Some (v', rest')).
  { intros v' rest' Hv' Hr'. apply IH; [exact Hv' | lia | exact Hr']. }
  destruct v as [|[]|x|s|l|l]; try reflexivity.
  - (* number *)
    simpl in Hwf.
    destruct (number_text_head x Hwf) as (c & s & Hs & Hc).
    change (JSON64.stringify (JSON64.JNum x)) with (JSON64.number_text x).
    pose proof (parse_number_text x rest Hwf Hend) as Hnum.
    rewrite Hs in *. simpl append in *.
    now rewrite (parse_value_num64 fuel c _ Hc), Hnum.
  - (* string *)
    change (JSON64.stringify (JSON64.JStr s)) with (quote s).
    simpl in Hwf. rewrite (quote_plain s rest Hwf), parse_value_str64.
    now rewrite (parse_string_body_plain s rest Hwf).
  - (* array *)
    simpl in Hwf.
    change (JSON64.stringify (JSON64.JArr l) ++ rest)
      with (String "[" ((join (List.map JSON64.stringify l) ++ "]") ++ rest)).
    rewrite append_assoc. simpl (_ ++ rest). rewrite parse_value_arr64.
    destruct l as [|v l]; [reflexivity|].
    destruct (join_elements_head64 d (v :: l) (String "]" rest))
      as (c & s & Hs & Hc); [discriminate | exact Hwf |].
    rewrite (parse_elements_ok64 _ d Hpv (v :: l)); try discriminate;
      try exact Hwf.
    + rewrite Hs. rewrite (skip_ws_head c s (value_head_not_ws c Hc)).
      now rewrite (proj1 (value_head_not_closing c Hc)).
    + rewrite length_append.
      pose proof (join_length (List.map JSON64.stringify (v :: l))) as Hlen.
      rewrite length_map in Hlen.
      assert (Hall : Forall (fun x => (1 <= String.length x)%nat)
                            (List.map JSON64.stringify (v :: l))).
      { apply Forall_forall. intros x Hx.
        apply list_elem_of_In, in_map_iff in Hx as (v' & <- & Hv').
        rewrite Forall_forall in Hwf.
        destruct (stringify_head64 d v' (Hwf v' (proj2 (list_elem_of_In _ _) Hv')))
          as (c' & s' & -> & _).
        simpl. lia. }
      specialize (Hlen Hall). lia.
  - (* object *)
    simpl in Hwf.
    change (JSON64.stringify (JSON64.JObj l) ++ rest)
      with (String "{" ((join (List.map (fun kv =>
              quote (fst kv) ++ ":" ++ JSON64.stringify (snd kv)) l) ++ "}")
                        ++ rest)).
    rewrite append_assoc. simpl (_ ++ rest). rewrite parse_value_obj64.
    destruct l as [|kv l]; [reflexivity|].
    destruct (join_members_head64 (kv :: l) (String "}" rest))
      as (s & Hs); [discriminate|].
    rewrite (parse_members_ok64 _ d Hpv (kv :: l)); try discriminate;
      try exact Hwf.
    + rewrite Hs. now rewrite skip_ws_head.
    + rewrite length_append.
      pose proof (join_length (List.map (fun kv =>
              quote (fst kv) ++ ":" ++ JSON64.stringify (snd kv)) (kv :: l)))
        as Hlen.
      rewrite length_map in Hlen.
      assert (Hall : Forall (fun x => (1 <= String.length x)%nat)
                            (List.map (fun kv =>
              quote (fst kv) ++ ":" ++ JSON64.stringify (snd kv)) (kv :: l))).
      { apply Forall_forall. intros x Hx.
        apply list_elem_of_In, in_map_iff in Hx as (kv' & <- & _).
        unfold quote. simpl. lia. }
      specialize (Hlen Hall). lia.
Qed.

End JSONText64.

(** ** The stored record with doubles *)

Section Stored64.

Local Open Scope string_scope.
#[local] Arguments String.append !s1 s2 : simpl nomatch.

Lemma elem_of_entries {V : Type} (m : gmap Z V) (k : Z) (v : V) :
  In (k, v) (entries m) -> m !! k = Some v.
Proof.
  intros Hin. apply elem_of_map_to_list.
  apply list_elem_of_In in Hin. unfold entries in Hin.
  now rewrite merge_sort_Permutation in Hin.
Qed.

Lemma wf64_Record {V : Type} (f : V -> JSON64.value) (d : nat) (m : gmap Z V) :
  (forall k v, m !! k = Some v -> wf64 d (f v)) ->
  wf64 (S d) (JS.Record_value f m).
Proof.
  intros Hf. simpl. apply Forall_forall. intros kv Hin.
  apply list_elem_of_In, in_map_iff in Hin as ([k v] & <- & Hin). simpl.
  split; [apply plain_string_of_Z|]. apply (Hf k), elem_of_entries, Hin.
Qed.

Lemma wf64_LayoutData (d : JS.LayoutData) :
  JS.numbers_ok d -> wf64 4 (JS.LayoutData_value d).
Proof.
  intros (Hps & Hzs & Hm). unfold JS.LayoutData_value.
  change (wf64 4 (JSON64.JObj ?l))
    with (Forall (fun kv => plain (fst kv) = true /\ wf64 3 (snd kv)) l).
  repeat constructor.
  - apply (wf64_Record JS.Position_value 2). intros k p Hp.
    destruct (Hps k p Hp) as [Hx Hy]. repeat constructor; assumption.
  - apply (wf64_Record JSON64.JNum 2). intros k z Hz. exact (Hzs k z Hz).
  - exact Hm.
Qed.

Lemma LayoutData_text_starts (d : JS.LayoutData) :
  exists s, JSON64.stringify (JS.LayoutData_value d)
            = String "{" (String JSON.DQ (String "p" (String "o" s))).
Proof. eexists. reflexivity. Qed.

Lemma parse_stringify64 (d : JS.LayoutData) :
  JS.numbers_ok d ->
  JSON64.parse (JSON64.stringify (JS.LayoutData_value d))
  = Some (JS.LayoutData_value d).
Proof.
  intros Hok. destruct (LayoutData_text_starts d) as (s & Hs).
  assert (Hlen : (4 <= String.length
                         (JSON64.stringify (JS.LayoutData_value d)))%nat)
    by (rewrite Hs; simpl; lia).
  pose proof (wf64_LayoutData d Hok) as Hwf.
  unfold JSON64.parse in *.
  set (v := JS.LayoutData_value d) in *.
  assert (E1 : JSON.skip_ws (JSON64.stringify v) = JSON64.stringify v).
  { rewrite <- (append_nil_r (JSON64.stringify v)).
    apply (skip_ws_stringify64 4), Hwf. }
  assert (E2 : JSON64.parse_value (String.length (JSON64.stringify v))
                 (JSON64.stringify v) = Some (v, "")).
  { rewrite <- (append_nil_r (JSON64.stringify v)) at 2.
    apply (parse_value_stringify64 4); [exact Hwf | exact Hlen | reflexivity]. }
  now rewrite E1, E2.
Qed.

(** What a page loaded later finds in a storage area that holds the text
    of the record [d]. *)
Lemma load_stored64 (d : JS.LayoutData) (ls : Storage.t) :
  JS.numbers_ok d ->
  Storage.enabled ls = true ->
  Storage.items ls !! KEY = Some (JSON64.stringify (JS.LayoutData_value d)) ->
  JS.load ls = JS.LayoutData_value d.
Proof.
  intros Hok Hen Hitem. unfold JS.load, Storage.getItem. rewrite Hen, Hitem.
  assert (Htext : match Some (JSON64.stringify (JS.LayoutData_value d)) with
                  | Some EmptyString | None => "null"
                  | Some s => s
                  end = JSON64.stringify (JS.LayoutData_value d)).
  { destruct (LayoutData_text_starts d) as (s & Hs). now rewrite Hs. }
  cbv zeta. rewrite Htext. now rewrite (parse_stringify64 d Hok).
Qed.

Lemma for_each_call_listener64 (l : list nat) (w : JS.World) :
  for_each l JS.call_listener w =
  (JS.mkWorld (JS.store w) (JS.localStorage w)
     (JS.calls w ++ List.map (fun cb => (cb, JS.getSnapshot (JS.store w))) l),
   Normal tt).
Proof.
  revert w. induction l as [|cb l IH]; intros w; simpl.
  - unfold ret. rewrite app_nil_r. now destruct w.
  - unfold bind, JS.call_listener, modify. rewrite IH. simpl.
    now rewrite <- app_assoc.
Qed.

(** The storage area and the store a [save] leaves. *)
Lemma save_world64 (v : JSON64.value) (w : JS.World) :
  let w' := fst (JS.save v w) in
  if JS.write_succeeds v w then
    JS.localStorage w'
    = Storage.mk (<[KEY := JSON64.stringify v]>
                    (Storage.items (JS.localStorage w)))
                 (Storage.enabled (JS.localStorage w))
                 (Storage.quota (JS.localStorage w)) /\
    JS.data (JS.store w') = v /\
    JS.getSnapshot (JS.store w')
    = JS.Snapshot.mk v (JS.isLoaded (JS.store w)) /\
    JS.isLoaded (JS.store w') = JS.isLoaded (JS.store w)
  else w' = w.
Proof.
  cbv zeta. unfold JS.save, try_catch, bind, JS.localStorage_setItem,
    Storage.setItem, JS.write_succeeds.
  destruct (Storage.fits KEY (JSON64.stringify v) (JS.localStorage w));
    [|reflexivity].
  unfold JS.assign_data, modify. rewrite for_each_call_listener64.
  simpl. tauto.
Qed.

Lemma map_inj_eq {A B : Type} (g : A -> B) (l1 l2 : list A) :
  (forall a b, g a = g b -> a = b) ->
  List.map g l1 = List.map g l2 -> l1 = l2.
Proof.
  intros Hg. revert l2. induction l1 as [|a l1 IH]; intros [|b l2] H;
    try discriminate; [reflexivity|].
  simpl in H. injection H as Hab Hl. f_equal; [now apply Hg | now apply IH].
Qed.

Lemma string_of_Z_inj (k1 k2 : Z) :
  JSON.string_of_Z k1 = JSON.string_of_Z k2 -> k1 = k2.
Proof.
  intros H. apply (f_equal key_of_string) in H.
  rewrite !key_of_string_of_Z in H. congruence.
Qed.

Lemma Record_members_inj {V : Type} (f : V -> JSON64.value) (m1 m2 : gmap Z V) :
  (forall a b, f a = f b -> a = b) ->
  List.map (fun kv => (JSON.string_of_Z (fst kv), f (snd kv))) (entries m1)
  = List.map (fun kv => (JSON.string_of_Z (fst kv), f (snd kv))) (entries m2) ->
  m1 = m2.
Proof.
  intros Hf H. apply map_inj_eq in H.
  - apply map_to_list_inj. unfold entries in H.
    rewrite <- (merge_sort_Permutation by_key (map_to_list m1)).
    rewrite <- (merge_sort_Permutation by_key (map_to_list m2)).
    now rewrite H.
  - intros [k1 v1] [k2 v2] [= Hk Hv].
    apply string_of_Z_inj in Hk. apply Hf in Hv. now subst.
Qed.

(** Different records are different values. *)
Lemma LayoutData_value_inj (d1 d2 : JS.LayoutData) :
  JS.LayoutData_value d1 = JS.LayoutData_value d2 -> d1 = d2.
Proof.
  destruct d1 as [ps1 zs1 m1], d2 as [ps2 zs2 m2].
  unfold JS.LayoutData_value, JS.Record_value. simpl. intros [= Hps Hzs Hm].
  apply (Record_members_inj JS.Position_value) in Hps.
  - apply (Record_members_inj JSON64.JNum) in Hzs; [now subst|].
    now intros a b [= ->].
  - intros [x1 y1] [x2 y2] [= -> ->]. reflexivity.
Qed.

End Stored64.

(** How numbers are written: the shortest decimal that reads back. *)
Example toString_examples :
  Number.toString (Double.of_Q 0.1%Q) = "0.1"%string /\
  Number.toString (Double.of_Q 129.60000610351562%Q)
  = "129.60000610351562"%string /\
  Number.toString (Double.mul (Double.of_Q 1.5%Q) (Double.of_Q 0.3%Q))
  = "0.44999999999999996"%string /\
  Number.toString (Double.of_Z 22) = "22"%string /\
  Number.toString (Double.of_Q 0.0000001%Q) = "1e-7"%string /\
  JSON64.number_text S754_nan = "null"%string.
Proof. now vm_compute. Qed.

(** C4.  For every layout record [state] whose numbers are doubles that
    survive being written and read (the finite ones other than the
    negative zero), the text [JSON.stringify] makes of it parses back to
    the same value; and when [save(state)] has written it, a page loaded
    afterwards over the same storage area starts with that value as its
    data and in its snapshot.  The value determines the record. *)
Theorem save_load_roundtrip (state : JS.LayoutData) (w : JS.World) :
  JS.numbers_ok state ->
  let v := JS.LayoutData_value state in
  JSON64.parse (JSON64.stringify v) = Some v /\
  (forall state', JS.LayoutData_value state' = v -> state' = state) /\
  (JS.write_succeeds v w = true ->
     let w' := fst (JS.save v w) in
     let fresh := JS.layoutStore_init true (JS.localStorage w') in
     JS.load (JS.localStorage w') = v /\
     JS.data fresh = v /\
     JS.getSnapshot fresh = JS.Snapshot.mk v true).
Proof.
  intros Hok. cbv zeta. split; [now apply parse_stringify64|].
  split; [intros state'; apply LayoutData_value_inj|].
  intros Hw.
  pose proof (save_world64 (JS.LayoutData_value state) w) as Hsave.
  cbv zeta in Hsave. rewrite Hw in Hsave. destruct Hsave as (Hls & _).
  assert (Hload : JS.load (JS.localStorage
                     (fst (JS.save (JS.LayoutData_value state) w)))
                  = JS.LayoutData_value state).
  { apply load_stored64; [exact Hok | |]; rewrite Hls; simpl.
    - unfold JS.write_succeeds, Storage.fits in Hw.
      now apply andb_true_iff in Hw as [Hen _].
    - apply lookup_insert_eq. }
  split; [exact Hload|].
  unfold JS.layoutStore_init, JS.getSnapshot. simpl. now rewrite Hload.
Qed.

Lemma save_load_roundtrip_witness :
  let state :=
    JS.mkLayoutData
      (<[22 := JS.Position.mk (Double.of_Q 129.60000610351562%Q)
                              (Double.of_Q 40.5%Q)]> ∅)
      (<[22 := Double.of_Z 22]> ∅) (Double.of_Z 22) in
  let w := JS.mkWorld (JS.layoutStore_init true empty_storage)
                      empty_storage [] in
  JS.numbers_ok state /\
  JS.write_succeeds (JS.LayoutData_value state) w = true /\
  JS.load (JS.localStorage (fst (JS.save (JS.LayoutData_value state) w)))
  = JS.LayoutData_value state.
Proof.
  cbv zeta.
  set (state := JS.mkLayoutData _ _ _).
  set (w := JS.mkWorld _ _ _).
  assert (Hok : JS.numbers_ok state).
  { split; [|split].
    - intros k p H. unfold state in H. simpl in H.
      apply lookup_insert_Some in H as [[_ <-] | [_ H]];
        [split; vm_compute; reflexivity | now rewrite lookup_empty in H].
    - intros k z H. unfold state in H. simpl in H.
      apply lookup_insert_Some in H as [[_ <-] | [_ H]];
        [vm_compute; reflexivity | now rewrite lookup_empty in H].
    - vm_compute. reflexivity. }
  assert (Hw : JS.write_succeeds (JS.LayoutData_value state) w = true)
    by (vm_compute; reflexivity).
  split; [exact Hok|]. split; [exact Hw|].
  destruct (save_load_roundtrip state w Hok) as (_ & _ & H).
  exact (proj1 (H Hw)).
Defined.

(** * Further properties *)

(** ** Video identifiers: what the patterns capture *)

Section Capture.

Local Open Scope string_scope.
#[local] Arguments String.append !s1 s2 : simpl nomatch.

Lemma greedy_star_longest {A} (s : string) (k : string -> option A) :
  is_Some (k (drop_run s)) ->
  greedy_star ["&"%char; LF; "?"%char; "#"%char] s k = k (drop_run s).
Proof.
  induction s as [|c s IH]; intros Hk; [reflexivity|].
  cbn [greedy_star drop_run] in *. fold (id_char c) in *.
  destruct (id_char c); [|reflexivity].
  rewrite (IH Hk). destruct Hk as [x Hx]. now rewrite Hx.
Qed.

Lemma length_take_drop (s : string) :
  String.length s = (String.length (take_run s) + String.length (drop_run s))%nat.
Proof.
  induction s as [|c s IH]; [reflexivity|]. simpl.
  destruct (id_char c); simpl; [now rewrite IH | reflexivity].
Qed.

Lemma substring_take_run (s : string) :
  substring 0 (String.length (take_run s)) s = take_run s.
Proof.
  induction s as [|c s IH]; [reflexivity|]. simpl.
  destruct (id_char c); simpl; [now rewrite IH | reflexivity].
Qed.

Lemma consumed_run (s : string) : consumed s (drop_run s) = take_run s.
Proof.
  unfold consumed. rewrite (length_take_drop s) at 1.
  replace (String.length (take_run s) + String.length (drop_run s)
           - String.length (drop_run s))%nat
    with (String.length (take_run s)) by lia.
  apply substring_take_run.
Qed.

(** The capturing group at the start of [r]: the longest run of class
    characters, when there is one. *)
Lemma re_match_capture (r : string) (cap : option string) :
  re_match (Capture id_chars) r cap (fun _ cap' => Some cap') =
  match r with
  | String c r' => if id_char c then Some (Some (take_run r)) else None
  | EmptyString => None
  end.
Proof.
  destruct r as [|c r']; [reflexivity|].
  cbn [re_match id_chars]. fold (id_char c).
  destruct (id_char c) eqn:Hc; [|reflexivity].
  rewrite greedy_star_longest by (now eexists).
  assert (Hdrop : drop_run (String c r') = drop_run r')
    by (simpl; now rewrite Hc).
  rewrite <- Hdrop. now rewrite consumed_run.
Qed.

Lemma valid_take_run (c : ascii) (r : string) :
  id_char c = true -> valid_id (take_run (String c r)) = true.
Proof.
  intros Hc. simpl. rewrite Hc. simpl. rewrite Hc. simpl.
  induction r as [|c' r IH]; [reflexivity|]. simpl.
  destruct (id_char c') eqn:Hc'; simpl; [now rewrite Hc' | reflexivity].
Qed.

Lemma take_run_id (id tail : string) :
  all_chars id_char id = true -> id_end tail = true ->
  take_run (id ++ tail) = id.
Proof.
  intros Hid Htail. induction id as [|c id IH]; simpl.
  - destruct tail as [|c tail]; [reflexivity|]. simpl in *.
    apply negb_true_iff in Htail. now rewrite Htail.
  - simpl in Hid. apply andb_true_iff in Hid as [Hc Hid].
    now rewrite Hc, IH.
Qed.

Lemma patterns_named : patterns = [first_pattern; shorts_pattern].
Proof. reflexivity. Qed.

Lemma re_match_first_pattern (s : string) :
  re_match first_pattern s None (fun _ cap => Some cap) =
  match capture_after "youtube.com/watch?v=" s with
  | Some x => Some x
  | None =>
      match capture_after "youtu.be/" s with
      | Some x => Some x
      | None => capture_after "youtube.com/embed/" s
      end
  end.
Proof.
  unfold capture_after, first_pattern. cbn [re_match].
  destruct (strip_prefix "youtube.com/watch?v=" s);
    destruct (strip_prefix "youtu.be/" s);
    destruct (strip_prefix "youtube.com/embed/" s); reflexivity.
Qed.

Lemma re_match_shorts_pattern (s : string) :
  re_match shorts_pattern s None (fun _ cap => Some cap) =
  capture_after "youtube.com/shorts/" s.
Proof.
  unfold capture_after, shorts_pattern. cbn [re_match].
  destruct (strip_prefix "youtube.com/shorts/" s); reflexivity.
Qed.

Lemma capture_after_valid (lit s : string) (y : option string) :
  capture_after lit s = Some y ->
  exists c r, y = Some (take_run (String c r)) /\ id_char c = true /\
              strip_prefix lit s = Some (String c r).
Proof.
  unfold capture_after. destruct (strip_prefix lit s) as [r|]; [|discriminate].
  rewrite re_match_capture. destruct r as [|c r']; [discriminate|].
  destruct (id_char c) eqn:Hc; [|discriminate]. intros [= <-].
  now exists c, r'.
Qed.

(** A match of either pattern captures a valid identifier. *)
Lemma re_match_valid (p : regex) (s : string) (x : option string) :
  In p patterns ->
  re_match p s None (fun _ cap => Some cap) = Some x ->
  exists c r lit, x = Some (take_run (String c r)) /\ id_char c = true /\
                  In lit known_shapes /\
                  strip_prefix lit s = Some (String c r).
Proof.
  rewrite patterns_named. intros [<- | [<- | []]].
  - rewrite re_match_first_pattern.
    destruct (capture_after "youtube.com/watch?v=" s) as [y1|] eqn:E1.
    { intros [= <-].
      destruct (capture_after_valid _ _ _ E1) as (c & r & H1 & H2 & H3).
      exists c, r, "youtube.com/watch?v=". simpl. tauto. }
    destruct (capture_after "youtu.be/" s) as [y2|] eqn:E2.
    { intros [= <-].
      destruct (capture_after_valid _ _ _ E2) as (c & r & H1 & H2 & H3).
      exists c, r, "youtu.be/". simpl. tauto. }
    intros E3.
    destruct (capture_after_valid _ _ _ E3) as (c & r & H1 & H2 & H3).
    exists c, r, "youtube.com/embed/". simpl. tauto.
  - rewrite re_match_shorts_pattern. intros E.
    destruct (capture_after_valid _ _ _ E) as (c & r & H1 & H2 & H3).
    exists c, r, "youtube.com/shorts/". simpl. tauto.
Qed.

Lemma strip_prefix_app (lit s r : string) :
  strip_prefix lit s = Some r -> s = lit ++ r.
Proof.
  revert s. induction lit as [|a lit IH]; intros s Hs.
  - simpl in Hs. now injection Hs as ->.
  - destruct s as [|b s]; [discriminate|]. simpl in Hs.
    destruct (Ascii.eqb_spec a b) as [->|]; [|discriminate].
    simpl. f_equal. now apply IH.
Qed.

Lemma strip_prefix_here (lit r : string) : strip_prefix lit (lit ++ r) = Some r.
Proof.
  induction lit as [|a lit IH]; [reflexivity|]. simpl.
  now rewrite Ascii.eqb_refl.
Qed.

Lemma take_drop_run (s : string) : take_run s ++ drop_run s = s.
Proof.
  induction s as [|c s IH]; [reflexivity|]. simpl.
  destruct (id_char c); simpl; [now rewrite IH | reflexivity].
Qed.

Lemma id_end_drop_run (s : string) : id_end (drop_run s) = true.
Proof.
  induction s as [|c s IH]; [reflexivity|]. simpl.
  destruct (id_char c) eqn:Hc; [exact IH|]. simpl. now rewrite Hc.
Qed.

Lemma re_exec_valid (p : regex) (url : string) (x : option string) :
  In p patterns -> re_exec p url = Some x ->
  exists pre lit id tail,
    x = Some id /\ url = pre ++ lit ++ id ++ tail /\ In lit known_shapes /\
    valid_id id = true /\ id_end tail = true.
Proof.
  intros Hp.
  assert (Hhere : forall s y,
    re_match p s None (fun _ cap => Some cap) = Some y ->
    exists lit id tail,
      y = Some id /\ s = lit ++ id ++ tail /\ In lit known_shapes /\
      valid_id id = true /\ id_end tail = true).
  { intros s y E.
    destruct (re_match_valid p _ _ Hp E) as (c & r & lit & -> & Hc & Hl & Hs).
    exists lit, (take_run (String c r)), (drop_run (String c r)).
    rewrite take_drop_run. repeat split; auto.
    - now apply strip_prefix_app.
    - now apply valid_take_run.
    - apply id_end_drop_run. }
  induction url as [|c url IH]; cbn [re_exec].
  - destruct (re_match p "" None (fun _ cap => Some cap)) as [y|] eqn:E;
      [|discriminate].
    intros [= <-]. destruct (Hhere _ _ E) as (lit & id & tail & H).
    now exists "", lit, id, tail.
  - destruct (re_match p (String c url) None (fun _ cap => Some cap))
      as [y|] eqn:E.
    + intros [= <-]. destruct (Hhere _ _ E) as (lit & id & tail & H).
      now exists "", lit, id, tail.
    + intros H. destruct (IH H) as (pre & lit & id & tail & -> & -> & H').
      now exists (String c pre), lit, id, tail.
Qed.

(** An identifier that is found is not empty. *)
Lemma getYouTubeId_nonempty (url id : string) :
  getYouTubeId url = Some id -> id <> "".
Proof.
  unfold getYouTubeId. rewrite patterns_named. cbn [first_match].
  assert (Hv : forall p x, In p patterns -> re_exec p url = Some x ->
                           x = Some id -> id <> "").
  { intros p x Hp E ->.
    destruct (re_exec_valid _ _ _ Hp E) as (_ & _ & i & _ & Hid & _ & _ & H & _).
    injection Hid as <-. now destruct id. }
  destruct (re_exec first_pattern url) as [x|] eqn:E1.
  - apply (Hv first_pattern x); [rewrite patterns_named; simpl; tauto | exact E1].
  - destruct (re_exec shorts_pattern url) as [x|] eqn:E2; [|discriminate].
    apply (Hv shorts_pattern x); [rewrite patterns_named; simpl; tauto | exact E2].
Qed.

(** X1.  Whatever [getYouTubeId] returns stands in the URL right after one
    of the four known shapes, is not empty, holds none of the characters
    [&], line feed, [?] and [#], and runs up to the first such character or
    to the end of the URL. *)
Theorem getYouTubeId_sound (url id : string) :
  getYouTubeId url = Some id ->
  exists pre lit tail,
    url = pre ++ lit ++ id ++ tail /\ In lit known_shapes /\
    valid_id id = true /\ id_end tail = true.
Proof.
  unfold getYouTubeId. rewrite patterns_named. cbn [first_match].
  assert (H1 : In first_pattern patterns)
    by (rewrite patterns_named; simpl; tauto).
  assert (H2 : In shorts_pattern patterns)
    by (rewrite patterns_named; simpl; tauto).
  destruct (re_exec first_pattern url) as [x|] eqn:E1.
  - intros ->.
    destruct (re_exec_valid _ _ _ H1 E1) as (pre & lit & i & tail & Hid & H).
    injection Hid as <-. now exists pre, lit, tail.
  - destruct (re_exec shorts_pattern url) as [x|] eqn:E2; [|discriminate].
    intros ->.
    destruct (re_exec_valid _ _ _ H2 E2) as (pre & lit & i & tail & Hid & H).
    injection Hid as <-. now exists pre, lit, tail.
Qed.

Lemma getYouTubeId_sound_witness :
  getYouTubeId "https://www.youtube.com/embed/xyz?rel=0" = Some "xyz" /\
  exists pre lit tail,
    "https://www.youtube.com/embed/xyz?rel=0" = pre ++ lit ++ "xyz" ++ tail /\
    In lit known_shapes /\ valid_id "xyz" = true /\ id_end tail = true.
Proof.
  split; [reflexivity|].
  apply (getYouTubeId_sound "https://www.youtube.com/embed/xyz?rel=0" "xyz").
  reflexivity.
Defined.

(** No pattern matches at a character other than [y]. *)
Lemma re_match_not_y (p : regex) (c : ascii) (s : string) :
  In p patterns -> Ascii.eqb c "y" = false ->
  re_match p (String c s) None (fun _ cap => Some cap) = None.
Proof.
  rewrite patterns_named. intros [<- | [<- | []]] Hc.
  - rewrite re_match_first_pattern. unfold capture_after.
    cbn [strip_prefix]. rewrite Ascii.eqb_sym, Hc. reflexivity.
  - rewrite re_match_shorts_pattern. unfold capture_after.
    cbn [strip_prefix]. rewrite Ascii.eqb_sym, Hc. reflexivity.
Qed.

Lemma re_exec_skip (p : regex) (pre s : string) :
  In p patterns -> no_y pre = true ->
  re_exec p (pre ++ s) = re_exec p s.
Proof.
  intros Hp. induction pre as [|c pre IH]; [reflexivity|].
  simpl. intros H. apply andb_true_iff in H as [Hc Hpre].
  apply negb_true_iff in Hc.
  change (re_exec p (String c (pre ++ s)))
    with (match re_match p (String c (pre ++ s)) None (fun _ cap => Some cap)
          with Some cap => Some cap | None => re_exec p (pre ++ s) end).
  rewrite re_match_not_y by assumption. now apply IH.
Qed.

Lemma re_exec_here (p : regex) (s : string) (x : option string) :
  re_match p s None (fun _ cap => Some cap) = Some x -> re_exec p s = Some x.
Proof. intros H. destruct s; cbn [re_exec]; now rewrite H. Qed.

Lemma capture_after_here (lit id tail : string) :
  valid_id id = true -> id_end tail = true ->
  capture_after lit (lit ++ id ++ tail) = Some (Some id).
Proof.
  intros Hid Htail. unfold capture_after. rewrite strip_prefix_here.
  rewrite re_match_capture. destruct id as [|c id]; [discriminate|].
  pose proof Hid as Hv. simpl in Hv. apply andb_true_iff in Hv as [Hc _].
  rewrite take_run_id by assumption.
  change (String c id ++ tail) with (String c (id ++ tail)).
  cbv iota. now rewrite Hc.
Qed.

(** X2.  A URL that holds one of the shapes [youtube.com/watch?v=],
    [youtu.be/] and [youtube.com/embed/] after a prefix without the letter
    [y] yields the identifier that follows the shape: the characters up to
    the first of [&], line feed, [?], [#] or the end of the URL. *)
Theorem getYouTubeId_first_pattern (pre lit id tail : string) :
  In lit first_pattern_shapes ->
  no_y pre = true -> valid_id id = true -> id_end tail = true ->
  getYouTubeId (pre ++ lit ++ id ++ tail) = Some id.
Proof.
  intros Hlit Hpre Hid Htail.
  unfold getYouTubeId. rewrite patterns_named. cbn [first_match].
  rewrite re_exec_skip by (auto; rewrite patterns_named; simpl; tauto).
  rewrite (re_exec_here first_pattern _ (Some id)); [reflexivity|].
  rewrite re_match_first_pattern.
  simpl in Hlit. destruct Hlit as [<- | [<- | [<- | []]]].
  - now rewrite capture_after_here.
  - replace (capture_after "youtube.com/watch?v=" ("youtu.be/" ++ id ++ tail))
      with (@None (option string)) by reflexivity.
    now rewrite capture_after_here.
  - replace (capture_after "youtube.com/watch?v="
               ("youtube.com/embed/" ++ id ++ tail))
      with (@None (option string)) by reflexivity.
    replace (capture_after "youtu.be/" ("youtube.com/embed/" ++ id ++ tail))
      with (@None (option string)) by reflexivity.
    now rewrite capture_after_here.
Qed.

Lemma getYouTubeId_first_pattern_witness :
  getYouTubeId ("https://www." ++ "youtube.com/watch?v=" ++ "EUo0ncJX19A"
                ++ "&t=42s") = Some "EUo0ncJX19A".
Proof.
  apply (getYouTubeId_first_pattern "https://www." "youtube.com/watch?v="
           "EUo0ncJX19A" "&t=42s"); [simpl; tauto | reflexivity ..].
Defined.

(** The first pattern finds nothing where none of its shapes occurs. *)
Lemma re_exec_first_absent (url : string) :
  (forall lit, In lit first_pattern_shapes -> includes url lit = false) ->
  re_exec first_pattern url = None.
Proof.
  induction url as [|c url IH]; intros Hno; [reflexivity|].
  assert (Hhere : re_match first_pattern (String c url) None
                    (fun _ cap => Some cap) = None).
  { rewrite re_match_first_pattern. unfold capture_after.
    rewrite (includes_false_here _ "youtube.com/watch?v="),
            (includes_false_here _ "youtu.be/"),
            (includes_false_here _ "youtube.com/embed/");
      try reflexivity; apply Hno; simpl; tauto. }
  cbn [re_exec]. rewrite Hhere. apply IH.
  intros lit Hlit. eapply includes_false_later, Hno, Hlit.
Qed.

(** X3.  A shorts URL yields the identifier after [youtube.com/shorts/],
    provided none of the three shapes of the first pattern occurs in the
    URL: the first pattern is tried on the whole URL before the second. *)
Theorem getYouTubeId_shorts_url (pre id tail : string) :
  (forall lit, In lit first_pattern_shapes ->
     includes (pre ++ "youtube.com/shorts/" ++ id ++ tail) lit = false) ->
  no_y pre = true -> valid_id id = true -> id_end tail = true ->
  getYouTubeId (pre ++ "youtube.com/shorts/" ++ id ++ tail) = Some id.
Proof.
  intros Hno Hpre Hid Htail.
  unfold getYouTubeId. rewrite patterns_named. cbn [first_match].
  rewrite re_exec_first_absent by exact Hno.
  rewrite re_exec_skip by (auto; rewrite patterns_named; simpl; tauto).
  rewrite (re_exec_here shorts_pattern _ (Some id)); [reflexivity|].
  rewrite re_match_shorts_pattern. now apply capture_after_here.
Qed.

Lemma getYouTubeId_shorts_url_witness :
  getYouTubeId ("https://" ++ "youtube.com/shorts/" ++ "aB3_x-9" ++ "?feature=share")
  = Some "aB3_x-9".
Proof.
  apply (getYouTubeId_shorts_url "https://" "aB3_x-9" "?feature=share");
    [|reflexivity ..].
  intros lit Hlit. simpl in Hlit.
  destruct Hlit as [<- | [<- | [<- | []]]]; reflexivity.
Defined.

End Capture.

(** ** The store: unreadable storage, reloads, subscriptions *)

Section StoreMore.

Lemma parse_value_bad_head (fuel : nat) (c : ascii) (r : string) :
  value_head c = false -> JSON.parse_value fuel (String c r) = None.
Proof.
  intros H. destruct fuel; [reflexivity|].
  destruct c as [[] [] [] [] [] [] [] []];
    try (vm_compute in H; discriminate H); reflexivity.
Qed.

Lemma parse_bad_start (text : string) :
  bad_start text = true -> JSON.parse text = None.
Proof.
  unfold bad_start, JSON.parse. intros H.
  destruct (JSON.skip_ws text) as [|c r].
  - now destruct (String.length text).
  - apply negb_true_iff in H. now rewrite parse_value_bad_head.
Qed.

Lemma load_unreadable (ls : Storage.t) : unreadable ls -> load ls = None.
Proof.
  unfold load, Storage.getItem.
  intros [Hen | [Hno | [Hempty | (text & Htext & Hbad)]]].
  - now rewrite Hen.
  - destruct (Storage.enabled ls); [|reflexivity]. now rewrite Hno.
  - destruct (Storage.enabled ls); [|reflexivity]. now rewrite Hempty.
  - destruct (Storage.enabled ls); [|reflexivity]. rewrite Htext.
    destruct text as [|c text]; [reflexivity|].
    unfold JSON_parse. now rewrite parse_bad_start.
Qed.

End StoreMore.

(** X4.  Storage that cannot be read is treated as empty.  When access to
    the storage area is refused, the item is missing or empty, or its text
    is not JSON, the store starts loaded with no data, and the page starts
    with no position and no z-index override and the counter at 20: every
    card of the dataset is in the document and is drawn at its static
    anchor with its static z-index. *)
Theorem unreadable_storage_starts_empty (hydrating : bool) (ls : Storage.t) :
  unreadable ls ->
  let st := layoutStore_init true ls in
  let a := start hydrating ls in
  data st = None /\ getSnapshot st = Snapshot.mk None true /\
  app_positions a = ∅ /\ app_zIndexes a = ∅ /\ maxZRef (ui a) = 20 /\
  forall item, item ∈ fragments ->
    card_rendered (Fragment.id item) a = true /\
    card_style a item = static_style item.
Proof.
  intros Hbad. cbv zeta.
  assert (Hst : layoutStore_init true ls
                = mkLayoutStore ∅ None true (Snapshot.mk None true)).
  { unfold layoutStore_init. now rewrite (load_unreadable ls Hbad). }
  assert (Hlay : layout (start hydrating ls) = None).
  { unfold layout, start. simpl. now rewrite (load_unreadable ls Hbad). }
  rewrite Hst. split; [reflexivity|]. split; [reflexivity|].
  unfold app_positions, app_zIndexes. rewrite Hlay.
  split; [reflexivity|]. split; [reflexivity|]. split.
  { unfold start, mount_component. rewrite Hst.
    now destruct hydrating. }
  intros item Hitem. split.
  - unfold card_rendered, app_isLoaded, start. rewrite Hst. simpl.
    apply bool_decide_eq_true. unfold fragment_ids.
    apply list_elem_of_fmap. now exists item.
  - unfold card_style, getStyle, currentZ, app_positions, app_zIndexes.
    rewrite Hlay. rewrite !lookup_empty.
    unfold start, mount_component. simpl. reflexivity.
Qed.

Lemma unreadable_storage_starts_empty_witness :
  let ls := Storage.mk (<[KEY := "undefined"]> ∅) true 5000 in
  unreadable ls /\ data (layoutStore_init true ls) = None.
Proof.
  cbv zeta.
  assert (H : unreadable (Storage.mk (<[KEY := "undefined"]> ∅) true 5000)).
  { right. right. right. exists "undefined". split; reflexivity. }
  split; [exact H|].
  apply (unreadable_storage_starts_empty false _ H).
Defined.

Section Reload.

Lemma load_saved (d : LayoutData) (w : World) :
  write_succeeds d w = true -> load (localStorage (saved d w)) = Some d.
Proof.
  intros Hw. apply load_stored; simpl.
  - unfold write_succeeds, Storage.fits in Hw.
    now apply andb_true_iff in Hw as [Hen _].
  - apply lookup_insert_eq.
Qed.




End Reload.

(** X6.  Subscriptions form a set and the function [subscribe] returns
    removes the listener: after [subscribe(cb)] a successful [save] calls
    [cb] exactly once, also when [cb] was subscribed before; after the
    returned function was called a [save] does not call [cb] at all. *)
Theorem subscription_spec (cb : nat) (d : LayoutData) (w : World) :
  write_succeeds d w = true ->
  notifications cb (calls (fst (save d (with_listener cb w))))
  = S (notifications cb (calls w)) /\
  notifications cb (calls (fst (save d (without_listener cb w))))
  = notifications cb (calls w).
Proof.
  intros Hw. rewrite !save_world.
  change (write_succeeds d (with_listener cb w)) with (write_succeeds d w).
  change (write_succeeds d (without_listener cb w)) with (write_succeeds d w).
  rewrite Hw. unfold saved. cbn [calls]. rewrite !notifications_app.
  change (calls (with_listener cb w)) with (calls w).
  change (calls (without_listener cb w)) with (calls w). split.
  - rewrite notifications_once; [lia | apply NoDup_elements |].
    apply elem_of_elements. simpl. set_solver.
  - rewrite notifications_absent; [lia|].
    rewrite elem_of_elements. simpl.
    rewrite elem_of_difference, elem_of_singleton. tauto.
Qed.

Lemma subscription_spec_witness :
  let d := mkLayoutData ∅ (<[19 := 21]> ∅) 21 in
  let w := world (start false empty_storage) in
  notifications 0 (calls (fst (save d (with_listener 0 w)))) = 1%nat /\
  notifications 0 (calls (fst (save d (without_listener 0 w)))) = 0%nat.
Proof.
  cbv zeta.
  apply (subscription_spec 0 (mkLayoutData ∅ (<[19 := 21]> ∅) 21)
           (world (start false empty_storage))).
  reflexivity.
Defined.

(** ** Memory and storage *)

(** X5.  Memory and storage never part.  A store initialised in the
    browser takes any sequence of calls of [save] with records whose
    numbers are doubles that survive being written and read; whichever of
    the writes were accepted or refused, the value in memory is then the
    one [load] reads from the storage area, so a page opened afterwards
    starts with the data this one had, and the snapshot is that value with
    [isLoaded] true. *)
Theorem storage_agrees_with_memory (ls : Storage.t)
    (states : list JS.LayoutData) :
  Forall JS.numbers_ok states ->
  let w := JS.saves (List.map JS.LayoutData_value states)
             (JS.mkWorld (JS.layoutStore_init true ls) ls []) in
  JS.load (JS.localStorage w) = JS.data (JS.store w) /\
  JS.data (JS.layoutStore_init true (JS.localStorage w))
  = JS.data (JS.store w) /\
  JS.getSnapshot (JS.store w) = JS.Snapshot.mk (JS.data (JS.store w)) true.
Proof.
  intros Hall. cbv zeta.
  assert (Hrun : forall w,
    JS.load (JS.localStorage w) = JS.data (JS.store w) /\
    JS.getSnapshot (JS.store w) = JS.Snapshot.mk (JS.data (JS.store w)) true /\
    JS.isLoaded (JS.store w) = true ->
    let w' := JS.saves (List.map JS.LayoutData_value states) w in
    JS.load (JS.localStorage w') = JS.data (JS.store w') /\
    JS.getSnapshot (JS.store w') = JS.Snapshot.mk (JS.data (JS.store w')) true /\
    JS.isLoaded (JS.store w') = true).
  { induction Hall as [|d ds Hd _ IH]; intros w Hw; [exact Hw|].
    cbv zeta. simpl. apply IH.
    pose proof (save_world64 (JS.LayoutData_value d) w) as Hsave.
    cbv zeta in Hsave.
    destruct (JS.write_succeeds (JS.LayoutData_value d) w) eqn:Hfit.
    - destruct Hsave as (Hls & Hdata & Hsnap & Hil).
      destruct Hw as (_ & _ & Hl). rewrite Hdata, Hsnap, Hil, Hl.
      split; [|now split].
      apply load_stored64; [exact Hd | |]; rewrite Hls; simpl.
      + unfold JS.write_succeeds, Storage.fits in Hfit.
        now apply andb_true_iff in Hfit as [Hen _].
      + apply lookup_insert_eq.
    - now rewrite Hsave. }
  destruct (Hrun (JS.mkWorld (JS.layoutStore_init true ls) ls []))
    as (H1 & H2 & _); [simpl; tauto|].
  split; [exact H1|]. split; [|exact H2].
  simpl. exact H1.
Qed.

Lemma storage_agrees_with_memory_witness :
  let d1 := JS.mkLayoutData ∅ (<[19 := Double.of_Z 21]> ∅) (Double.of_Z 21) in
  let d2 := JS.mkLayoutData
              (<[19 := JS.Position.mk (Double.of_Q 40.5%Q)
                                      (Double.of_Q 129.6%Q)]> ∅)
              (<[19 := Double.of_Z 22]> ∅) (Double.of_Z 22) in
  let w := JS.saves [JS.LayoutData_value d1; JS.LayoutData_value d2]
             (JS.mkWorld (JS.layoutStore_init true empty_storage)
                         empty_storage []) in
  JS.load (JS.localStorage w) = JS.data (JS.store w).
Proof.
  cbv zeta.
  set (d1 := JS.mkLayoutData ∅ _ _).
  set (d2 := JS.mkLayoutData (<[19 := _]> ∅) _ _).
  assert (H1 : JS.numbers_ok d1).
  { split; [|split].
    - intros k p H. unfold d1 in H. simpl in H. now rewrite lookup_empty in H.
    - intros k z H. unfold d1 in H. simpl in H.
      apply lookup_insert_Some in H as [[_ <-] | [_ H]];
        [vm_compute; reflexivity | now rewrite lookup_empty in H].
    - vm_compute. reflexivity. }
  assert (H2 : JS.numbers_ok d2).
  { split; [|split].
    - intros k p H. unfold d2 in H. simpl in H.
      apply lookup_insert_Some in H as [[_ <-] | [_ H]];
        [split; vm_compute; reflexivity | now rewrite lookup_empty in H].
    - intros k z H. unfold d2 in H. simpl in H.
      apply lookup_insert_Some in H as [[_ <-] | [_ H]];
        [vm_compute; reflexivity | now rewrite lookup_empty in H].
    - vm_compute. reflexivity. }
  destruct (storage_agrees_with_memory empty_storage [d1; d2]) as (H & _).
  - constructor; [exact H1 | constructor; [exact H2 | constructor]].
  - exact H.
Defined.

(** ** Drags *)

Section Drags.

(** The state a whole gesture leaves, whatever the move events. *)
Lemma gesture_state (a : App) (id : Z) (e : PointerEvent) (rect : DOMRect.t)
    (moves : list PointerEvent) :
  let p := drop_point e rect moves in
  let d1 := press_record id a in
  let d2 := release_record id p a in
  let a' := gesture id e rect moves a in
  ui a' = mkComponent (focusedId (ui a)) (focusOrigin (ui a))
            (focusPhase (ui a)) None None None
            (existsb (beyondb (clientX e) (clientY e)) moves)
            (maxZRef (ui a) + 2) /\
  sched a' = sched a /\
  layout a' = (if write_succeeds d2 (world a) then Some d2
               else if write_succeeds d1 (world a) then Some d1
               else layout a) /\
  (write_succeeds d2 (world a) = true ->
   load (localStorage (world a')) = Some d2).
Proof.
  cbv zeta. unfold gesture, press_record, release_record.
  set (a1 := handlePointerDown id e rect a).
  destruct (window_moves_started moves a1 id
              (DragStart.mk (clientX e) (clientY e)
                            (DOMRect.left rect) (DOMRect.top rect)))
    as (E1 & E2 & E3 & E4 & E5 & E6 & E7 & E8); [reflexivity | reflexivity |].
  set (a2 := window_moves moves a1) in *.
  simpl in E7, E8.
  assert (Hdp : dragPos (ui a2) = Some (drop_point e rect moves)).
  { rewrite E8. unfold drop_point. now destruct (last moves). }
  assert (Hend : window_end a2 = handleEnd a2)
    by (unfold window_end; now rewrite E4).
  rewrite Hend, (handleEnd_dragging a2 id _ E4 Hdp).
  set (p := drop_point e rect moves) in *.
  set (a3 := persistLayout _ _ _ a2).
  assert (Hps : app_positions a2 = app_positions a).
  { rewrite (app_positions_world a2 a1 E1). unfold app_positions.
    unfold a1. rewrite layout_handlePointerDown. cbv zeta.
    now destruct (write_succeeds _ (world a)). }
  assert (Hm : maxZRef (ui a2) + 1 = maxZRef (ui a) + 2).
  { rewrite E6. change (maxZRef (ui a1)) with (maxZRef (ui a) + 1). lia. }
  assert (Hzs : <[id := maxZRef (ui a2) + 1]> (app_zIndexes a2)
                = <[id := maxZRef (ui a) + 2]> (app_zIndexes a)).
  { rewrite Hm. rewrite (app_zIndexes_world a2 a1 E1). unfold app_zIndexes.
    unfold a1. rewrite layout_handlePointerDown. cbv zeta.
    destruct (write_succeeds _ (world a)); [|reflexivity].
    simpl. apply insert_insert_eq. }
  assert (Hw2 : forall d, write_succeeds d (world a2) = write_succeeds d (world a)).
  { intros d. rewrite E1. unfold a1. apply write_succeeds_handlePointerDown. }
  assert (Hlay : layout a3 =
    if write_succeeds (mkLayoutData (<[id := p]> (app_positions a))
                         (<[id := maxZRef (ui a) + 2]> (app_zIndexes a))
                         (maxZRef (ui a) + 2)) (world a)
    then Some (mkLayoutData (<[id := p]> (app_positions a))
                 (<[id := maxZRef (ui a) + 2]> (app_zIndexes a))
                 (maxZRef (ui a) + 2))
    else if write_succeeds (mkLayoutData (app_positions a)
                 (<[id := maxZRef (ui a) + 1]> (app_zIndexes a))
                 (maxZRef (ui a) + 1)) (world a)
    then Some (mkLayoutData (app_positions a)
                 (<[id := maxZRef (ui a) + 1]> (app_zIndexes a))
                 (maxZRef (ui a) + 1))
    else layout a).
  { unfold a3. rewrite layout_persistLayout, Hps, Hzs, Hm, Hw2.
    destruct (write_succeeds _ (world a)); [reflexivity|].
    rewrite (layout_world a2 a1 E1). unfold a1.
    now rewrite layout_handlePointerDown. }
  split; [|split; [|split]].
  - unfold a3, persistLayout, saveLayout. unfold_setters. simpl.
    unfold focus_of in E3. injection E3 as F1 F2 F3.
    rewrite F1, F2, F3, E7, Hm. reflexivity.
  - unfold a3, persistLayout, saveLayout. simpl. exact E2.
  - exact Hlay.
  - intros Hw. unfold a3, persistLayout, saveLayout. simpl.
    rewrite save_world, Hps, Hzs, Hm, Hw2, Hw. now apply load_saved; rewrite Hw2.
Qed.

Lemma window_move_dragging (e : PointerEvent) (a : App) (id : Z) :
  draggingId (ui a) = Some id -> window_move e a = handleMove e a.
Proof. intros H. unfold window_move. now rewrite H. Qed.

(** Moves and renders between press and release: the listeners stay
    attached and the component is where the moves alone take it. *)
Lemma between_steps_dragging (evs : list Between) (p : Page) (id : Z)
    (ds : DragStart.t) :
  is_Some (attached p) ->
  draggingId (ui (app p)) = Some id -> dragStartRef (ui (app p)) = Some ds ->
  app (fold_left between_step evs p) = window_moves (moves_of evs) (app p) /\
  is_Some (attached (fold_left between_step evs p)).
Proof.
  revert p. induction evs as [|ev evs IH]; intros p Hatt Hid Hds.
  - now split.
  - destruct ev as [e|]; simpl.
    + assert (Hp : page_move e p = mkPage (handleMove e (app p)) (attached p)).
      { unfold page_move. now destruct Hatt as [l ->]. }
      rewrite Hp.
      destruct (IH (mkPage (handleMove e (app p)) (attached p))) as [H1 H2];
        [exact Hatt | | |].
      * simpl. rewrite (handleMove_started e _ ds Hds). exact Hid.
      * simpl. now rewrite (handleMove_started e _ ds Hds).
      * split; [|exact H2]. rewrite H1. simpl.
        unfold window_moves. simpl.
        now rewrite (window_move_dragging e (app p) id Hid).
    + apply (IH (page_commit p)); simpl; auto.
      unfold capture. rewrite Hid. eauto.
Qed.

Lemma late_moves_dragging (late : list PointerEvent) (p : Page) (id : Z)
    (ds : DragStart.t) :
  is_Some (attached p) ->
  draggingId (ui (app p)) = Some id -> dragStartRef (ui (app p)) = Some ds ->
  fold_left (fun q m => page_move m q) late p
  = mkPage (window_moves late (app p)) (attached p).
Proof.
  revert p. induction late as [|e late IH]; intros p Hatt Hid Hds.
  - now destruct p.
  - simpl.
    assert (Hp : page_move e p = mkPage (handleMove e (app p)) (attached p)).
    { unfold page_move. now destruct Hatt as [l ->]. }
    rewrite Hp, IH; simpl; auto.
    + unfold window_moves. simpl.
      now rewrite (window_move_dragging e (app p) id Hid).
    + rewrite (handleMove_started e _ ds Hds). exact Hid.
    + now rewrite (handleMove_started e _ ds Hds).
Qed.

(** The state a gesture leaves when the last render before the release
    has seen the moves of [evs] but not those of [late]. *)
Lemma gesture_rendered_state (a : App) (id : Z) (e : PointerEvent)
    (rect : DOMRect.t) (evs : list Between) (late : list PointerEvent) :
  let p := drop_point e rect (moves_of evs) in
  let d1 := press_record id a in
  let d2 := release_record id p a in
  let a' := app (gesture_rendered id e rect evs late a) in
  ui a' = mkComponent (focusedId (ui a)) (focusOrigin (ui a))
            (focusPhase (ui a)) None None None
            (existsb (beyondb (clientX e) (clientY e)) (moves_of evs ++ late))
            (maxZRef (ui a) + 2) /\
  sched a' = sched a /\
  layout a' = (if write_succeeds d2 (world a) then Some d2
               else if write_succeeds d1 (world a) then Some d1
               else layout a).
Proof.
  cbv zeta. unfold gesture_rendered, press_record, release_record.
  set (a1 := handlePointerDown id e rect a).
  set (ds := DragStart.mk (clientX e) (clientY e)
                          (DOMRect.left rect) (DOMRect.top rect)).
  assert (Hp0 : page_commit (mkPage a1 None)
                = mkPage a1 (capture a1)) by reflexivity.
  rewrite Hp0.
  destruct (between_steps_dragging evs (mkPage a1 (capture a1)) id ds)
    as [Happ Hatt]; [simpl; eauto | reflexivity | reflexivity |].
  simpl in Happ.
  set (p1 := fold_left between_step evs (mkPage a1 (capture a1))) in *.
  destruct (window_moves_started (moves_of evs) a1 id ds)
    as (E1 & E2 & E3 & E4 & E5 & E6 & E7 & E8); [reflexivity | reflexivity |].
  set (a2 := window_moves (moves_of evs) a1) in *.
  assert (Hdp : dragPos (ui a2) = Some (drop_point e rect (moves_of evs))).
  { rewrite E8. unfold drop_point. now destruct (last (moves_of evs)). }
  assert (Hcap : page_commit p1
                 = mkPage a2 (Some (mkListener (Some id)
                                 (Some (drop_point e rect (moves_of evs)))
                                 (app_positions a2) (app_zIndexes a2)))).
  { unfold page_commit, capture. now rewrite Happ, E4, Hdp. }
  rewrite Hcap.
  rewrite (late_moves_dragging late _ id ds); [|simpl; eauto | exact E4 | exact E5].
  simpl.
  destruct (window_moves_started late a2 id ds)
    as (L1 & L2 & L3 & L4 & L5 & L6 & L7 & L8); [exact E4 | exact E5 |].
  set (a3 := window_moves late a2) in *.
  unfold page_end. simpl. unfold handleEnd_of. simpl.
  set (q := drop_point e rect (moves_of evs)) in *.
  assert (Hps : app_positions a2 = app_positions a).
  { rewrite (app_positions_world a2 a1 E1). unfold app_positions.
    unfold a1. rewrite layout_handlePointerDown. cbv zeta.
    now destruct (write_succeeds _ (world a)). }
  assert (Hm : maxZRef (ui a3) + 1 = maxZRef (ui a) + 2).
  { rewrite L6, E6. change (maxZRef (ui a1)) with (maxZRef (ui a) + 1). lia. }
  assert (Hzs : <[id := maxZRef (ui a3) + 1]> (app_zIndexes a2)
                = <[id := maxZRef (ui a) + 2]> (app_zIndexes a)).
  { rewrite Hm. rewrite (app_zIndexes_world a2 a1 E1). unfold app_zIndexes.
    unfold a1. rewrite layout_handlePointerDown. cbv zeta.
    destruct (write_succeeds _ (world a)); [|reflexivity].
    simpl. apply insert_insert_eq. }
  assert (Hw3 : forall d, write_succeeds d (world a3) = write_succeeds d (world a)).
  { intros d. rewrite L1, E1. unfold a1. apply write_succeeds_handlePointerDown. }
  rewrite Hps, Hzs, Hm.
  split; [|split].
  - unfold persistLayout, saveLayout. unfold_setters. simpl.
    unfold focus_of in E3, L3. injection E3 as F1 F2 F3.
    injection L3 as G1 G2 G3.
    rewrite G1, G2, G3, F1, F2, F3, L7, E7. simpl.
    now rewrite existsb_app.
  - unfold persistLayout, saveLayout. simpl. now rewrite L2, E2.
  - change (layout (on_ui ?f ?b)) with (layout b).
    rewrite layout_persistLayout, Hw3.
    destruct (write_succeeds _ (world a)); [reflexivity|].
    rewrite (layout_world a3 a2 L1), (layout_world a2 a1 E1). unfold a1.
    now rewrite layout_handlePointerDown.
Qed.

End Drags.

(** X7.  A drag moves the card by what the pointer had moved at the last
    render.  After a press on a card, moves and renders in any order, a
    last render, further moves that no render follows, and the release,
    when the write of the release succeeds the card's position override is
    the corner of its bounding rectangle at the press plus the displacement
    of the pointer up to the last move the last render has seen: the
    release runs the [handleEnd] of that render, so moves that come after
    it are not committed.  The card's z-index and the stored [maxZ] are the
    counter raised twice; the overrides of all other cards are as before.
    The gesture is over, the focus state and the timers are as before, and
    the did-drag flag (a ref) tells whether any move, rendered or not, was
    more than 3 pixels from the press on one axis. *)
Theorem drag_commits_rendered_position (a : App) (id : Z) (e : PointerEvent)
    (rect : DOMRect.t) (evs : list Between) (late : list PointerEvent) :
  let m := maxZRef (ui a) in
  let p := drop_point e rect (moves_of evs) in
  let a' := app (gesture_rendered id e rect evs late a) in
  write_succeeds (release_record id p a) (world a) = true ->
  app_positions a' = <[id := p]> (app_positions a) /\
  app_zIndexes a' = <[id := m + 2]> (app_zIndexes a) /\
  option_map maxZ (layout a') = Some (m + 2) /\
  maxZRef (ui a') = m + 2 /\
  (draggingId (ui a') = None /\ dragPos (ui a') = None /\
   dragStartRef (ui a') = None) /\
  didDragRef (ui a')
  = existsb (beyondb (clientX e) (clientY e)) (moves_of evs ++ late) /\
  focus_of (ui a') = focus_of (ui a) /\ sched a' = sched a.
Proof.
  cbv zeta. intros Hw.
  destruct (gesture_rendered_state a id e rect evs late) as (Hui & Hs & Hl).
  rewrite Hw in Hl. unfold app_positions, app_zIndexes, focus_of.
  rewrite Hl, Hui. simpl. tauto.
Qed.

Lemma drag_commits_rendered_position_witness :
  let a := start false empty_storage in
  let rendered := gesture_rendered 22 (MouseEvent 105 110) (DOMRect.mk 100 100)
                    [Moved (MouseEvent 180 150); Rendered;
                     Moved (MouseEvent 255 190)] [] a in
  let stale := gesture_rendered 22 (MouseEvent 105 110) (DOMRect.mk 100 100)
                 [Moved (MouseEvent 180 150)] [MouseEvent 255 190] a in
  app_positions (app rendered) = <[22 := Position.mk 250 180]> (app_positions a) /\
  app_positions (app stale) = <[22 := Position.mk 175 140]> (app_positions a).
Proof.
  cbv zeta. split.
  - apply (drag_commits_rendered_position (start false empty_storage) 22
             (MouseEvent 105 110) (DOMRect.mk 100 100)
             [Moved (MouseEvent 180 150); Rendered; Moved (MouseEvent 255 190)]
             []).
    reflexivity.
  - apply (drag_commits_rendered_position (start false empty_storage) 22
             (MouseEvent 105 110) (DOMRect.mk 100 100)
             [Moved (MouseEvent 180 150)] [MouseEvent 255 190]).
    reflexivity.
Defined.

(** X8.  A dropped card is drawn where the last render had it.  After such
    a gesture whose release was written, a card that is not the focused one
    is drawn fixed at the position the release committed (the live position
    of the last render before the release), with its own rotation and
    width, without transition, at the z-index the release gave it. *)
Theorem dropped_card_style (a : App) (item : Fragment.t) (e : PointerEvent)
    (rect : DOMRect.t) (evs : list Between) (late : list PointerEvent) :
  let id := Fragment.id item in
  let m := maxZRef (ui a) in
  let p := drop_point e rect (moves_of evs) in
  let a' := app (gesture_rendered id e rect evs late a) in
  write_succeeds (release_record id p a) (world a) = true ->
  focusedId (ui a) <> Some id ->
  m + 2 <> 0 ->
  card_style a' item = resting_style item p (m + 2).
Proof.
  cbv zeta. intros Hw Hfoc Hz.
  destruct (gesture_rendered_state a (Fragment.id item) e rect evs late)
    as (Hui & Hs & Hl).
  rewrite Hw in Hl.
  unfold card_style, getStyle, currentZ, app_positions, app_zIndexes.
  rewrite Hl, Hui. simpl. rewrite !lookup_insert_eq.
  rewrite (bool_decide_eq_false_2 _ Hfoc).
  apply Z.eqb_neq in Hz. rewrite Hz. reflexivity.
Qed.

Lemma dropped_card_style_witness :
  let item := Fragment.mk 22 notebook
                (Some "There's no greater danger than playing it safe.")
                None None None
                "32%" (Some "5%") None "220px" 1.5%Q 6 false false None in
  let a := start false empty_storage in
  let a' := app (gesture_rendered 22 (MouseEvent 105 110) (DOMRect.mk 100 100)
                   [Moved (MouseEvent 255 190)] [MouseEvent 300 300] a) in
  card_style a' item = resting_style item (Position.mk 250 180) 22.
Proof.
  cbv zeta.
  apply (dropped_card_style (start false empty_storage)
           (Fragment.mk 22 notebook
              (Some "There's no greater danger than playing it safe.")
              None None None
              "32%" (Some "5%") None "220px" 1.5%Q 6 false false None)
           (MouseEvent 105 110) (DOMRect.mk 100 100)
           [Moved (MouseEvent 255 190)] [MouseEvent 300 300]);
    [reflexivity | discriminate | discriminate].
Defined.

(** ** Stacking *)

Section Stacking.

Lemma step_maxZRef_le (a : App) (ev : Event) :
  maxZRef (ui a) <= maxZRef (ui (step a ev)).
Proof.
  destruct ev as [id e rect|e| |id rect| | |ms]; simpl.
  - unfold card_pointer_down. destruct (_ && _)%bool; [|lia].
    rewrite ui_handlePointerDown. simpl. lia.
  - unfold window_move. destruct (draggingId (ui a)); [|lia].
    unfold handleMove. destruct (dragStartRef (ui a)); [|lia].
    destruct (_ || _)%bool; simpl; lia.
  - unfold window_end. destruct (draggingId (ui a)) eqn:Hd; [|lia].
    rewrite ui_handleEnd, Hd. simpl. destruct (dragPos (ui a)); lia.
  - unfold card_click. destruct (card_rendered id a); [|lia].
    unfold handleClick. destruct (didDragRef (ui a)); [simpl; lia|].
    destruct (bool_decide _); simpl; lia.
  - unfold closeFocus. destruct (focusedId (ui a)); simpl; lia.
  - rewrite maxZRef_run_callbacks. lia.
  - rewrite maxZRef_run_callbacks. lia.
Qed.

(** What holds all along when the counter starts in sync with a stored
    record that satisfies the invariant. *)
Lemma run_keeps_order (hydrating : bool) (ls : Storage.t) (evs : list Event) :
  counter_in_sync (start hydrating ls) ->
  (forall d, load ls = Some d -> layout_invariant d) ->
  let a := run (start hydrating ls) evs in
  app_ok a /\ counter_in_sync a /\
  (forall d, layout a = Some d -> layout_invariant d) /\
  maxZRef (ui (start hydrating ls)) <= maxZRef (ui a).
Proof.
  intros Hsync Hstored. cbv zeta.
  assert (Hrun : forall evs a, app_ok a -> counter_in_sync a ->
            (forall d, layout a = Some d -> layout_invariant d) ->
            app_ok (run a evs) /\ counter_in_sync (run a evs) /\
            (forall d, layout (run a evs) = Some d -> layout_invariant d) /\
            maxZRef (ui a) <= maxZRef (ui (run a evs))).
  { clear. induction evs as [|ev evs IH]; intros a Hok Hsync Hinv.
    - simpl. split; [exact Hok|]. split; [exact Hsync|].
      split; [exact Hinv | lia].
    - destruct (step_keeps_invariant a ev Hok Hsync Hinv) as [Hinv' Hsync'].
      destruct (IH (step a ev)) as (H1 & H2 & H3 & H4); auto using step_ok.
      simpl. split; [exact H1|]. split; [exact H2|]. split; [exact H3|].
      pose proof (step_maxZRef_le a ev). lia. }
  apply Hrun; [apply start_ok | exact Hsync | exact Hstored].
Qed.

Lemma starts_in_sync_spec (hydrating : bool) (ls : Storage.t) :
  starts_in_sync hydrating ls ->
  counter_in_sync (start hydrating ls) /\
  (forall d, load ls = Some d -> layout_invariant d).
Proof.
  intros [Hbad | d -> [Hen Hitem] Hinv].
  - pose proof (load_unreadable ls Hbad) as Hl.
    split; [|intros d Hd; congruence].
    intros d Hd. unfold layout, start in Hd. simpl in Hd. congruence.
  - pose proof (load_stored d ls Hen Hitem) as Hl.
    split; [|intros d' Hd; congruence].
    intros d' Hd. unfold layout, start in Hd. simpl in Hd.
    rewrite Hl in Hd. injection Hd as <-.
    unfold start, mount_component, initial_maxZ. simpl. rewrite Hl. simpl. lia.
Qed.

End Stacking.



(** ** Focus and drag cells in reachable states *)

Section FocusInv.

Lemma start_inv (hydrating : bool) (ls : Storage.t) :
  focus_inv (start hydrating ls).
Proof. split; simpl; try discriminate; auto. Qed.

Lemma Forall_due_later (ts : list (nat * Callback)) (now ms : nat) :
  Forall (fun t => (fst t <= now + 450)%nat) ts ->
  Forall (fun t => (fst t <= now + ms + 450)%nat)
         (List.filter (fun t => negb (is_due (now + ms) t)) ts).
Proof.
  rewrite !Forall_forall. intros H t Hin.
  apply list_elem_of_In, filter_In in Hin as [Hin _].
  apply list_elem_of_In, H in Hin. lia.
Qed.

Lemma filter_none_due (ts : list (nat * Callback)) (now : nat) :
  List.filter (is_due now) ts = [] ->
  List.filter (fun t => negb (is_due now t)) ts = ts.
Proof.
  induction ts as [|t ts IH]; [reflexivity|]. simpl.
  destruct (is_due now t); [discriminate|]. intros H. simpl. now rewrite IH.
Qed.

Lemma filter_all_due (ts : list (nat * Callback)) (now : nat) :
  Forall (fun t => (fst t <= now)%nat) ts ->
  List.filter (fun t => negb (is_due now t)) ts = [].
Proof.
  induction 1 as [|t ts Ht _ IH]; [reflexivity|]. simpl.
  unfold is_due at 1. destruct (Nat.leb_spec (fst t) now); [|lia].
  simpl. apply IH.
Qed.

(** The callbacks leave the drag cells, the flag and the counter alone. *)
Lemma run_callbacks_cells (cbs : list Callback) (c : Component) :
  let c' := run_callbacks cbs c in
  c' = mkComponent (focusedId c') (focusOrigin c') (focusPhase c')
         (draggingId c) (dragPos c) (dragStartRef c) (didDragRef c) (maxZRef c).
Proof.
  cbv zeta. revert c. induction cbs as [|cb cbs IH]; intros c.
  - now destruct c.
  - rewrite run_callbacks_cons. rewrite (IH (run_callback cb c)) at 1.
    now destruct cb.
Qed.

Lemma step_inv (a : App) (ev : Event) :
  app_ok a -> focus_inv a -> focus_inv (step a ev).
Proof.
  intros Hok Ha. destruct ev as [id e rect|e| |id rect| | |ms]; simpl.
  - (* pointer down *)
    unfold card_pointer_down. destruct (_ && _)%bool; [|exact Ha].
    destruct Ha as [H1 H2 H3 H4 H5].
    split; rewrite ?ui_handlePointerDown, ?sched_handlePointerDown; simpl;
      auto.
  - (* pointer move *)
    unfold window_move. destruct (draggingId (ui a)) as [did|] eqn:Hdr;
      [|exact Ha].
    pose proof (inv_drag _ Ha) as Hd. rewrite Hdr in Hd.
    destruct Hd as [_ [ds Hds]].
    rewrite (handleMove_started e a ds Hds).
    destruct Ha as [H1 H2 H3 H4 H5].
    split; simpl; auto. rewrite Hdr. split; eauto.
  - (* pointer end *)
    unfold window_end. destruct (draggingId (ui a)) eqn:Hdr; [|exact Ha].
    destruct Ha as [H1 H2 H3 H4 H5].
    split; rewrite ?ui_handleEnd, ?sched_handleEnd; simpl; auto.
  - (* click *)
    unfold card_click. destruct (card_rendered id a); [|exact Ha].
    unfold handleClick. destruct Ha as [H1 H2 H3 H4 H5].
    destruct (didDragRef (ui a)); [split; simpl; auto|].
    case_bool_decide as Hfoc.
    + split; simpl; auto; try discriminate.
      * intros _ Hnil. now apply app_eq_nil in Hnil as [_ Hnil].
      * apply Forall_app. split; [exact H3|].
        constructor; [simpl; lia | constructor].
    + split; simpl; auto; try discriminate.
      intros _ Hnil. now apply app_eq_nil in Hnil as [_ Hnil].
  - (* overlay click *)
    unfold closeFocus. destruct (focusedId (ui a)) eqn:Hfoc; [|exact Ha].
    destruct Ha as [H1 H2 H3 H4 H5].
    split; simpl; auto; try discriminate.
    + intros _ Hnil. now apply app_eq_nil in Hnil as [_ Hnil].
    + apply Forall_app. split; [exact H3|].
      constructor; [simpl; lia | constructor].
  - (* animation frame *)
    pose proof (run_callbacks_cells (frames (sched a)) (ui a)) as Hc.
    cbv zeta in Hc.
    destruct (run_callbacks_FocusOpen _ (ui a) (ok_frames _ Hok))
      as (E1 & E2 & E3 & E4).
    destruct (run_callbacks_all_open _ (ui a) (ok_frames _ Hok)) as [E | E].
    + destruct Ha as [H1 H2 H3 H4 H5].
      split; simpl; rewrite ?E; auto.
      intros Hop. specialize (H1 Hop).
      destruct (frames (sched a)) as [|cb cbs] eqn:Hf; [congruence|].
      exfalso. pose proof (ok_frames _ Hok) as Hall. rewrite Hf in Hall.
      inversion Hall as [|? ? Hcb Hrest]; subst.
      rewrite run_callbacks_cons in E.
      destruct (run_callbacks_all_open cbs (run_callback FocusOpen (ui a))
                  Hrest) as [E' | E']; rewrite E' in E;
        apply (f_equal focusPhase) in E; simpl in E; congruence.
    + destruct Ha as [H1 H2 H3 H4 H5].
      split; simpl; rewrite ?E; simpl; auto; discriminate.
  - (* time passes *)
    set (now := (clock (sched a) + ms)%nat).
    set (due := List.filter (is_due now) (timeouts (sched a))).
    pose proof (run_callbacks_cells (List.map snd due) (ui a)) as Hc.
    cbv zeta in Hc.
    assert (Hdue : Forall (fun cb => cb = FocusReset) (List.map snd due)).
    { apply Forall_forall. intros cb Hcb.
      apply list_elem_of_In, in_map_iff in Hcb as (t & <- & Hin).
      pose proof (Forall_filter_timeouts (is_due now) _ (ok_timeouts _ Hok))
        as Hall.
      rewrite Forall_forall in Hall. apply Hall. now apply list_elem_of_In. }
    destruct Ha as [H1 H2 H3 H4 H5].
    destruct (run_callbacks_FocusReset _ (ui a) Hdue) as [E | E].
    + assert (Hnone : due = []) by (now destruct due).
      split; simpl; fold now; fold due; rewrite ?E; simpl; auto.
      * intros Hcl. rewrite (filter_none_due _ _ Hnone). auto.
      * now apply Forall_due_later.
    + unfold focus_of in E. injection E as E1 E2 E3.
      split; simpl; fold now; fold due; rewrite ?E1, ?E2, ?E3;
        try discriminate; auto.
      * now apply Forall_due_later.
      * rewrite Hc. simpl. exact H5.
Qed.

Lemma reachable_inv (a : App) : reachable a -> focus_inv a.
Proof.
  intros (hydrating & ls & evs & ->).
  assert (Hrun : forall evs a, app_ok a -> focus_inv a -> focus_inv (run a evs)).
  { clear. induction evs as [|ev evs IH]; intros a Hok Ha; [exact Ha|].
    simpl. apply IH; [now apply step_ok | now apply step_inv]. }
  apply Hrun; [apply start_ok | apply start_inv].
Qed.

End FocusInv.

(** X10.  A closing card always comes to rest.  In every state the page
    reaches with the phase [closing], a reset is pending and due within
    450 ms: once 450 ms (or more) have passed, whatever else was pending,
    the phase is [idle] and [focusedId] and [focusOrigin] are [null]. *)
Theorem closing_completes (a : App) (ms : nat) :
  reachable a -> focusPhase (ui a) = closing -> (450 <= ms)%nat ->
  timeouts (sched a) <> [] /\
  focus_of (ui (elapse ms a)) = (None, None, idle) /\
  timeouts (sched (elapse ms a)) = [].
Proof.
  intros Hreach Hcl Hms.
  pose proof (reachable_ok _ Hreach) as Hok.
  pose proof (reachable_inv _ Hreach) as Hinv.
  pose proof (inv_closing _ Hinv Hcl) as Hne.
  pose proof (inv_due _ Hinv) as Hdue.
  split; [exact Hne|]. split.
  - destruct (timeouts (sched a)) as [|t ts] eqn:Hts; [congruence|].
    unfold elapse. simpl. rewrite Hts.
    apply (elapse_over_pending (t :: ts) _ (ui a) t).
    + rewrite <- Hts. apply (ok_timeouts _ Hok).
    + apply list_elem_of_here.
    + inversion Hdue; subst. lia.
  - unfold elapse. simpl. apply filter_all_due.
    eapply Forall_impl; [exact Hdue|]. simpl. intros t Ht. lia.
Qed.

Lemma closing_completes_witness :
  let a := run (start true empty_storage)
             [Click 19 (DOMRect.mk 40 130); AnimationFrame; OverlayClick;
              Elapse 100; Click 22 (DOMRect.mk 40 260); AnimationFrame;
              Click 22 (DOMRect.mk 40 260)] in
  focusPhase (ui a) = closing /\
  focus_of (ui (elapse 450 a)) = (None, None, idle).
Proof.
  cbv zeta. split; [reflexivity|].
  apply (closing_completes _ 450%nat); [|reflexivity|lia].
  now eexists _, _, _.
Defined.

(** X11.  An opening card is open at the next frame.  In every state the
    page reaches with the phase [opening] a frame callback is queued, and
    the next animation frame makes the phase [open], changes nothing else
    of the component and leaves no frame callback behind. *)
Theorem opening_completes (a : App) :
  reachable a -> focusPhase (ui a) = opening ->
  frames (sched a) <> [] /\
  ui (animation_frame a) = setFocusPhase open (ui a) /\
  frames (sched (animation_frame a)) = [].
Proof.
  intros Hreach Hop.
  pose proof (reachable_ok _ Hreach) as Hok.
  pose proof (inv_opening _ (reachable_inv _ Hreach) Hop) as Hne.
  split; [exact Hne|]. split; [|reflexivity].
  destruct (exists_last Hne) as (cbs & cb & Hf).
  pose proof (ok_frames _ Hok) as Hall. rewrite Hf in Hall.
  apply Forall_app in Hall as [Hall Hcb].
  inversion Hcb; subst.
  unfold animation_frame. simpl. rewrite Hf.
  now apply run_frames_then_open.
Qed.

Lemma opening_completes_witness :
  let a := run (start true empty_storage)
             [Click 19 (DOMRect.mk 40 130); AnimationFrame;
              Click 22 (DOMRect.mk 40 260)] in
  focusPhase (ui a) = opening /\
  ui (animation_frame a) = setFocusPhase open (ui a).
Proof.
  cbv zeta. split; [reflexivity|].
  apply opening_completes; [|reflexivity].
  now eexists _, _, _.
Defined.

(** X12.  The layers of the style resolver in the states the page reaches.
    The focused card always has an origin, so it is always drawn fixed on
    layer 1001; a dragged card that is not focused always has a live
    position, so it is always drawn fixed at that position on layer 999
    without transition; every other card is at rest: at its position
    override, or else at its static anchor, and at its stored z-index, or
    else its static one. *)
Theorem card_layers (a : App) (item : Fragment.t) :
  reachable a ->
  let id := Fragment.id item in
  let st := card_style a item in
  (focusedId (ui a) = Some id ->
     CSS.position st = Some "fixed" /\ CSS.zIndex st = 1001) /\
  (focusedId (ui a) <> Some id -> draggingId (ui a) = Some id ->
     exists dp, dragPos (ui a) = Some dp /\
       CSS.position st = Some "fixed" /\ CSS.zIndex st = 999 /\
       CSS.top st = Some (CSS.Px (Position.y dp)) /\
       CSS.left st = Some (CSS.Px (Position.x dp)) /\
       CSS.transition st = None) /\
  (focusedId (ui a) <> Some id -> draggingId (ui a) <> Some id ->
     st = match app_positions a !! id with
          | Some p => resting_style item p (currentZ a item)
          | None => anchored_style item (currentZ a item)
          end).
Proof.
  intros Hreach. cbv zeta.
  pose proof (reachable_ok _ Hreach) as Hok.
  pose proof (reachable_inv _ Hreach) as Hinv.
  unfold card_style, getStyle. split; [|split].
  - intros Hfoc. rewrite (bool_decide_eq_true_2 _ Hfoc).
    destruct (ok_origin _ Hok _ Hfoc) as [o Ho]. rewrite Ho.
    now destruct (bool_decide (focusPhase (ui a) = open)).
  - intros Hfoc Hdr.
    rewrite (bool_decide_eq_false_2 _ Hfoc), (bool_decide_eq_true_2 _ Hdr).
    pose proof (inv_drag _ Hinv) as Hd. rewrite Hdr in Hd.
    destruct Hd as [[dp Hdp] _]. exists dp. rewrite Hdp. simpl. tauto.
  - intros Hfoc Hdr.
    rewrite (bool_decide_eq_false_2 _ Hfoc), (bool_decide_eq_false_2 _ Hdr).
    now destruct (app_positions a !! Fragment.id item).
Qed.

Lemma card_layers_witness :
  let card19 := Fragment.mk 19 typewriter
      (Some "The world belongs to the energetic.")
      (Some "Ralph Waldo Emerson") None None
      "16%" (Some "5%") None "240px" 1.2%Q 5 false false None in
  let a := run (start true empty_storage)
             [Click 19 (DOMRect.mk 40 130); AnimationFrame] in
  focusedId (ui a) = Some 19 /\ CSS.zIndex (card_style a card19) = 1001.
Proof.
  cbv zeta. split; [reflexivity|].
  apply (card_layers
           (run (start true empty_storage)
                [Click 19 (DOMRect.mk 40 130); AnimationFrame])
           (Fragment.mk 19 typewriter
              (Some "The world belongs to the energetic.")
              (Some "Ralph Waldo Emerson") None None
              "16%" (Some "5%") None "240px" 1.2%Q 5 false false None)).
  - now eexists _, _, _.
  - reflexivity.
Defined.

(** X13.  Focusing a card and closing it again leaves no trace.  From a
    reachable idle state, a click on a card in the document (not after a
    drag), the next frame, a click on the overlay and the 450 ms of the
    closing transition bring every cell of the component back to what it
    was, leave the world (store, storage, listener calls) untouched and the
    scheduler empty: every card is drawn as before. *)
Theorem focus_round_trip_restores (a : App) (A : Z) (rect : DOMRect.t) :
  reachable a -> focusPhase (ui a) = idle -> didDragRef (ui a) = false ->
  card_rendered A a = true ->
  let a' := run a (focus_round_trip A rect) in
  ui a' = ui a /\ world a' = world a /\
  sched a' = mkScheduler (clock (sched a) + 450) [] [] /\
  forall item, card_style a' item = card_style a item.
Proof.
  intros Hreach Hidle Hdrag Hrend. cbv zeta.
  pose proof (reachable_ok _ Hreach) as Hok.
  pose proof (reachable_inv _ Hreach) as Hinv.
  pose proof (ok_idle _ Hok Hidle) as Hnone.
  pose proof (inv_idle _ Hinv Hidle) as Horig.
  unfold focus_round_trip, run. cbn [fold_left step].
  assert (H1 : card_click A rect a =
               on_sched (requestAnimationFrame FocusOpen)
                 (on_ui (fun c => setFocusPhase opening
                           (setFocusedId (Some A)
                              (setFocusOrigin (Some (rect_origin rect)) c))) a)).
  { unfold card_click, handleClick. rewrite Hrend, Hdrag, Hnone.
    rewrite bool_decide_eq_false_2 by discriminate. reflexivity. }
  rewrite H1. set (a1 := on_sched _ _).
  assert (H2 : ui (animation_frame a1) = setFocusPhase open (ui a1)).
  { unfold animation_frame. simpl. apply run_frames_then_open, (ok_frames _ Hok). }
  assert (H3 : closeFocus (animation_frame a1)
               = start_closing (animation_frame a1)).
  { unfold closeFocus. now rewrite H2. }
  rewrite H3. set (a3 := start_closing _).
  assert (Hui3 : ui a3 = setFocusPhase closing (setFocusPhase open (ui a1))).
  { change (ui a3) with (setFocusPhase closing (ui (animation_frame a1))).
    now rewrite H2. }
  assert (Hts3 : timeouts (sched a3)
                 = (timeouts (sched a)
                    ++ [((clock (sched a) + 450)%nat, FocusReset)])%list)
    by reflexivity.
  assert (Hfoc4 : focus_of (ui (elapse 450 a3)) = (None, None, idle)).
  { unfold elapse. simpl. now apply elapse_over_new_timer. }
  assert (Hui4 : ui (elapse 450 a3) = ui a).
  { unfold focus_of in Hfoc4. injection Hfoc4 as F1 F2 F3.
    unfold elapse in *. simpl in *.
    rewrite run_callbacks_cells. rewrite F1, F2, F3, Hui3. simpl.
    destruct (ui a); simpl in *. congruence. }
  assert (Hw4 : world (elapse 450 a3) = world a) by reflexivity.
  split; [exact Hui4|]. split; [exact Hw4|]. split.
  - unfold elapse. simpl. f_equal.
    rewrite List.filter_app. simpl. unfold is_due at 2. simpl.
    rewrite Nat.leb_refl. simpl. rewrite app_nil_r.
    apply filter_all_due, (inv_due _ Hinv).
  - intros item. unfold card_style, getStyle, currentZ, app_positions,
      app_zIndexes, layout. now rewrite Hui4, Hw4.
Qed.

Lemma focus_round_trip_restores_witness :
  let card19 := Fragment.mk 19 typewriter
      (Some "The world belongs to the energetic.")
      (Some "Ralph Waldo Emerson") None None
      "16%" (Some "5%") None "240px" 1.2%Q 5 false false None in
  let a := start true empty_storage in
  let a' := run a (focus_round_trip 19 (DOMRect.mk 40 130)) in
  ui a' = ui a /\ card_style a' card19 = static_style card19.
Proof.
  cbv zeta.
  destruct (focus_round_trip_restores (start true empty_storage) 19
              (DOMRect.mk 40 130))
    as (H1 & _ & _ & H2);
    [apply reachable_start | reflexivity | reflexivity | reflexivity |].
  split; [exact H1|]. now rewrite H2.
Defined.

Section Separation.

Lemma step_focus_event (a : App) (ev : Event) :
  is_focus_event ev = true ->
  world (step a ev) = world a /\ drag_of (ui (step a ev)) = drag_of (ui a).
Proof.
  destruct ev as [id e rect|e| |id rect| | |ms]; try discriminate; intros _;
    simpl.
  - unfold card_click. destruct (card_rendered id a); [|now split].
    unfold handleClick. destruct (didDragRef (ui a)); [now split|].
    now destruct (bool_decide _).
  - unfold closeFocus. now destruct (focusedId (ui a)).
  - split; [reflexivity|]. rewrite run_callbacks_cells. reflexivity.
  - split; [reflexivity|]. rewrite run_callbacks_cells. reflexivity.
Qed.

Lemma step_drag_event (a : App) (ev : Event) :
  is_drag_event ev = true ->
  focus_of (ui (step a ev)) = focus_of (ui a) /\ sched (step a ev) = sched a.
Proof.
  destruct ev as [id e rect|e| |id rect| | |ms]; try discriminate; intros _;
    simpl.
  - unfold card_pointer_down. destruct (_ && _)%bool; now split.
  - unfold window_move. destruct (draggingId (ui a)); [|now split].
    split; [apply focus_of_handleMove | apply sched_handleMove].
  - unfold window_end. destruct (draggingId (ui a)); [|now split].
    split; [|apply sched_handleEnd]. unfold focus_of.
    now rewrite ui_handleEnd.
Qed.

End Separation.

(** X14.  Focus is never persisted and never moves a card.  Clicks on
    cards and on the overlay, animation frames and the passing of time, in
    any number and order and from any state, leave the store, the storage
    area and the record of listener calls as they were (so the layout is
    unchanged and nothing is written), and leave the drag cells and the
    z-index counter alone. *)
Theorem focus_never_persists (a : App) (evs : list Event) :
  Forall (fun ev => is_focus_event ev = true) evs ->
  world (run a evs) = world a /\
  layout (run a evs) = layout a /\
  drag_of (ui (run a evs)) = drag_of (ui a).
Proof.
  intros Hall. revert a.
  induction Hall as [|ev evs Hev _ IH]; intros a; [now split|].
  simpl. destruct (IH (step a ev)) as (H1 & H2 & H3).
  destruct (step_focus_event a ev Hev) as (E1 & E2).
  rewrite H1, H2, H3, E2. unfold layout. rewrite E1. now split.
Qed.

Lemma focus_never_persists_witness :
  let a := start true empty_storage in
  let a' := run a [Click 19 (DOMRect.mk 40 130); AnimationFrame;
                   Click 22 (DOMRect.mk 40 260); Elapse 200; OverlayClick] in
  world a' = world a.
Proof.
  cbv zeta.
  apply (focus_never_persists (start true empty_storage)
           [Click 19 (DOMRect.mk 40 130); AnimationFrame;
            Click 22 (DOMRect.mk 40 260); Elapse 200; OverlayClick]).
  repeat constructor.
Defined.

(** X15.  Dragging never touches focus.  Presses, moves and releases, in
    any number and order and from any state, leave [focusedId],
    [focusOrigin] and [focusPhase] as they were and queue no timer and no
    frame callback. *)
Theorem drag_never_touches_focus (a : App) (evs : list Event) :
  Forall (fun ev => is_drag_event ev = true) evs ->
  focus_of (ui (run a evs)) = focus_of (ui a) /\
  sched (run a evs) = sched a.
Proof.
  intros Hall. revert a.
  induction Hall as [|ev evs Hev _ IH]; intros a; [now split|].
  simpl. destruct (IH (step a ev)) as (H1 & H2).
  destruct (step_drag_event a ev Hev) as (E1 & E2).
  rewrite H1, H2, E1, E2. now split.
Qed.

Lemma drag_never_touches_focus_witness :
  let a := run (start true empty_storage)
             [Click 19 (DOMRect.mk 40 130); AnimationFrame] in
  let a' := run a [PointerDown 22 (MouseEvent 50 300) (DOMRect.mk 40 260);
                   PointerMove (MouseEvent 90 320); PointerEnd] in
  focus_of (ui a') = (Some 19, Some (Position.mk 40 130), open).
Proof.
  cbv zeta.
  apply (drag_never_touches_focus
           (run (start true empty_storage)
                [Click 19 (DOMRect.mk 40 130); AnimationFrame])
           [PointerDown 22 (MouseEvent 50 300) (DOMRect.mk 40 260);
            PointerMove (MouseEvent 90 320); PointerEnd]).
  repeat constructor.
Defined.

(** ** The media card *)

(** X16.  A media card whose URL is missing, empty or of none of the four
    known shapes degrades to the bare placeholder: in every state of the
    page, focused or not, it shows the play button without background image
    and never the embedded player. *)
Theorem media_unknown_url_placeholder (a : App) (item : Fragment.t) :
  Fragment.type item = media ->
  (Fragment.url item = None \/
   exists u, Fragment.url item = Some u /\ matches_no_known_shape u) ->
  card_content a item
  = MediaCard (MediaPlaceholder None (Fragment.title item)
                                (Fragment.author item)).
Proof.
  intros Hty Hurl. unfold card_content, renderMediaCard.
  rewrite (bool_decide_eq_true_2 _ Hty).
  destruct Hurl as [-> | (u & -> & Hno)].
  - now destruct (_ && _)%bool.
  - destruct u as [|c u]; [now destruct (_ && _)%bool|].
    rewrite (getYouTubeId_no_shape _ Hno). now destruct (_ && _)%bool.
Qed.

Lemma media_unknown_url_placeholder_witness :
  let item := Fragment.mk 13 media None None (Some "A talk")
                (Some "https://vimeo.com/76979871")
                "18%" None (Some "5%") "180px" (-2.5)%Q 10 false false None in
  let a := run (start true empty_storage)
             [Click 13 (DOMRect.mk 900 150); AnimationFrame] in
  focus_of (ui a) = (Some 13, Some (Position.mk 900 150), open) /\
  card_content a item = MediaCard (MediaPlaceholder None (Some "A talk") None).
Proof.
  cbv zeta. split; [reflexivity|].
  apply (media_unknown_url_placeholder _
           (Fragment.mk 13 media None None (Some "A talk")
              (Some "https://vimeo.com/76979871")
              "18%" None (Some "5%") "180px" (-2.5)%Q 10 false false None));
    [reflexivity|].
  right. exists "https://vimeo.com/76979871". split; [reflexivity|].
  intros shape Hin. simpl in Hin.
  destruct Hin as [<-|[<-|[<-|[<-|[]]]]]; reflexivity.
Defined.

(** X17.  A media card whose URL yields an identifier shows the embedded
    player exactly while it is the focused card and the phase is [open],
    with the player's address built from the identifier; in every other
    state (not focused, opening, closing) it shows the placeholder with
    the thumbnail of that identifier. *)
Theorem media_player_when_open (a : App) (item : Fragment.t)
    (u videoId : string) :
  Fragment.type item = media ->
  Fragment.url item = Some u ->
  getYouTubeId u = Some videoId ->
  card_content a item
  = MediaCard
      (if (bool_decide (focusedId (ui a) = Some (Fragment.id item))
           && bool_decide (focusPhase (ui a) = open))%bool
       then MediaEmbed (embed_url videoId) (Fragment.title item)
                       (Fragment.author item)
       else MediaPlaceholder (Some (thumbnail_url videoId))
                             (Fragment.title item) (Fragment.author item)).
Proof.
  intros Hty Hurl Hid. unfold card_content, renderMediaCard.
  rewrite (bool_decide_eq_true_2 _ Hty), Hurl.
  destruct u as [|c u]; [discriminate Hid|]. rewrite Hid.
  pose proof (getYouTubeId_nonempty _ _ Hid) as Hv.
  destruct videoId as [|c' v]; [congruence|].
  destruct (bool_decide (focusedId (ui a) = Some (Fragment.id item)));
    destruct (bool_decide (focusPhase (ui a) = open)); reflexivity.
Qed.

Lemma media_player_when_open_witness :
  let item := Fragment.mk 13 media
      None None (Some "Michael Jordan's Wisdom")
      (Some "https://www.youtube.com/watch?v=EUo0ncJX19A")
      "18%" None (Some "5%") "180px" (-2.5)%Q 10 false false None in
  let a := run (start true empty_storage)
             [Click 13 (DOMRect.mk 900 150); AnimationFrame] in
  card_content a item
  = MediaCard (MediaEmbed
                 "https://www.youtube.com/embed/EUo0ncJX19A?autoplay=1&rel=0"
                 (Some "Michael Jordan's Wisdom") None).
Proof.
  cbv zeta.
  apply (media_player_when_open
           (run (start true empty_storage)
                [Click 13 (DOMRect.mk 900 150); AnimationFrame])
           (Fragment.mk 13 media
              None None (Some "Michael Jordan's Wisdom")
              (Some "https://www.youtube.com/watch?v=EUo0ncJX19A")
              "18%" None (Some "5%") "180px" (-2.5)%Q 10 false false None)
           "https://www.youtube.com/watch?v=EUo0ncJX19A" "EUo0ncJX19A");
    reflexivity.
Defined.

(** ** Drags without storage *)

Section NoStorage.

Lemma write_fails_disabled (d : LayoutData) (w : World) :
  Storage.enabled (localStorage w) = false -> write_succeeds d w = false.
Proof. unfold write_succeeds, Storage.fits. now intros ->. Qed.

Lemma gesture_world_disabled (a : App) (id : Z) (e : PointerEvent)
    (rect : DOMRect.t) (moves : list PointerEvent) :
  Storage.enabled (localStorage (world a)) = false ->
  world (gesture id e rect moves a) = world a.
Proof.
  intros Hoff. unfold gesture.
  set (a1 := handlePointerDown id e rect a).
  assert (H1 : world a1 = world a).
  { unfold a1, handlePointerDown, persistLayout, saveLayout. simpl.
    now rewrite save_world, write_fails_disabled. }
  destruct (window_moves_started moves a1 id
              (DragStart.mk (clientX e) (clientY e)
                            (DOMRect.left rect) (DOMRect.top rect)))
    as (E1 & _ & _ & E4 & _); [reflexivity | reflexivity |].
  set (a2 := window_moves moves a1) in *.
  unfold window_end. rewrite E4. unfold handleEnd. rewrite E4.
  destruct (dragPos (ui a2)); simpl; [|congruence].
  rewrite save_world, write_fails_disabled; congruence.
Qed.

End NoStorage.

(** X18.  Without storage a drag does not last.  When access to the
    storage area is refused, a whole gesture (press, moves, release) on a
    page at rest leaves the store as it was: the dragged card gets no
    position override and no z-index, and after the release every card is
    drawn exactly as before the press, although the counter was raised
    twice. *)
Theorem drag_without_storage_is_lost (a : App) (id : Z) (e : PointerEvent)
    (rect : DOMRect.t) (moves : list PointerEvent) :
  Storage.enabled (localStorage (world a)) = false ->
  draggingId (ui a) = None ->
  let a' := gesture id e rect moves a in
  world a' = world a /\
  maxZRef (ui a') = maxZRef (ui a) + 2 /\
  forall item, card_style a' item = card_style a item.
Proof.
  intros Hoff Hrest. cbv zeta.
  pose proof (gesture_world_disabled a id e rect moves Hoff) as Hw.
  destruct (gesture_state a id e rect moves) as (Hui & _ & _ & _).
  split; [exact Hw|]. split; [now rewrite Hui|].
  intros item. unfold card_style, getStyle, currentZ, app_positions,
    app_zIndexes, layout.
  rewrite Hw, Hui, Hrest. simpl. reflexivity.
Qed.

Lemma drag_without_storage_is_lost_witness :
  let a := start true (Storage.mk ∅ false 5000) in
  let a' := gesture 22 (MouseEvent 105 110) (DOMRect.mk 100 100)
              [MouseEvent 255 190] a in
  world a' = world a /\ app_positions a' !! 22 = None.
Proof.
  cbv zeta.
  destruct (drag_without_storage_is_lost (start true (Storage.mk ∅ false 5000))
              22 (MouseEvent 105 110) (DOMRect.mk 100 100)
              [MouseEvent 255 190])
    as (H1 & _); [reflexivity | reflexivity |].
  split; [exact H1|]. unfold app_positions, layout. now rewrite H1.
Defined.

(** ** The invariant along the life of a page *)

(** X19.  A page whose counter starts in sync keeps the invariant for
    ever.  On a page that found no layout it could read, or that was
    mounted without hydration over the stored text of a record that
    satisfies the invariant, after any sequence of events the record the
    page shows satisfies the invariant: all keys are ids of the dataset and
    [maxZ] is at least every stored z-index; and the counter is still not
    behind [maxZ]. *)
Theorem in_sync_page_keeps_invariant (hydrating : bool) (ls : Storage.t)
    (evs : list Event) :
  starts_in_sync hydrating ls ->
  let a := run (start hydrating ls) evs in
  forall d, layout a = Some d ->
    layout_invariant d /\ maxZ d <= maxZRef (ui a).
Proof.
  intros Hstart. cbv zeta. intros d Hd.
  destruct (starts_in_sync_spec hydrating ls Hstart) as [Hsync Hstored].
  destruct (run_keeps_order hydrating ls evs Hsync Hstored)
    as (_ & Hs & Hinv & _).
  split; [now apply Hinv | now apply Hs].
Qed.

Lemma in_sync_page_keeps_invariant_witness :
  let a := run (start true empty_storage)
             [PointerDown 19 (MouseEvent 45 140) (DOMRect.mk 40 130);
              PointerMove (MouseEvent 75 160); PointerEnd;
              PointerDown 22 (MouseEvent 50 300) (DOMRect.mk 40 260);
              PointerEnd] in
  match layout a with
  | Some d => layout_invariant d /\ maxZ d <= maxZRef (ui a)
  | None => True
  end.
Proof.
  cbv zeta.
  assert (Hstart : starts_in_sync true empty_storage)
    by (apply sync_unreadable; right; left; reflexivity).
  pose proof (in_sync_page_keeps_invariant true empty_storage
                [PointerDown 19 (MouseEvent 45 140) (DOMRect.mk 40 130);
                 PointerMove (MouseEvent 75 160); PointerEnd;
                 PointerDown 22 (MouseEvent 50 300) (DOMRect.mk 40 260);
                 PointerEnd] Hstart) as H.
  cbv zeta in H. destruct (layout _) as [d|]; [now apply H | exact I].
Defined.
